(** * simple_pipeline/sw/main.cpp: the host program of the DMA pipeline AFU

    A shallow embedding of [main.cpp] (argument checking, buffer
    initialisation, the MMIO register protocol, the completion wait and the
    exception handlers) together with the properties established for it.

    Data model (x86-64 Linux, LP64, the platform of the OPAE runtime):
    [unsigned] is a 32-bit and [unsigned long] a 64-bit integer, both
    modelled as [Z] with the wrap-around written out; C strings are
    [string]s, read up to the first NUL character. *)

From Stdlib Require Import ZArith List String Ascii Bool Lia.
From Stdlib Require Import Floats.SpecFloat.
Import ListNotations.
Local Open Scope Z_scope.

(** ** Machine integers *)

Definition UINT_MOD : Z := 2 ^ 32.
Definition ULONG_MOD : Z := 2 ^ 64.
Definition LONG_MAX : Z := 2 ^ 63 - 1.
Definition LONG_MIN : Z := - 2 ^ 63.

(** Conversion to [unsigned] and to [unsigned long]. *)
Definition to_unsigned (z : Z) : Z := z mod UINT_MOD.
Definition to_ulong (z : Z) : Z := z mod ULONG_MOD.

Definition EXIT_SUCCESS : Z := 0.
Definition EXIT_FAILURE : Z := 1.

(** ** Exceptions

    [fpga_result] is the error enumeration of the OPAE C library
    (opae/types_enum.h).  [main] has handlers for three types of
    exception: a thrown [fpga_result], a [runtime_error] (or a class
    derived from it) with its [what()] text, and OPAE's [no_driver].
    [Exn_other] stands for an exception of any other type, named by
    [type_name]: another exception class of the OPAE C++ API
    ([opae::fpga::types::no_access], [busy], ...), [std::bad_alloc] and
    the like.  [main] has no handler for it. *)

Inductive fpga_result : Type :=
| FPGA_OK | FPGA_INVALID_PARAM | FPGA_BUSY | FPGA_EXCEPTION | FPGA_NOT_FOUND
| FPGA_NO_MEMORY | FPGA_NOT_SUPPORTED | FPGA_NO_DRIVER | FPGA_NO_DAEMON
| FPGA_NO_ACCESS | FPGA_RECONF_ERROR.

Inductive exn : Type :=
| Exn_fpga_result (e : fpga_result)
| Exn_runtime_error (what : string)
| Exn_no_driver
| Exn_other (type_name : string).

(** ** The C library's [strtol], base 10 (ISO C 7.22.1.4) *)

Definition code (c : ascii) : Z := Z.of_N (N_of_ascii c).

(** [isspace] in the C locale: space, and \t \n \v \f \r. *)
Definition isspace (c : ascii) : bool :=
  (code c =? 32) || ((9 <=? code c) && (code c <=? 13)).

Definition isdigit (c : ascii) : bool :=
  (48 <=? code c) && (code c <=? 57).

Fixpoint skip_space (s : string) : string :=
  match s with
  | String c r => if isspace c then skip_space r else s
  | EmptyString => s
  end.

(** The digit loop: accumulates the value of the longest digit prefix and
    returns the unread rest. *)
Fixpoint scan_digits (acc : Z) (s : string) : Z * string :=
  match s with
  | String c r =>
      if isdigit c then scan_digits (10 * acc + (code c - 48)) r else (acc, s)
  | EmptyString => (acc, s)
  end.

(** A value outside the range of [long] is replaced by the nearest bound. *)
Definition clamp_long (v : Z) : Z :=
  if v >? LONG_MAX then LONG_MAX else if v <? LONG_MIN then LONG_MIN else v.

Definition starts_with_digit (s : string) : bool :=
  match s with
  | String c _ => isdigit c
  | EmptyString => false
  end.

(** [strtol str] is the pair of the returned number and of the string that
    [*endptr] designates.  Without a digit no conversion is performed: the
    result is 0 and [*endptr] is [str] itself. *)
Definition strtol (str : string) : Z * string :=
  let s1 := skip_space str in
  let '(neg, s2) :=
    match s1 with
    | String "-"%char r => (true, r)
    | String "+"%char r => (false, r)
    | _ => (false, s1)
    end in
  if starts_with_digit s2 then
    let '(v, p) := scan_digits 0 s2 in
    (clamp_long (if neg then - v else v), p)
  else (0, str).

(** [*p == '\0']: the characters of a C string end at the first NUL. *)
Definition at_nul (p : string) : bool :=
  match p with
  | EmptyString => true
  | String c _ => code c =? 0
  end.

(** ** main.cpp, lines 151-163

    [strtol] always sets [p], so the test [p != 0] holds and only
    [*p == '\0' && num > 0] is left.  The [long] is returned as an
    [unsigned long]. *)

Definition not_positive_msg : string := "String is not a positive integer.".

Definition stringToPositiveInt (str : string) : exn + Z :=
  let '(num, p) := strtol str in
  if at_nul p && (num >? 0) then inr (to_ulong num)
  else inl (Exn_runtime_error not_positive_msg).

(** ** main.cpp, lines 166-183

    [argv] is the whole argument vector, [argc] its length.  The result is
    [Some num_inputs] when the function returns [true]. *)

Definition checkUsage (argv : list string) : option Z :=
  if Z.of_nat (List.length argv) =? 2 then
    match stringToPositiveInt (nth 1 argv EmptyString) with
    | inr num_inputs =>
        if negb (num_inputs mod 128 =? 0) then None else Some num_inputs
    | inl _ => None
    end
  else None.

(** ** The accelerator interface

    [config.h], [afu_json_info.h] and [AFU.h] are not among the sources.
    Their constants are parameters of the model. *)

(** Modelled from the spec: the register addresses of [config.h], which is
    missing.  The specification's register protocol has a start trigger, an
    input-buffer (read) address, an output-buffer (write) address, a
    transfer size and a done flag; these are the five names [main.cpp]
    uses.  Only their being distinct registers matters here, not their
    offsets. *)
Inductive MmioAddr : Type :=
| MMIO_GO | MMIO_RD_ADDR | MMIO_WR_ADDR | MMIO_SIZE | MMIO_DONE.

Record config : Type := {
  AFU_ACCEL_UUID : string;        (* afu_json_info.h *)
  CL_BYTES : Z;                   (* AFU::CL_BYTES, bytes per cache line *)
  SLEEP_WHILE_WAITING : bool;     (* config.h: is the macro defined? *)
  SLEEP_MS : Z                    (* config.h *)
}.

(** The two arrays of [main]. *)
Inductive buffer : Type := Input | Output.

Definition buffer_eqb (a b : buffer) : bool :=
  match a, b with
  | Input, Input | Output, Output => true
  | _, _ => false
  end.

(** The calls into the [AFU] wrapper class. *)
Inductive call : Type :=
| AfuOpen (uuid : string)          (* AFU afu(uuid) *)
| AfuMeasureClock                  (* afu.measureClock() *)
| AfuMalloc (b : buffer) (n : Z)   (* afu.malloc<T>(n), the result kept in b *)
| AfuWrite (a : MmioAddr) (d : Z)  (* afu.write(a, d) *)
| AfuRead (a : MmioAddr)           (* afu.read(a) *)
| AfuFree (b : buffer).            (* afu.free(b) *)

(** What the program sends to [cout]. *)
Inductive printed : Type :=
| PrClockLabel                     (* "Measured AFU Clock Frequency: " *)
| PrClock (hz : Z)                 (* hz / 1e6, "MHz" and endl *)
| PrValue (v : Z)                  (* one output element and endl *)
| PrText (s : string).

(** The observable actions of a run, in the order they happen.  A call is
    recorded with its reply: the returned value or the exception thrown. *)
Inductive event : Type :=
| EvAfu (c : call) (r : exn + Z)
| EvStore (b : buffer) (i v : Z)
| EvLoad (b : buffer) (i v : Z)
| EvSleep (ms : Z)
| EvCout (p : printed)
| EvCerr (s : string).

(** The contents of the two shared arrays, by element index. *)
Definition memory : Type := buffer -> Z -> Z.

Definition mem_store (m : memory) (b : buffer) (i v : Z) : memory :=
  fun b' i' => if buffer_eqb b b' && (i =? i') then v else m b' i'.

(** The OPAE runtime with the accelerator behind it: the environment of the
    program.  [respond] answers a call given everything that happened so
    far; [touch] is what the accelerator does to the shared arrays while
    the call is served; [fpgaErrStr] is the library's error text. *)
Record driver : Type := {
  respond : list event -> call -> exn + Z;
  touch : list event -> call -> memory -> memory;
  fpgaErrStr : fpga_result -> string
}.

(** ** Runs: state, outcomes and sequencing *)

Record state : Type := { trace : list event; mem : memory }.

Inductive outcome (A : Type) : Type :=
| Done (a : A)
| Raise (e : exn)
| OutOfFuel.
Arguments Done {A} a.
Arguments Raise {A} e.
Arguments OutOfFuel {A}.

Definition M (A : Type) : Type := state -> state * outcome A.

Definition ret {A : Type} (a : A) : M A := fun s => (s, Done a).

Definition bind {A B : Type} (m : M A) (f : A -> M B) : M B :=
  fun s =>
    match m s with
    | (s1, Done a) => f a s1
    | (s1, Raise e) => (s1, Raise e)
    | (s1, OutOfFuel) => (s1, OutOfFuel)
    end.

Notation "x <- c1 ;; c2" := (bind c1 (fun x => c2))
  (at level 61, c1 at next level, right associativity).
Notation "c1 ;; c2" := (bind c1 (fun _ => c2))
  (at level 61, right associativity).

Definition emit (e : event) : M unit :=
  fun s => ({| trace := trace s ++ [e]; mem := mem s |}, Done tt).

Definition out_of_fuel {A : Type} : M A := fun s => (s, OutOfFuel).

Definition cout (p : printed) : M unit := emit (EvCout p).
Definition cerr (msg : string) : M unit := emit (EvCerr msg).
Definition sleep_for (ms : Z) : M unit := emit (EvSleep ms).

(** [b[i] = v] on a volatile array. *)
Definition store (b : buffer) (i v : Z) : M unit :=
  fun s => ({| trace := trace s ++ [EvStore b i v];
               mem := mem_store (mem s) b i v |}, Done tt).

(** The value of [b[i]]. *)
Definition load (b : buffer) (i : Z) : M Z :=
  fun s => ({| trace := trace s ++ [EvLoad b i (mem s b i)]; mem := mem s |},
            Done (mem s b i)).

Definition afu_call (dev : driver) (c : call) : M Z :=
  fun s =>
    let r := respond dev (trace s) c in
    let s' := {| trace := trace s ++ [EvAfu c r];
                 mem := touch dev (trace s) c (mem s) |} in
    match r with
    | inr v => (s', Done v)
    | inl e => (s', Raise e)
    end.

(** ** The size in cache lines, main.cpp lines 91-92

    [float] is IEEE 754 binary32: 24 bits of precision, exponents below
    128. *)

Definition float_of_Z (z : Z) : spec_float := binary_normalize 24 128 z 0 false.
Definition float_div (x y : spec_float) : spec_float := SFdiv 24 128 x y.

(** [ceil] followed by the conversion to an integer.  Converting an
    infinity or a NaN is undefined in C++; the model yields 0 there. *)
Definition ceil_float (x : spec_float) : Z :=
  match x with
  | S754_finite s m e =>
      let v := if s then Z.neg m else Z.pos m in
      if 0 <=? e then v * 2 ^ e else - ((- v) / 2 ^ (- e))
  | _ => 0
  end.

(** [sizeof(unsigned long)] under LP64. *)
Definition sizeof_unsigned_long : Z := 8.

Definition total_bytes (num_inputs : Z) : Z :=
  to_unsigned (to_ulong (num_inputs * sizeof_unsigned_long)).

Definition num_cls (cfg : config) (num_inputs : Z) : Z :=
  to_unsigned
    (ceil_float (float_div (float_of_Z (total_bytes num_inputs))
                           (float_of_Z (CL_BYTES cfg)))).

(** ** main.cpp, lines 47-149 *)

Section Program.

Variable cfg : config.
Variable dev : driver.

(** Lines 75-77 and 79-81: [for (unsigned i=0; i < bound; i++) b[i] = v].
    The counter is an [unsigned]; it is compared with the [unsigned long]
    bound and wraps to 0 after [UINT_MOD - 1]. *)
Fixpoint init_loop (fuel : nat) (b : buffer) (bound v i : Z) : M unit :=
  match fuel with
  | O => out_of_fuel
  | S fuel' =>
      if i <? bound then
        store b i v ;;
        init_loop fuel' b bound v (to_unsigned (i + 1))
      else ret tt
  end.

(** Lines 99-103: [while (afu.read(MMIO_DONE) == 0) { sleep }]. *)
Fixpoint wait_done (fuel : nat) : M unit :=
  match fuel with
  | O => out_of_fuel
  | S fuel' =>
      done <- afu_call dev (AfuRead MMIO_DONE) ;;
      if done =? 0 then
        (if SLEEP_WHILE_WAITING cfg then sleep_for (SLEEP_MS cfg) else ret tt) ;;
        wait_done fuel'
      else ret tt
  end.

(** Lines 105-107: [for (unsigned i=0; i < bound; i++) cout << output[i]]. *)
Fixpoint print_loop (fuel : nat) (bound i : Z) : M unit :=
  match fuel with
  | O => out_of_fuel
  | S fuel' =>
      if i <? bound then
        v <- load Output i ;;
        cout (PrValue v) ;;
        print_loop fuel' bound (to_unsigned (i + 1))
      else ret tt
  end.

Definition success_msg : string := "All DMA Tests Successful!!!".

(** Lines 58-114: the [try] block, with [num_outputs] computed before it.
    Each loop may run for [fuel] iterations.  In line 67 the operands of
    [<<] are evaluated from left to right: the label is sent to [cout]
    before [afu.measureClock()] is called. *)
Definition try_block (fuel : nat) (num_inputs : Z) : M Z :=
  let num_outputs := num_inputs / 16 in
  afu_call dev (AfuOpen (AFU_ACCEL_UUID cfg)) ;;
  cout PrClockLabel ;;
  hz <- afu_call dev AfuMeasureClock ;;
  cout (PrClock hz) ;;
  input <- afu_call dev (AfuMalloc Input num_inputs) ;;
  output <- afu_call dev (AfuMalloc Output num_outputs) ;;
  init_loop fuel Input num_inputs 1 0 ;;
  init_loop fuel Output num_outputs 0 0 ;;
  afu_call dev (AfuWrite MMIO_RD_ADDR input) ;;
  afu_call dev (AfuWrite MMIO_WR_ADDR output) ;;
  afu_call dev (AfuWrite MMIO_SIZE (num_cls cfg num_inputs)) ;;
  afu_call dev (AfuWrite MMIO_GO 1) ;;
  wait_done fuel ;;
  print_loop fuel num_outputs 0 ;;
  afu_call dev (AfuFree Input) ;;
  afu_call dev (AfuFree Output) ;;
  cout (PrText success_msg) ;;
  ret EXIT_SUCCESS.

(** Lines 118-138: the text the handler that catches [e] sends to [cerr];
    [None] when no handler matches. *)
Definition handler_message (e : exn) : option string :=
  match e with
  | Exn_fpga_result FPGA_BUSY => Some "ERROR: All FPGAs busy."%string
  | Exn_fpga_result FPGA_NOT_FOUND =>
      Some ("ERROR: FPGA with accelerator " ++ AFU_ACCEL_UUID cfg
            ++ " not found.")%string
  | Exn_fpga_result r => Some ("ERROR: " ++ fpgaErrStr dev r)%string
  | Exn_runtime_error what => Some what
  | Exn_no_driver => Some "ERROR: No FPGA driver found."%string
  | Exn_other _ => None
  end.

(** [try { ... } catch ...; return EXIT_FAILURE;] with the three handlers
    of lines 118-138.  There is no [catch (...)]: an exception that no
    handler matches leaves [main], and the run ends with it. *)
Definition try_catch (body : M Z) : M Z :=
  fun s =>
    match body s with
    | (s1, Raise e) =>
        match handler_message e with
        | Some msg => (cerr msg ;; ret EXIT_FAILURE) s1
        | None => (s1, Raise e)
        end
    | r => r
    end.

(** Lines 144-149. *)
Definition usage_message (name : string) : string :=
  "Usage: " ++ name ++ " size num_tests" ++ String "010" (
  "size (positive integer for number of inputs to test, must be multiple of 128)"
  ++ String "010" (String "010" EmptyString)).

Definition printUsage (name : string) : M unit :=
  cout (PrText (usage_message name)).

(** Lines 47-141.  [name] is [argv[0]] and [args] are the arguments after
    it, so that [argc] is [1 + length args]. *)
Definition main (fuel : nat) (name : string) (args : list string) : M Z :=
  match checkUsage (name :: args) with
  | None => printUsage name ;; ret EXIT_FAILURE
  | Some num_inputs => try_catch (try_block fuel num_inputs)
  end.

Definition initial : state := {| trace := []; mem := fun _ _ => 0 |}.

(** A whole run of the program. *)
Definition run (fuel : nat) (name : string) (args : list string)
  : state * outcome Z :=
  main fuel name args initial.

End Program.

(** ** The accelerator, as far as the specification describes it *)

(** Modelled from the spec: the accelerator's logic (the RTL beside sw/)
    and [AFU.h] are not among the sources.  The specification's accelerator
    is programmed through its registers with a source address, a
    destination address and a transfer size in cache lines, and started by
    the start trigger.  [hw] is what the accelerator has been told in a
    run: the address and size registers as last written, where the arrays
    were allocated, and the transfer that was started, which is the content
    of the three registers at the moment 1 was written to [MMIO_GO]. *)
Record hw : Type := {
  hw_rd : Z;
  hw_wr : Z;
  hw_size : Z;
  hw_input : option Z;
  hw_output : option Z;
  hw_job : option (Z * Z * Z)
}.

Definition hw_init : hw :=
  {| hw_rd := 0; hw_wr := 0; hw_size := 0;
     hw_input := None; hw_output := None; hw_job := None |}.

Definition hw_set_array (h : hw) (b : buffer) (a : option Z) : hw :=
  match b with
  | Input => {| hw_rd := hw_rd h; hw_wr := hw_wr h; hw_size := hw_size h;
                hw_input := a; hw_output := hw_output h; hw_job := hw_job h |}
  | Output => {| hw_rd := hw_rd h; hw_wr := hw_wr h; hw_size := hw_size h;
                 hw_input := hw_input h; hw_output := a; hw_job := hw_job h |}
  end.

Definition hw_step (h : hw) (e : event) : hw :=
  match e with
  | EvAfu (AfuMalloc b _) (inr a) => hw_set_array h b (Some a)
  | EvAfu (AfuFree b) (inr _) => hw_set_array h b None
  | EvAfu (AfuWrite MMIO_RD_ADDR d) (inr _) =>
      {| hw_rd := d; hw_wr := hw_wr h; hw_size := hw_size h;
         hw_input := hw_input h; hw_output := hw_output h; hw_job := hw_job h |}
  | EvAfu (AfuWrite MMIO_WR_ADDR d) (inr _) =>
      {| hw_rd := hw_rd h; hw_wr := d; hw_size := hw_size h;
         hw_input := hw_input h; hw_output := hw_output h; hw_job := hw_job h |}
  | EvAfu (AfuWrite MMIO_SIZE d) (inr _) =>
      {| hw_rd := hw_rd h; hw_wr := hw_wr h; hw_size := d;
         hw_input := hw_input h; hw_output := hw_output h; hw_job := hw_job h |}
  | EvAfu (AfuWrite MMIO_GO 1) (inr _) =>
      {| hw_rd := hw_rd h; hw_wr := hw_wr h; hw_size := hw_size h;
         hw_input := hw_input h; hw_output := hw_output h;
         hw_job := Some (hw_rd h, hw_wr h, hw_size h) |}
  | _ => h
  end.

Definition hw_run (t : list event) : hw := fold_left hw_step t hw_init.

Definition lives_at (a : option Z) (addr : Z) : bool :=
  match a with
  | Some x => x =? addr
  | None => false
  end.

(** The array that lives at an address. *)
Definition array_at (h : hw) (addr : Z) : option buffer :=
  if lives_at (hw_input h) addr then Some Input
  else if lives_at (hw_output h) addr then Some Output
  else None.

(** Modelled from the spec: a transfer of [size] cache lines reads
    [size * CL_BYTES / 8] elements of eight bytes, and there is one output
    for every sixteen inputs. *)
Definition outputs_of (cfg : config) (size : Z) : Z :=
  size * (CL_BYTES cfg / sizeof_unsigned_long) / 16.

(** The array the started transfer reads. *)
Definition source (h : hw) : option buffer :=
  match hw_job h with
  | Some (rd, _, _) => array_at h rd
  | None => None
  end.

(** Is element [j] of array [b] one that the started transfer writes? *)
Definition destination (cfg : config) (h : hw) (b : buffer) (j : Z) : bool :=
  match hw_job h with
  | Some (_, wr, size) =>
      match array_at h wr with
      | Some dst => buffer_eqb dst b && (0 <=? j) && (j <? outputs_of cfg size)
      | None => false
      end
  | None => false
  end.

(** The sixteen elements of array [src] that feed output element [j]. *)
Definition group16 (m : memory) (src : buffer) (j : Z) : list Z :=
  map (fun k => m src (16 * j + Z.of_nat k)) (seq 0 16).

(** Modelled from the spec: the accelerator's logic (the RTL beside sw/) is
    not among the sources.  The specification says that the program
    programs the accelerator's registers with the source and destination
    addresses and the transfer size in cache lines and then triggers the
    transfer, and that every output is the hardware's aggregation of
    sixteen inputs.  A driver is a pipeline accelerator for [aggregate]
    when the arrays change only while [MMIO_DONE] is polled; when nothing
    but the elements the started transfer writes is ever changed, that is
    the first [outputs_of cfg size] elements of the array at the address
    written to [MMIO_WR_ADDR]; and when, by the time [MMIO_DONE] reads
    nonzero, each of these elements holds the aggregation of its group of
    sixteen elements of the array at the address written to
    [MMIO_RD_ADDR]. *)
Definition pipeline_accelerator (cfg : config) (aggregate : list Z -> Z)
           (dev : driver) : Prop :=
  (forall t c m b i, c <> AfuRead MMIO_DONE -> touch dev t c m b i = m b i) /\
  (forall t m b i,
      destination cfg (hw_run t) b i = false ->
      touch dev t (AfuRead MMIO_DONE) m b i = m b i) /\
  (forall t m done src b j,
      respond dev t (AfuRead MMIO_DONE) = inr done -> done <> 0 ->
      source (hw_run t) = Some src ->
      destination cfg (hw_run t) b j = true ->
      touch dev t (AfuRead MMIO_DONE) m b j = aggregate (group16 m src j)).

(** Modelled from the spec: [AFU.h] is not among the sources.  The
    buffers it allocates are distinct: [afu.malloc] never returns an
    address at which an array lives. *)
Definition fresh_addresses (dev : driver) : Prop :=
  forall t b n a,
    respond dev t (AfuMalloc b n) = inr a ->
    lives_at (hw_input (hw_run t)) a = false /\
    lives_at (hw_output (hw_run t)) a = false.

(** *** A concrete environment, used to exhibit runs *)

Definition demo_config : config := {|
  AFU_ACCEL_UUID := "d3adb33f-0000-0000-0000-000000000000";
  CL_BYTES := 64;
  SLEEP_WHILE_WAITING := true;
  SLEEP_MS := 10
|}.

Definition is_done_read (e : event) : bool :=
  match e with
  | EvAfu (AfuRead MMIO_DONE) _ => true
  | _ => false
  end.

Definition sum_list (l : list Z) : Z := fold_right Z.add 0 l.

Definition address_or_0 (a : option Z) : Z :=
  match a with
  | Some x => x
  | None => 0
  end.

(** Every call succeeds; arrays are placed 4096 bytes above the highest
    address in use; the third read of [MMIO_DONE] returns 1, and by then
    the started transfer is complete, each output being the sum of its
    sixteen inputs. *)
Definition demo_driver : driver := {|
  respond := fun t c =>
    match c with
    | AfuRead MMIO_DONE =>
        inr (if (2 <=? List.length (filter is_done_read t))%nat then 1 else 0)
    | AfuMalloc _ _ =>
        inr (4096 + Z.max (address_or_0 (hw_input (hw_run t)))
                          (address_or_0 (hw_output (hw_run t))))
    | AfuMeasureClock => inr 200000000
    | _ => inr 0
    end;
  touch := fun t c m =>
    match c with
    | AfuRead MMIO_DONE =>
        if (2 <=? List.length (filter is_done_read t))%nat then
          fun b j =>
            if destination demo_config (hw_run t) b j
            then match source (hw_run t) with
                 | Some src => sum_list (group16 m src j)
                 | None => m b j
                 end
            else m b j
        else m
    | _ => m
    end;
  fpgaErrStr := fun _ => "fpga error"%string
|}.

(** ** Auxiliary notions used in the statements *)

Fixpoint all_chars (p : ascii -> bool) (s : string) : bool :=
  match s with
  | EmptyString => true
  | String c r => p c && all_chars p r
  end.

(** The number a string of decimal digits denotes, most significant digit
    first. *)
Fixpoint decimal_value (s : string) : Z :=
  match s with
  | EmptyString => 0
  | String c r => (code c - 48) * 10 ^ Z.of_nat (String.length r) + decimal_value r
  end.

(** [zrange i len] is [i; i+1; ...; i+len-1]. *)
Fixpoint zrange (i : Z) (len : nat) : list Z :=
  match len with
  | O => []
  | S len' => i :: zrange (i + 1) len'
  end.

(** The indices [0 .. n-1] of an array of [n] elements. *)
Definition indices (n : Z) : list Z := zrange 0 (Z.to_nat n).

(** The state a completed action leaves behind. *)
Definition st_call (dev : driver) (s : state) (c : call) (r : exn + Z) : state :=
  {| trace := trace s ++ [EvAfu c r]; mem := touch dev (trace s) c (mem s) |}.

Definition st_emit (s : state) (evs : list event) : state :=
  {| trace := trace s ++ evs; mem := mem s |}.

Definition st_stores (s : state) (b : buffer) (idx : list Z) (v : Z) : state :=
  {| trace := trace s ++ map (fun k => EvStore b k v) idx;
     mem := fold_left (fun m k => mem_store m b k v) idx (mem s) |}.

(** One unsuccessful poll of the completion wait, and [k] of them. *)
Definition zero_poll (cfg : config) : list event :=
  EvAfu (AfuRead MMIO_DONE) (inr 0) ::
  (if SLEEP_WHILE_WAITING cfg then [EvSleep (SLEEP_MS cfg)] else []).

Fixpoint zero_polls (cfg : config) (k : nat) : list event :=
  match k with
  | O => []
  | S k' => zero_poll cfg ++ zero_polls cfg k'
  end.

(** The state after [k] unsuccessful polls. *)
Fixpoint polled (cfg : config) (dev : driver) (k : nat) (s : state) : state :=
  match k with
  | O => s
  | S k' =>
      polled cfg dev k'
        (st_emit (st_call dev s (AfuRead MMIO_DONE) (inr 0))
                 (if SLEEP_WHILE_WAITING cfg then [EvSleep (SLEEP_MS cfg)] else []))
  end.

(** What the print loop sends out for the first [count] output elements. *)
Definition print_events (m : memory) (idx : list Z) : list event :=
  flat_map (fun j => [EvLoad Output j (m Output j); EvCout (PrValue (m Output j))]) idx.

(** The exact number of cache lines that hold [bytes] bytes. *)
Definition ceil_div (bytes cl : Z) : Z := (bytes + cl - 1) / cl.

(** *** The order of the control operations, as an automaton

    A run starts by opening the accelerator, prepares (measures the clock,
    allocates and fills the arrays, writes the address and size registers),
    writes [MMIO_GO], waits (reads [MMIO_DONE], sleeps), and reports (reads
    the output array, prints, frees).  The usage message, or a handler's
    message on [cerr], ends it. *)

Inductive phase : Type := Starting | Preparing | Waiting | Reporting | Ended.

Definition protocol_step (p : phase) (e : event) : option phase :=
  match p, e with
  | Ended, _ => None
  | _, EvCerr _ => Some Ended
  | Starting, EvAfu (AfuOpen _) _ => Some Preparing
  | Starting, EvCout (PrText _) => Some Ended
  | Starting, _ => None
  | Preparing, EvAfu (AfuOpen _) _ => None
  | Preparing, EvAfu (AfuWrite MMIO_GO 1) _ => Some Waiting
  | Preparing, EvAfu (AfuWrite MMIO_GO _) _ => None
  | Preparing, EvAfu (AfuWrite MMIO_DONE _) _ => None
  | Preparing, EvAfu (AfuRead _) _ => None
  | Preparing, EvAfu (AfuFree _) _ => None
  | Preparing, EvLoad _ _ _ => None
  | Preparing, EvSleep _ => None
  | Preparing, _ => Some Preparing
  | Waiting, EvAfu (AfuRead MMIO_DONE) _ => Some Waiting
  | Waiting, EvSleep _ => Some Waiting
  | Waiting, EvLoad Output _ _ => Some Reporting
  | Waiting, _ => None
  | Reporting, EvLoad Output _ _ => Some Reporting
  | Reporting, EvCout _ => Some Reporting
  | Reporting, EvAfu (AfuFree _) _ => Some Reporting
  | Reporting, _ => None
  end.

Fixpoint protocol (p : phase) (t : list event) : option phase :=
  match t with
  | [] => Some p
  | e :: t' =>
      match protocol_step p e with
      | Some q => protocol q t'
      | None => None
      end
  end.

(** A read of [MMIO_DONE] or a sleep. *)
Definition poll_or_sleep (e : event) : Prop :=
  match e with
  | EvAfu (AfuRead MMIO_DONE) _ => True
  | EvSleep _ => True
  | _ => False
  end.

Definition is_output_load (e : event) : Prop :=
  match e with
  | EvLoad Output _ _ => True
  | _ => False
  end.

(** The control operations: register accesses, reads of the arrays and
    the release of the arrays. *)
Definition is_control (e : event) : bool :=
  match e with
  | EvAfu (AfuWrite _ _) _ | EvAfu (AfuRead _) _ | EvAfu (AfuFree _) _
  | EvLoad _ _ _ => true
  | _ => false
  end.

Definition is_go_write (e : event) : bool :=
  match e with
  | EvAfu (AfuWrite MMIO_GO _) _ => true
  | _ => false
  end.

Definition is_output_store (e : event) : bool :=
  match e with
  | EvStore Output _ _ => true
  | _ => false
  end.

Definition is_value_print (e : event) : bool :=
  match e with
  | EvCout (PrValue _) => true
  | _ => false
  end.

(** An action on an output element: a store, a load or its printing. *)
Definition touches_output (e : event) : Prop :=
  match e with
  | EvStore Output _ _ | EvLoad Output _ _ | EvCout (PrValue _) => True
  | _ => False
  end.





(** [follows p m Q]: run from any state whose history has brought the
    automaton to phase [p], the action [m] only adds events that the
    automaton accepts; when [m] completes, its result and the phase reached
    satisfy [Q], and when it throws, the last event is the call that
    threw. *)
Definition follows {A : Type} (p : phase) (m : M A) (Q : A -> phase -> Prop) : Prop :=
  forall s, exists evs q,
    trace (fst (m s)) = trace s ++ evs /\
    protocol p evs = Some q /\ q <> Ended /\
    (forall a, snd (m s) = Done a -> Q a q) /\
    (forall e, snd (m s) = Raise e -> exists t c, evs = t ++ [EvAfu c (inl e)]).

(** *** The states of a successful run

    The values the environment returned along the way. *)
Record replies : Type := {
  rp_open : Z; rp_clock : Z; rp_input : Z; rp_output : Z;
  rp_rd : Z; rp_wr : Z; rp_size : Z; rp_go : Z;
  rp_polls : nat; rp_done : Z;
  rp_free_in : Z; rp_free_out : Z
}.

Section SuccessfulRun.

Variable cfg : config.
Variable dev : driver.
Variable s : state.
Variable n : Z.
Variable rp : replies.

(** The input array allocated (lines 64-71). *)
Definition st_input : state :=
  st_call dev
    (st_emit
       (st_call dev
          (st_emit
             (st_call dev s (AfuOpen (AFU_ACCEL_UUID cfg)) (inr (rp_open rp)))
             [EvCout PrClockLabel])
          AfuMeasureClock (inr (rp_clock rp)))
       [EvCout (PrClock (rp_clock rp))])
    (AfuMalloc Input n) (inr (rp_input rp)).

(** Both arrays allocated and initialised (lines 64-81). *)
Definition st_ready : state :=
  st_stores
    (st_stores
       (st_call dev
          (st_call dev
             (st_emit
                (st_call dev
                   (st_emit
                      (st_call dev s (AfuOpen (AFU_ACCEL_UUID cfg))
                               (inr (rp_open rp)))
                      [EvCout PrClockLabel])
                   AfuMeasureClock (inr (rp_clock rp)))
                [EvCout (PrClock (rp_clock rp))])
             (AfuMalloc Input n) (inr (rp_input rp)))
          (AfuMalloc Output (n / 16)) (inr (rp_output rp)))
       Input (indices n) 1)
    Output (indices (n / 16)) 0.

(** The address and size registers written (lines 84-93): the state in
    which the transfer is triggered. *)
Definition st_armed : state :=
  st_call dev
    (st_call dev
       (st_call dev st_ready (AfuWrite MMIO_RD_ADDR (rp_input rp)) (inr (rp_rd rp)))
       (AfuWrite MMIO_WR_ADDR (rp_output rp)) (inr (rp_wr rp)))
    (AfuWrite MMIO_SIZE (num_cls cfg n)) (inr (rp_size rp)).

(** [MMIO_GO] written (line 96). *)
Definition st_go : state :=
  st_call dev st_armed (AfuWrite MMIO_GO 1) (inr (rp_go rp)).

(** The state in which the last, successful poll is made. *)
Definition st_last_poll : state := polled cfg dev (rp_polls rp) st_go.

(** The wait over (lines 99-103). *)
Definition st_done : state :=
  st_call dev st_last_poll (AfuRead MMIO_DONE) (inr (rp_done rp)).

(** The end of the [try] block (lines 105-114). *)
Definition st_end : state :=
  st_emit
    (st_call dev
       (st_call dev
          (st_emit st_done (print_events (mem st_done) (indices (n / 16))))
          (AfuFree Input) (inr (rp_free_in rp)))
       (AfuFree Output) (inr (rp_free_out rp)))
    [EvCout (PrText success_msg)].

(** What the accelerator has been told once [MMIO_GO] is written. *)
Definition hw_started : hw :=
  {| hw_rd := rp_input rp; hw_wr := rp_output rp; hw_size := num_cls cfg n;
     hw_input := Some (rp_input rp); hw_output := Some (rp_output rp);
     hw_job := Some (rp_input rp, rp_output rp, num_cls cfg n) |}.

(** The value printed for output element [j]: 16 when the transfer
    reaches it, the initial 0 otherwise. *)
Definition printed_value (j : Z) : Z :=
  if j <? outputs_of cfg (num_cls cfg n) then 16 else 0.

Definition prepare_events : list event :=
  [EvAfu (AfuOpen (AFU_ACCEL_UUID cfg)) (inr (rp_open rp));
   EvCout PrClockLabel;
   EvAfu AfuMeasureClock (inr (rp_clock rp));
   EvCout (PrClock (rp_clock rp));
   EvAfu (AfuMalloc Input n) (inr (rp_input rp));
   EvAfu (AfuMalloc Output (n / 16)) (inr (rp_output rp))]
  ++ map (fun i => EvStore Input i 1) (indices n)
  ++ map (fun i => EvStore Output i 0) (indices (n / 16)).

Definition start_events : list event :=
  [EvAfu (AfuWrite MMIO_RD_ADDR (rp_input rp)) (inr (rp_rd rp));
   EvAfu (AfuWrite MMIO_WR_ADDR (rp_output rp)) (inr (rp_wr rp));
   EvAfu (AfuWrite MMIO_SIZE (num_cls cfg n)) (inr (rp_size rp));
   EvAfu (AfuWrite MMIO_GO 1) (inr (rp_go rp))].

Definition wait_events : list event :=
  zero_polls cfg (rp_polls rp) ++ [EvAfu (AfuRead MMIO_DONE) (inr (rp_done rp))].

Definition finish_events : list event :=
  [EvAfu (AfuFree Input) (inr (rp_free_in rp));
   EvAfu (AfuFree Output) (inr (rp_free_out rp));
   EvCout (PrText success_msg)].

End SuccessfulRun.

(** *** Well-behaved environments *)

(** No call into the wrapper throws. *)
Definition never_throws (dev : driver) : Prop :=
  forall t c, exists v, respond dev t c = inr v.

(** From any point on, at most [K] reads of [MMIO_DONE] return 0 before
    one returns a nonzero value. *)
Definition done_within (cfg : config) (dev : driver) (K : nat) : Prop :=
  forall t, exists k v,
    (k <= K)%nat /\ v <> 0 /\
    respond dev (t ++ zero_polls cfg k) (AfuRead MMIO_DONE) = inr v /\
    forall j, (j < k)%nat ->
              respond dev (t ++ zero_polls cfg j) (AfuRead MMIO_DONE) = inr 0.

(** *** The life cycle of the arrays, as an automaton

    Each array is unallocated, then live at the address [afu.malloc]
    returned, then freed.  An array is stored to, read and handed to the
    accelerator only while it is live; the address registers take the
    addresses of the live arrays; an array is freed once.  After a call has
    thrown nothing but the handler's message follows, and after the usage
    message, the success message or a handler's message nothing follows at
    all. *)

Inductive slot : Type := Unallocated | Live (addr : Z) | Freed.

Inductive ending : Type := Usage | Success | Failure.

Record life : Type := {
  l_input : slot;
  l_output : slot;
  l_thrown : bool;
  l_over : option ending
}.

Definition life_init : life :=
  {| l_input := Unallocated; l_output := Unallocated;
     l_thrown := false; l_over := None |}.

Definition slot_of (q : life) (b : buffer) : slot :=
  match b with
  | Input => l_input q
  | Output => l_output q
  end.

Definition set_slot (q : life) (b : buffer) (x : slot) : life :=
  match b with
  | Input => {| l_input := x; l_output := l_output q;
                l_thrown := l_thrown q; l_over := l_over q |}
  | Output => {| l_input := l_input q; l_output := x;
                 l_thrown := l_thrown q; l_over := l_over q |}
  end.

Definition set_thrown (q : life) : life :=
  {| l_input := l_input q; l_output := l_output q;
     l_thrown := true; l_over := l_over q |}.

Definition set_over (q : life) (x : ending) : life :=
  {| l_input := l_input q; l_output := l_output q;
     l_thrown := l_thrown q; l_over := Some x |}.

Definition is_live (x : slot) : bool :=
  match x with
  | Live _ => true
  | _ => false
  end.

Definition live_at (x : slot) (d : Z) : bool :=
  match x with
  | Live a => a =? d
  | _ => false
  end.

Definition both_live (q : life) : bool :=
  is_live (l_input q) && is_live (l_output q).

Definition both_unallocated (q : life) : bool :=
  match l_input q, l_output q with
  | Unallocated, Unallocated => true
  | _, _ => false
  end.

Definition both_freed (q : life) : bool :=
  match l_input q, l_output q with
  | Freed, Freed => true
  | _, _ => false
  end.

(** The arrays after a call that was allowed, whether it returned or
    threw. *)
Definition after_call (q : life) (c : call) (r : exn + Z) : option life :=
  match c with
  | AfuOpen _ | AfuMeasureClock =>
      if both_unallocated q then Some q else None
  | AfuMalloc b _ =>
      match slot_of q b with
      | Unallocated =>
          Some (match r with
                | inr a => set_slot q b (Live a)
                | inl _ => q
                end)
      | _ => None
      end
  | AfuWrite MMIO_RD_ADDR d =>
      if live_at (l_input q) d && is_live (l_output q) then Some q else None
  | AfuWrite MMIO_WR_ADDR d =>
      if is_live (l_input q) && live_at (l_output q) d then Some q else None
  | AfuWrite _ _ | AfuRead _ =>
      if both_live q then Some q else None
  | AfuFree b =>
      match slot_of q b with
      | Live _ =>
          Some (match r with
                | inr _ => set_slot q b Freed
                | inl _ => q
                end)
      | _ => None
      end
  end.

Definition life_step (q : life) (e : event) : option life :=
  match l_over q with
  | Some _ => None
  | None =>
      match e with
      | EvCerr _ => Some (set_over q Failure)
      | _ =>
          if l_thrown q then None else
          match e with
          | EvAfu c r =>
              match after_call q c r with
              | Some q' => Some (match r with
                                 | inr _ => q'
                                 | inl _ => set_thrown q'
                                 end)
              | None => None
              end
          | EvStore b _ _ | EvLoad b _ _ =>
              if is_live (slot_of q b) then Some q else None
          | EvSleep _ => if both_live q then Some q else None
          | EvCout PrClockLabel | EvCout (PrClock _) =>
              if both_unallocated q then Some q else None
          | EvCout (PrValue _) => if is_live (l_output q) then Some q else None
          | EvCout (PrText _) =>
              if both_unallocated q then Some (set_over q Usage)
              else if both_freed q then Some (set_over q Success)
              else None
          | EvCerr _ => None
          end
      end
  end.

Fixpoint life_run (q : life) (t : list event) : option life :=
  match t with
  | [] => Some q
  | e :: t' =>
      match life_step q e with
      | Some q' => life_run q' t'
      | None => None
      end
  end.

(** An event that needs array [b]: an access to it, its allocation or
    release, or an access to a register of the accelerator working on
    it. *)
Definition needs (b : buffer) (e : event) : Prop :=
  match e with
  | EvStore b' _ _ | EvLoad b' _ _ => b' = b
  | EvAfu (AfuMalloc b' _) _ | EvAfu (AfuFree b') _ => b' = b
  | EvAfu (AfuWrite _ _) _ | EvAfu (AfuRead _) _ => True
  | _ => False
  end.

(** [keeps q0 m Q]: from any state whose history has brought the life-cycle
    automaton to [q0], the action [m] only adds events the automaton
    accepts; when [m] completes, its result and the automaton's state
    satisfy [Q]; otherwise the run is not over and the output array has not
    been freed. *)
Definition keeps {A : Type} (q0 : life) (m : M A) (Q : A -> life -> Prop) : Prop :=
  forall s, exists evs q,
    trace (fst (m s)) = trace s ++ evs /\
    life_run q0 evs = Some q /\
    match snd (m s) with
    | Done a => Q a q
    | _ => l_over q = None /\ l_output q <> Freed
    end.

(** * Properties *)

(** ** Argument parsing *)

Lemma clamp_long_range (v : Z) : LONG_MIN <= clamp_long v <= LONG_MAX.
Proof.
  unfold clamp_long, LONG_MIN, LONG_MAX.
  destruct (Z.gtb_spec v (2 ^ 63 - 1)); [lia|].
  destruct (Z.ltb_spec v (- 2 ^ 63)); lia.
Qed.

Lemma clamp_long_id (v : Z) : LONG_MIN <= v <= LONG_MAX -> clamp_long v = v.
Proof.
  unfold clamp_long, LONG_MIN, LONG_MAX. intros H.
  destruct (Z.gtb_spec v (2 ^ 63 - 1)); [lia|].
  destruct (Z.ltb_spec v (- 2 ^ 63)); lia.
Qed.

Lemma strtol_range (str : string) : LONG_MIN <= fst (strtol str) <= LONG_MAX.
Proof.
  unfold strtol.
  destruct (match skip_space str with
            | String "-"%char r => (true, r)
            | String "+"%char r => (false, r)
            | _ => (false, skip_space str)
            end) as [neg s2].
  destruct (starts_with_digit s2).
  - destruct (scan_digits 0 s2) as [v p]. apply clamp_long_range.
  - simpl. unfold LONG_MIN, LONG_MAX. lia.
Qed.

Lemma to_ulong_positive (v : Z) : 0 < v <= LONG_MAX -> to_ulong v = v.
Proof.
  unfold to_ulong, ULONG_MOD, LONG_MAX. intros H. apply Z.mod_small. lia.
Qed.

(** What [stringToPositiveInt] computes, in terms of the parse. *)
Lemma stringToPositiveInt_unfold (str : string) :
  stringToPositiveInt str =
  if at_nul (snd (strtol str)) && (fst (strtol str) >? 0)
  then inr (fst (strtol str))
  else inl (Exn_runtime_error not_positive_msg).
Proof.
  unfold stringToPositiveInt.
  pose proof (strtol_range str) as Hr.
  destruct (strtol str) as [num p]. simpl in *.
  destruct (at_nul p); simpl; [|reflexivity].
  destruct (Z.gtb_spec num 0); [|reflexivity].
  rewrite to_ulong_positive by lia. reflexivity.
Qed.

Lemma skip_space_app (ws str : string) :
  all_chars isspace ws = true -> skip_space (ws ++ str) = skip_space str.
Proof.
  induction ws as [|c ws IH]; simpl; intros H; [reflexivity|].
  apply andb_true_iff in H. destruct H as [Hc Hws].
  rewrite Hc. auto.
Qed.

Lemma scan_digits_all (ds : string) :
  all_chars isdigit ds = true ->
  forall acc,
    scan_digits acc ds =
    (acc * 10 ^ Z.of_nat (String.length ds) + decimal_value ds, EmptyString).
Proof.
  induction ds as [|c ds IH]; intros H acc.
  - simpl. f_equal. lia.
  - simpl in H. apply andb_true_iff in H. destruct H as [Hc Hds].
    cbn [scan_digits]. rewrite Hc, (IH Hds).
    f_equal. cbn [String.length decimal_value].
    rewrite Nat2Z.inj_succ, Z.pow_succ_r by lia. ring.
Qed.

(** A digit is neither white space nor a sign. *)
Lemma digit_first (c : ascii) (r : string) :
  isdigit c = true ->
  skip_space (String c r) = String c r /\
  match String c r with
  | String "-"%char r' => (true, r')
  | String "+"%char r' => (false, r')
  | _ => (false, String c r)
  end = (false, String c r).
Proof.
  destruct c as [[] [] [] [] [] [] [] []]; intros H;
    try discriminate H; split; reflexivity.
Qed.

Lemma strtol_digits (ds : string) :
  all_chars isdigit ds = true -> ds <> EmptyString ->
  strtol ds = (clamp_long (decimal_value ds), EmptyString).
Proof.
  intros Hall Hne. destruct ds as [|c r]; [congruence|].
  pose proof Hall as Hall'. simpl in Hall'.
  apply andb_true_iff in Hall'. destruct Hall' as [Hc _].
  destruct (digit_first c r Hc) as [Hsk Hsg].
  unfold strtol. rewrite Hsk, Hsg.
  change (starts_with_digit (String c r)) with (isdigit c). rewrite Hc.
  rewrite (scan_digits_all _ Hall). f_equal.
Qed.

Lemma strtol_plus_digits (ds : string) :
  all_chars isdigit ds = true -> ds <> EmptyString ->
  strtol (String "+" ds) = strtol ds.
Proof.
  intros Hall Hne. rewrite (strtol_digits ds Hall Hne).
  destruct ds as [|c r]; [congruence|].
  pose proof Hall as Hall'. simpl in Hall'.
  apply andb_true_iff in Hall'. destruct Hall' as [Hc _].
  unfold strtol.
  change (skip_space (String "+" (String c r))) with (String "+" (String c r)).
  cbv iota beta.
  change (starts_with_digit (String c r)) with (isdigit c). rewrite Hc.
  rewrite (scan_digits_all _ Hall). f_equal.
Qed.

(** C8. [stringToPositiveInt str] throws the [runtime_error] exactly when
    [strtol] leaves part of [str] unread or yields a number that is not
    above zero, and otherwise returns that number.  Hence leading white
    space and a leading plus sign are accepted, a digit string whose value
    exceeds [LONG_MAX] is accepted as [LONG_MAX], and 0 is never
    returned. *)
Theorem stringToPositiveInt_spec :
  (forall str,
      (stringToPositiveInt str = inl (Exn_runtime_error not_positive_msg) <->
       at_nul (snd (strtol str)) = false \/ fst (strtol str) <= 0) /\
      (at_nul (snd (strtol str)) = true -> 0 < fst (strtol str) ->
       stringToPositiveInt str = inr (fst (strtol str)))) /\
  (forall ws str,
      all_chars isspace ws = true ->
      stringToPositiveInt (ws ++ str) = stringToPositiveInt str) /\
  (forall ds,
      all_chars isdigit ds = true -> 0 < decimal_value ds ->
      stringToPositiveInt (String "+" ds) = inr (Z.min (decimal_value ds) LONG_MAX)) /\
  (forall ds,
      all_chars isdigit ds = true -> LONG_MAX < decimal_value ds ->
      stringToPositiveInt ds = inr LONG_MAX) /\
  (forall str, stringToPositiveInt str <> inr 0).
Proof.
  assert (Hpos : forall ds, all_chars isdigit ds = true -> 0 < decimal_value ds ->
                            strtol ds = (Z.min (decimal_value ds) LONG_MAX, EmptyString) /\
                            ds <> EmptyString).
  { intros ds Hall Hv.
    assert (Hne : ds <> EmptyString) by (intros ->; simpl in Hv; lia).
    split; [|exact Hne].
    rewrite (strtol_digits ds Hall Hne). f_equal.
    unfold clamp_long, LONG_MIN, LONG_MAX in *.
    destruct (Z.gtb_spec (decimal_value ds) (2 ^ 63 - 1)); [lia|].
    destruct (Z.ltb_spec (decimal_value ds) (- 2 ^ 63)); lia. }
  split; [|split; [|split; [|split]]].
  - intros str. rewrite stringToPositiveInt_unfold.
    destruct (at_nul (snd (strtol str))); simpl;
      destruct (Z.gtb_spec (fst (strtol str)) 0); (split; [split|]).
    + intros H'. discriminate H'.
    + intros [H'|H']; [discriminate H' | lia].
    + reflexivity.
    + intros _. right. assumption.
    + reflexivity.
    + intros _ H'. lia.
    + intros _. left. reflexivity.
    + reflexivity.
    + intros H'. discriminate H'.
    + intros _. left. reflexivity.
    + reflexivity.
    + intros H'. discriminate H'.
  - intros ws str Hws. rewrite !stringToPositiveInt_unfold.
    unfold strtol. rewrite (skip_space_app ws str Hws).
    destruct (match skip_space str with
              | String "-"%char r => (true, r)
              | String "+"%char r => (false, r)
              | _ => (false, skip_space str)
              end) as [neg s2].
    destruct (starts_with_digit s2).
    + destruct (scan_digits 0 s2) as [v p]. reflexivity.
    + simpl. rewrite !andb_false_r. reflexivity.
  - intros ds Hall Hv. destruct (Hpos ds Hall Hv) as [Hs Hne].
    rewrite stringToPositiveInt_unfold, (strtol_plus_digits ds Hall Hne), Hs.
    simpl. destruct (Z.gtb_spec (Z.min (decimal_value ds) LONG_MAX) 0);
      [reflexivity | unfold LONG_MAX in *; lia].
  - intros ds Hall Hv.
    assert (Hv' : 0 < decimal_value ds) by (unfold LONG_MAX in Hv; lia).
    destruct (Hpos ds Hall Hv') as [Hs _].
    rewrite stringToPositiveInt_unfold, Hs. simpl.
    rewrite Z.min_r by lia. reflexivity.
  - intros str. rewrite stringToPositiveInt_unfold.
    destruct (at_nul (snd (strtol str))); simpl; [|discriminate].
    destruct (Z.gtb_spec (fst (strtol str)) 0); [|discriminate].
    intros H'. inversion H'. lia.
Qed.

Lemma stringToPositiveInt_spec_witness :
  stringToPositiveInt "7x" = inl (Exn_runtime_error not_positive_msg) /\
  stringToPositiveInt "128" = inr 128 /\
  stringToPositiveInt (" " ++ "128") = stringToPositiveInt "128" /\
  stringToPositiveInt "+128" = inr 128 /\
  stringToPositiveInt "9223372036854775808" = inr LONG_MAX.
Proof.
  split; [|split; [|split; [|split]]].
  - apply (proj1 stringToPositiveInt_spec "7x"%string). left. reflexivity.
  - apply (proj1 stringToPositiveInt_spec "128"%string); reflexivity.
  - apply (proj1 (proj2 stringToPositiveInt_spec) " "%string "128"%string).
    reflexivity.
  - apply (proj1 (proj2 (proj2 stringToPositiveInt_spec)) "128"%string);
      reflexivity.
  - apply (proj1 (proj2 (proj2 (proj2 stringToPositiveInt_spec)))
             "9223372036854775808"%string); reflexivity.
Defined.

(** ** Sequencing and the primitive actions *)

Lemma bind_Done_inv {A B : Type} (m : M A) (f : A -> M B) (s s' : state) (b : B) :
  bind m f s = (s', Done b) ->
  exists s1 a, m s = (s1, Done a) /\ f a s1 = (s', Done b).
Proof.
  unfold bind. destruct (m s) as [s1 [a|e|]]; intros H; try discriminate H.
  exists s1, a. split; [reflexivity | exact H].
Qed.

Lemma afu_call_eq (dev : driver) (c : call) (s : state) :
  afu_call dev c s =
  (st_call dev s c (respond dev (trace s) c),
   match respond dev (trace s) c with
   | inr v => Done v
   | inl e => Raise e
   end).
Proof.
  unfold afu_call, st_call. destruct (respond dev (trace s) c); reflexivity.
Qed.

Lemma afu_call_Done_inv (dev : driver) (c : call) (s s' : state) (v : Z) :
  afu_call dev c s = (s', Done v) ->
  respond dev (trace s) c = inr v /\ s' = st_call dev s c (inr v).
Proof.
  rewrite afu_call_eq. destruct (respond dev (trace s) c) as [e|w];
    intros H; inversion H; subst; auto.
Qed.

Lemma st_emit_nil (s : state) : st_emit s [] = s.
Proof. destruct s as [t m]. unfold st_emit. simpl. rewrite app_nil_r. reflexivity. Qed.

Lemma st_stores_nil (s : state) (b : buffer) (v : Z) : st_stores s b [] v = s.
Proof. destruct s as [t m]. unfold st_stores. simpl. rewrite app_nil_r. reflexivity. Qed.

Lemma st_stores_cons (s : state) (b : buffer) (i v : Z) (idx : list Z) :
  st_stores {| trace := trace s ++ [EvStore b i v]; mem := mem_store (mem s) b i v |}
            b idx v
  = st_stores s b (i :: idx) v.
Proof. unfold st_stores. simpl. rewrite <- app_assoc. reflexivity. Qed.

(** ** The counting loops *)

Lemma to_unsigned_small (z : Z) : 0 <= z < UINT_MOD -> to_unsigned z = z.
Proof. intros H. unfold to_unsigned. apply Z.mod_small. exact H. Qed.

Lemma to_unsigned_range (z : Z) : 0 <= to_unsigned z < UINT_MOD.
Proof. unfold to_unsigned, UINT_MOD. apply Z.mod_pos_bound. lia. Qed.

Lemma zrange_length (i : Z) (len : nat) : List.length (zrange i len) = len.
Proof. revert i. induction len; intros i; simpl; auto. Qed.

Lemma zrange_In (len : nat) (i k : Z) :
  In k (zrange i len) <-> i <= k < i + Z.of_nat len.
Proof.
  revert i. induction len as [|len IH]; intros i.
  - simpl. lia.
  - cbn [zrange In]. rewrite IH. lia.
Qed.

(** With a bound below [UINT_MOD] the loop ends once it has been given more
    iterations than there are elements left, after one store per element;
    with fewer it is still running. *)
Lemma init_loop_cases (fuel : nat) (b : buffer) (bound v : Z) :
  bound < UINT_MOD ->
  forall (i : Z) (s : state),
    0 <= i <= bound ->
    init_loop fuel b bound v i s =
    if (Z.to_nat (bound - i) <? fuel)%nat
    then (st_stores s b (zrange i (Z.to_nat (bound - i))) v, Done tt)
    else (st_stores s b (zrange i fuel) v, OutOfFuel).
Proof.
  intros Hb. induction fuel as [|fuel IH]; intros i s Hi.
  - simpl. rewrite st_stores_nil. reflexivity.
  - cbn [init_loop]. destruct (Z.ltb_spec i bound) as [Hlt|Hge].
    + unfold bind at 1. unfold store at 1.
      rewrite to_unsigned_small by lia.
      rewrite IH by lia. rewrite !st_stores_cons.
      replace (Z.to_nat (bound - i)) with (S (Z.to_nat (bound - (i + 1)))) by lia.
      change (S (Z.to_nat (bound - (i + 1))) <? S fuel)%nat
        with (Z.to_nat (bound - (i + 1)) <? fuel)%nat.
      destruct (Z.to_nat (bound - (i + 1)) <? fuel)%nat; reflexivity.
    + replace (bound - i) with 0 by lia. simpl.
      rewrite st_stores_nil. reflexivity.
Qed.

(** With a bound of [UINT_MOD] or more the counter never reaches it. *)
Lemma init_loop_diverges (fuel : nat) (b : buffer) (bound v : Z) :
  UINT_MOD <= bound ->
  forall (i : Z) (s : state),
    0 <= i < UINT_MOD ->
    exists idx,
      init_loop fuel b bound v i s = (st_stores s b idx v, OutOfFuel) /\
      List.length idx = fuel.
Proof.
  intros Hb. induction fuel as [|fuel IH]; intros i s Hi.
  - exists []. simpl. rewrite st_stores_nil. auto.
  - cbn [init_loop]. destruct (Z.ltb_spec i bound) as [Hlt|Hge]; [|lia].
    unfold bind at 1. unfold store at 1.
    destruct (IH (to_unsigned (i + 1))
                 {| trace := trace s ++ [EvStore b i v];
                    mem := mem_store (mem s) b i v |}
                 (to_unsigned_range _)) as [idx [Heq Hlen]].
    exists (i :: idx). rewrite Heq, st_stores_cons. simpl. auto.
Qed.

Lemma print_loop_cases (fuel : nat) (bound : Z) :
  bound < UINT_MOD ->
  forall (i : Z) (s : state),
    0 <= i <= bound ->
    print_loop fuel bound i s =
    if (Z.to_nat (bound - i) <? fuel)%nat
    then (st_emit s (print_events (mem s) (zrange i (Z.to_nat (bound - i)))), Done tt)
    else (st_emit s (print_events (mem s) (zrange i fuel)), OutOfFuel).
Proof.
  intros Hb. induction fuel as [|fuel IH]; intros i s Hi.
  - simpl. rewrite st_emit_nil. reflexivity.
  - cbn [print_loop]. destruct (Z.ltb_spec i bound) as [Hlt|Hge].
    + unfold bind at 1. unfold load at 1. unfold bind at 1. unfold cout, emit at 1.
      cbn [trace mem].
      rewrite to_unsigned_small by lia.
      rewrite IH by lia.
      replace (Z.to_nat (bound - i)) with (S (Z.to_nat (bound - (i + 1)))) by lia.
      change (S (Z.to_nat (bound - (i + 1))) <? S fuel)%nat
        with (Z.to_nat (bound - (i + 1)) <? fuel)%nat.
      unfold st_emit. cbn [trace mem zrange print_events flat_map].
      rewrite <- !app_assoc. simpl.
      destruct (Z.to_nat (bound - (i + 1)) <? fuel)%nat; reflexivity.
    + replace (bound - i) with 0 by lia. simpl.
      rewrite st_emit_nil. reflexivity.
Qed.

(** ** The completion wait *)

Section Wait.

Variable cfg : config.
Variable dev : driver.

Lemma trace_polled (k : nat) (s : state) :
  trace (polled cfg dev k s) = trace s ++ zero_polls cfg k.
Proof.
  revert s. induction k as [|k IH]; intros s; simpl.
  - rewrite app_nil_r. reflexivity.
  - rewrite IH. unfold st_emit, st_call, zero_poll. simpl.
    rewrite <- !app_assoc. reflexivity.
Qed.

Lemma wait_done_unfold (fuel : nat) (s : state) :
  wait_done cfg dev (S fuel) s =
  match respond dev (trace s) (AfuRead MMIO_DONE) with
  | inl e => (st_call dev s (AfuRead MMIO_DONE) (inl e), Raise e)
  | inr d =>
      if d =? 0 then wait_done cfg dev fuel (polled cfg dev 1 s)
      else (st_call dev s (AfuRead MMIO_DONE) (inr d), Done tt)
  end.
Proof.
  cbn [wait_done]. unfold bind at 1. rewrite afu_call_eq.
  destruct (respond dev (trace s) (AfuRead MMIO_DONE)) as [e|d]; [reflexivity|].
  destruct (Z.eqb_spec d 0) as [->|Hd]; [|reflexivity].
  unfold bind. cbn [polled].
  destruct (SLEEP_WHILE_WAITING cfg).
  - reflexivity.
  - unfold ret. rewrite st_emit_nil. reflexivity.
Qed.

(** The three ways a wait of [fuel] polls can go, told by the replies to
    the successive reads of [MMIO_DONE]. *)
Lemma wait_done_cases (fuel : nat) (s : state) :
  (exists k v,
      (k < fuel)%nat /\ v <> 0 /\
      (forall j, (j < k)%nat ->
                 respond dev (trace s ++ zero_polls cfg j) (AfuRead MMIO_DONE) = inr 0) /\
      respond dev (trace s ++ zero_polls cfg k) (AfuRead MMIO_DONE) = inr v /\
      wait_done cfg dev fuel s =
      (st_call dev (polled cfg dev k s) (AfuRead MMIO_DONE) (inr v), Done tt)) \/
  (exists k e,
      (k < fuel)%nat /\
      (forall j, (j < k)%nat ->
                 respond dev (trace s ++ zero_polls cfg j) (AfuRead MMIO_DONE) = inr 0) /\
      respond dev (trace s ++ zero_polls cfg k) (AfuRead MMIO_DONE) = inl e /\
      wait_done cfg dev fuel s =
      (st_call dev (polled cfg dev k s) (AfuRead MMIO_DONE) (inl e), Raise e)) \/
  ((forall j, (j < fuel)%nat ->
              respond dev (trace s ++ zero_polls cfg j) (AfuRead MMIO_DONE) = inr 0) /\
   wait_done cfg dev fuel s = (polled cfg dev fuel s, OutOfFuel)).
Proof.
  revert s. induction fuel as [|fuel IH]; intros s.
  - right. right. split; [intros j Hj; lia | reflexivity].
  - rewrite wait_done_unfold.
    assert (Hshift : forall j, trace (polled cfg dev 1 s) ++ zero_polls cfg j
                               = trace s ++ zero_polls cfg (S j)).
    { intros j. rewrite trace_polled. rewrite <- app_assoc.
      cbn [zero_polls]. rewrite app_nil_r. reflexivity. }
    assert (Hzero : trace s ++ zero_polls cfg 0 = trace s)
      by (simpl; apply app_nil_r).
    destruct (respond dev (trace s) (AfuRead MMIO_DONE)) as [e|d] eqn:Hr.
    + right. left. exists 0%nat, e. rewrite Hzero.
      repeat split; [lia | intros j Hj; lia | exact Hr].
    + destruct (Z.eqb_spec d 0) as [->|Hd].
      * assert (Hcons : forall k,
                   (forall j, (j < k)%nat ->
                      respond dev (trace (polled cfg dev 1 s) ++ zero_polls cfg j)
                              (AfuRead MMIO_DONE) = inr 0) ->
                   forall j, (j < S k)%nat ->
                      respond dev (trace s ++ zero_polls cfg j)
                              (AfuRead MMIO_DONE) = inr 0).
        { intros k Hk j Hj. destruct j as [|j].
          - rewrite Hzero. exact Hr.
          - rewrite <- Hshift. apply Hk. lia. }
        destruct (IH (polled cfg dev 1 s))
          as [(k & v & Hk & Hv & Hz & Hn & Heq)
             |[(k & e & Hk & Hz & Hn & Heq)
              |(Hz & Heq)]].
        -- left. exists (S k), v. rewrite <- Hshift.
           repeat split; [lia | exact Hv | | exact Hn | exact Heq].
           intros j Hj. apply (Hcons k Hz j Hj).
        -- right. left. exists (S k), e. rewrite <- Hshift.
           repeat split; [lia | | exact Hn | exact Heq].
           intros j Hj. apply (Hcons k Hz j Hj).
        -- right. right. split; [|exact Heq].
           intros j Hj. apply (Hcons fuel Hz j Hj).
      * left. exists 0%nat, d. rewrite Hzero.
        repeat split; [lia | exact Hd | intros j Hj; lia | exact Hr].
Qed.

End Wait.

(** ** Memory after a run of stores *)

Lemma stores_mem_other (b : buffer) (v : Z) (idx : list Z) (m : memory)
      (b' : buffer) (k : Z) :
  (b' <> b \/ ~ In k idx) ->
  fold_left (fun m k => mem_store m b k v) idx m b' k = m b' k.
Proof.
  revert m. induction idx as [|i idx IH]; intros m H; simpl; [reflexivity|].
  rewrite IH.
  - unfold mem_store. destruct b, b'; simpl; try reflexivity;
      (destruct (Z.eqb_spec i k); [|reflexivity]);
      subst; destruct H as [H|H]; try congruence; exfalso; apply H; left; reflexivity.
  - destruct H as [H|H]; [left; exact H | right; intros Hin; apply H; right; exact Hin].
Qed.

Lemma stores_mem_in (b : buffer) (v : Z) (idx : list Z) (m : memory) (k : Z) :
  In k idx ->
  fold_left (fun m k => mem_store m b k v) idx m b k = v.
Proof.
  revert m. induction idx as [|i idx IH]; intros m H; simpl; [contradiction|].
  destruct (in_dec Z.eq_dec k idx) as [Hin|Hnin].
  - apply IH. exact Hin.
  - destruct H as [->|H]; [|contradiction].
    rewrite stores_mem_other by (right; exact Hnin).
    unfold mem_store. rewrite Z.eqb_refl. destruct b; reflexivity.
Qed.

Lemma indices_In (n k : Z) : In k (indices n) <-> 0 <= k < n.
Proof. unfold indices. rewrite zrange_In. lia. Qed.

(** C9. The initialisation loops count with a 32-bit [unsigned] against a
    64-bit bound.  For a bound below 2^32 the loop ends after exactly
    [bound] iterations (it is still running after any smaller number and
    has ended after any larger one), having stored the value in every
    element and nothing else; for a bound of 2^32 or more it never ends.
    The input loop is the instance [b = Input], [v = 1], the output loop
    [b = Output], [v = 0]. *)
Theorem init_loop_counter_width (b : buffer) (bound v : Z) (s : state) :
  (0 <= bound < 2 ^ 32 ->
   (forall fuel, (Z.to_nat bound < fuel)%nat ->
      init_loop fuel b bound v 0 s = (st_stores s b (indices bound) v, Done tt)) /\
   (forall fuel, (fuel <= Z.to_nat bound)%nat ->
      snd (init_loop fuel b bound v 0 s) = OutOfFuel) /\
   trace (st_stores s b (indices bound) v)
     = trace s ++ map (fun i => EvStore b i v) (indices bound) /\
   List.length (indices bound) = Z.to_nat bound /\
   (forall i, 0 <= i < bound -> mem (st_stores s b (indices bound) v) b i = v)) /\
  (2 ^ 32 <= bound ->
   forall fuel, snd (init_loop fuel b bound v 0 s) = OutOfFuel).
Proof.
  split.
  - intros Hb.
    assert (Hc := fun fuel => init_loop_cases fuel b bound v (proj2 Hb) 0 s
                                (conj (Z.le_refl 0) (proj1 Hb))).
    rewrite Z.sub_0_r in Hc.
    repeat split.
    + intros fuel Hf. rewrite Hc.
      destruct (Nat.ltb_spec (Z.to_nat bound) fuel); [reflexivity | lia].
    + intros fuel Hf. rewrite Hc.
      destruct (Nat.ltb_spec (Z.to_nat bound) fuel); [lia | reflexivity].
    + apply zrange_length.
    + intros i Hi. unfold st_stores. cbn [mem].
      apply stores_mem_in. apply indices_In. exact Hi.
  - intros Hb fuel.
    destruct (init_loop_diverges fuel b bound v Hb 0 s) as [idx [Heq _]].
    + unfold UINT_MOD. lia.
    + rewrite Heq. reflexivity.
Qed.

Lemma init_loop_counter_width_witness :
  init_loop 4 Input 3 1 0 initial = (st_stores initial Input (indices 3) 1, Done tt) /\
  snd (init_loop 1000 Input (2 ^ 32) 1 0 initial) = OutOfFuel.
Proof.
  split.
  - apply (proj1 (init_loop_counter_width Input 3 1 initial)); [lia | simpl; lia].
  - apply (proj2 (init_loop_counter_width Input (2 ^ 32) 1 initial)). lia.
Defined.

(** C6. The completion wait is a busy poll.  It completes exactly when some
    read of [MMIO_DONE] made by the loop returns a nonzero value; its
    actions are then the unsuccessful polls, each followed by the sleep
    when that is configured, and the successful read.  There is no timeout:
    as long as the reads return 0 the loop polls again, for any number of
    polls.  The only other way out of the loop is an exception thrown by
    [afu.read] itself. *)
Theorem wait_done_busy_poll (cfg : config) (dev : driver) (s : state) :
  ((exists fuel s', wait_done cfg dev fuel s = (s', Done tt)) <->
   (exists k v,
       v <> 0 /\
       respond dev (trace s ++ zero_polls cfg k) (AfuRead MMIO_DONE) = inr v /\
       forall j, (j < k)%nat ->
                 respond dev (trace s ++ zero_polls cfg j) (AfuRead MMIO_DONE) = inr 0)) /\
  (forall fuel s',
      wait_done cfg dev fuel s = (s', Done tt) ->
      exists k v,
        v <> 0 /\
        trace s' = trace s ++ zero_polls cfg k ++ [EvAfu (AfuRead MMIO_DONE) (inr v)]) /\
  (forall fuel,
      (forall j, (j < fuel)%nat ->
                 respond dev (trace s ++ zero_polls cfg j) (AfuRead MMIO_DONE) = inr 0) ->
      snd (wait_done cfg dev fuel s) = OutOfFuel /\
      trace (fst (wait_done cfg dev fuel s)) = trace s ++ zero_polls cfg fuel) /\
  (forall fuel s' e,
      wait_done cfg dev fuel s = (s', Raise e) ->
      exists k,
        respond dev (trace s ++ zero_polls cfg k) (AfuRead MMIO_DONE) = inl e /\
        trace s' = trace s ++ zero_polls cfg k ++ [EvAfu (AfuRead MMIO_DONE) (inl e)]).
Proof.
  assert (Htr : forall k r,
             trace (st_call dev (polled cfg dev k s) (AfuRead MMIO_DONE) r)
             = trace s ++ zero_polls cfg k ++ [EvAfu (AfuRead MMIO_DONE) r]).
  { intros k r. unfold st_call. cbn [trace]. rewrite trace_polled.
    rewrite <- app_assoc. reflexivity. }
  split; [split|split; [|split]].
  - intros (fuel & s' & H).
    destruct (wait_done_cases cfg dev fuel s)
      as [(k & v & Hk & Hv & Hz & Hn & Heq)
         |[(k & e & Hk & Hz & Hn & Heq)|(Hz & Heq)]];
      rewrite Heq in H; try discriminate H.
    exists k, v. auto.
  - intros (k & v & Hv & Hn & Hz). exists (S k).
    destruct (wait_done_cases cfg dev (S k) s)
      as [(k' & v' & Hk' & Hv' & Hz' & Hn' & Heq)
         |[(k' & e & Hk' & Hz' & Hn' & Heq)|(Hz' & Heq)]].
    + eexists. exact Heq.
    + exfalso. destruct (Nat.eq_dec k' k) as [->|Hne].
      * rewrite Hn in Hn'. discriminate Hn'.
      * rewrite Hz in Hn' by lia. discriminate Hn'.
    + exfalso. rewrite Hz' in Hn by lia. inversion Hn. congruence.
  - intros fuel s' H.
    destruct (wait_done_cases cfg dev fuel s)
      as [(k & v & Hk & Hv & Hz & Hn & Heq)
         |[(k & e & Hk & Hz & Hn & Heq)|(Hz & Heq)]];
      rewrite Heq in H; try discriminate H.
    inversion H; subst. exists k, v. split; [exact Hv | apply Htr].
  - intros fuel Hall.
    destruct (wait_done_cases cfg dev fuel s)
      as [(k & v & Hk & Hv & Hz & Hn & Heq)
         |[(k & e & Hk & Hz & Hn & Heq)|(Hz & Heq)]].
    + exfalso. rewrite Hall in Hn by exact Hk. inversion Hn. congruence.
    + exfalso. rewrite Hall in Hn by exact Hk. discriminate Hn.
    + rewrite Heq. split; [reflexivity | apply trace_polled].
  - intros fuel s' e H.
    destruct (wait_done_cases cfg dev fuel s)
      as [(k & v & Hk & Hv & Hz & Hn & Heq)
         |[(k & e' & Hk & Hz & Hn & Heq)|(Hz & Heq)]];
      rewrite Heq in H; try discriminate H.
    inversion H; subst. exists k. split; [exact Hn | apply Htr].
Qed.

Lemma wait_done_busy_poll_witness :
  exists fuel s', wait_done demo_config demo_driver fuel initial = (s', Done tt).
Proof.
  apply (proj2 (proj1 (wait_done_busy_poll demo_config demo_driver initial))).
  exists 2%nat, 1. split; [lia|]. split; [reflexivity|].
  intros j Hj. destruct j as [|[|j]]; [reflexivity | reflexivity | lia].
Defined.

(** ** Every action keeps to the protocol *)

Lemma protocol_app (p : phase) (t1 t2 : list event) :
  protocol p (t1 ++ t2) =
  match protocol p t1 with
  | Some q => protocol q t2
  | None => None
  end.
Proof.
  revert p. induction t1 as [|e t1 IH]; intros p; simpl; [reflexivity|].
  destruct (protocol_step p e); [apply IH | reflexivity].
Qed.

Lemma follows_ret {A : Type} (a : A) (p : phase) (Q : A -> phase -> Prop) :
  p <> Ended -> Q a p -> follows p (ret a) Q.
Proof.
  intros Hp HQ s. exists [], p. simpl. rewrite app_nil_r.
  repeat split; auto.
  - intros a' H. inversion H. subst. exact HQ.
  - intros e H. discriminate H.
Qed.

Lemma follows_out_of_fuel {A : Type} (p : phase) (Q : A -> phase -> Prop) :
  p <> Ended -> follows p (@out_of_fuel A) Q.
Proof.
  intros Hp s. exists [], p. simpl. rewrite app_nil_r.
  repeat split; auto; intros ? H; discriminate H.
Qed.

Lemma follows_bind {A B : Type} (p : phase) (m : M A) (f : A -> M B)
      (Q : A -> phase -> Prop) (R : B -> phase -> Prop) :
  follows p m Q ->
  (forall a q, Q a q -> follows q (f a) R) ->
  follows p (bind m f) R.
Proof.
  intros Hm Hf s.
  destruct (Hm s) as (e1 & q1 & Ht & Hp & Hh & HQ & HR).
  unfold bind. destruct (m s) as [s1 [a|e|]]; cbn [fst snd] in *.
  - destruct (Hf a q1 (HQ a eq_refl) s1) as (e2 & q2 & Ht2 & Hp2 & Hh2 & HQ2 & HR2).
    exists (e1 ++ e2), q2. rewrite Ht2, Ht, app_assoc, protocol_app, Hp.
    repeat split; auto.
    intros e He. destruct (HR2 e He) as (t & c & ->).
    exists (e1 ++ t), c. rewrite app_assoc. reflexivity.
  - exists e1, q1. repeat split; auto.
    + intros a H. discriminate H.
    + intros e0 H. inversion H; subst. apply HR. reflexivity.
  - exists e1, q1. repeat split; auto; intros ? H; discriminate H.
Qed.

Lemma follows_event {A : Type} (p q : phase) (e : event) (m : M A)
      (Q : A -> phase -> Prop) :
  (forall s, trace (fst (m s)) = trace s ++ [e]) ->
  (forall s e', snd (m s) = Raise e' -> exists c, e = EvAfu c (inl e')) ->
  protocol_step p e = Some q -> q <> Ended ->
  (forall s a, snd (m s) = Done a -> Q a q) ->
  follows p m Q.
Proof.
  intros Ht Hr Hp Hq HQ s. exists [e], q. simpl. rewrite Hp.
  repeat split; auto.
  - intros a H. apply (HQ s a H).
  - intros e' H. destruct (Hr s e' H) as [c ->]. exists [], c. reflexivity.
Qed.

Lemma follows_emit (p q : phase) (e : event) :
  protocol_step p e = Some q -> q <> Ended ->
  follows p (emit e) (fun _ q' => q' = q).
Proof.
  intros Hp Hq. apply (follows_event p q e); auto.
  intros s e' H. discriminate H.
Qed.

Lemma follows_store (b : buffer) (i v : Z) :
  follows Preparing (store b i v) (fun _ q' => q' = Preparing).
Proof.
  apply (follows_event Preparing Preparing (EvStore b i v)); auto; try discriminate.
Qed.

Lemma follows_afu_call (dev : driver) (p q : phase) (c : call) :
  (forall r, protocol_step p (EvAfu c r) = Some q) -> q <> Ended ->
  follows p (afu_call dev c) (fun _ q' => q' = q).
Proof.
  intros Hp Hq s. rewrite afu_call_eq. cbn [fst snd].
  exists [EvAfu c (respond dev (trace s) c)], q. simpl. rewrite Hp.
  repeat split; auto.
  intros e H. destruct (respond dev (trace s) c) as [e'|v]; [|discriminate H].
  inversion H; subst. exists [], c. reflexivity.
Qed.

Lemma follows_init_loop (fuel : nat) (b : buffer) (bound v : Z) :
  forall i, follows Preparing (init_loop fuel b bound v i)
                    (fun _ q => q = Preparing).
Proof.
  induction fuel as [|fuel IH]; intros i; cbn [init_loop].
  - apply follows_out_of_fuel. discriminate.
  - destruct (i <? bound).
    + eapply follows_bind; [apply follows_store|].
      intros _ q ->. apply IH.
    + apply follows_ret; [discriminate | reflexivity].
Qed.

Lemma follows_wait_done (cfg : config) (dev : driver) (fuel : nat) :
  follows Waiting (wait_done cfg dev fuel) (fun _ q => q = Waiting).
Proof.
  induction fuel as [|fuel IH]; cbn [wait_done].
  - apply follows_out_of_fuel. discriminate.
  - eapply follows_bind.
    + apply (follows_afu_call dev Waiting Waiting); [reflexivity | discriminate].
    + intros done q ->. destruct (done =? 0).
      * apply follows_bind with (Q := fun _ q => q = Waiting);
          [|intros _ q ->; apply IH].
        destruct (SLEEP_WHILE_WAITING cfg).
        -- apply follows_emit; [reflexivity | discriminate].
        -- apply follows_ret; [discriminate | reflexivity].
      * apply follows_ret; [discriminate | reflexivity].
Qed.

Lemma follows_load_output (p : phase) (i : Z) :
  p = Waiting \/ p = Reporting ->
  follows p (load Output i) (fun _ q => q = Reporting).
Proof.
  intros Hp s. exists [EvLoad Output i (mem s Output i)], Reporting.
  repeat split; try discriminate.
  destruct Hp as [-> | ->]; reflexivity.
Qed.

Lemma follows_print_loop (fuel : nat) (bound : Z) :
  forall i, follows Reporting (print_loop fuel bound i) (fun _ q => q = Reporting).
Proof.
  induction fuel as [|fuel IH]; intros i; cbn [print_loop].
  - apply follows_out_of_fuel. discriminate.
  - destruct (i <? bound).
    + eapply follows_bind; [apply follows_load_output; right; reflexivity|].
      intros v q ->.
      eapply follows_bind;
        [apply (follows_emit Reporting Reporting); [reflexivity | discriminate]|].
      intros _ q ->. apply IH.
    + apply follows_ret; [discriminate | reflexivity].
Qed.

(** After the wait the first thing the print loop does, there being an
    output element, is to read the output array. *)
Lemma follows_print_first (fuel : nat) (bound : Z) :
  0 < bound ->
  follows Waiting (print_loop fuel bound 0) (fun _ q => q = Reporting).
Proof.
  intros Hb. destruct fuel as [|fuel]; cbn [print_loop].
  - apply follows_out_of_fuel. discriminate.
  - destruct (Z.ltb_spec 0 bound); [|lia].
    eapply follows_bind; [apply follows_load_output; left; reflexivity|].
    intros v q ->.
    eapply follows_bind;
      [apply (follows_emit Reporting Reporting); [reflexivity | discriminate]|].
    intros _ q ->. apply follows_print_loop.
Qed.

(** ** The argument check *)

Lemma checkUsage_Some (argv : list string) (n : Z) :
  checkUsage argv = Some n <->
  exists name a,
    argv = [name; a] /\
    at_nul (snd (strtol a)) = true /\ 0 < fst (strtol a) /\
    fst (strtol a) mod 128 = 0 /\ n = fst (strtol a).
Proof.
  unfold checkUsage. split.
  - destruct (Z.eqb_spec (Z.of_nat (List.length argv)) 2) as [Hlen|Hlen];
      [|discriminate].
    destruct argv as [|name [|a [|x rest]]]; cbn [List.length] in Hlen; try lia.
    cbn [nth]. rewrite stringToPositiveInt_unfold.
    destruct (at_nul (snd (strtol a))) eqn:Hnul; simpl; [|discriminate].
    destruct (Z.gtb_spec (fst (strtol a)) 0); [|discriminate].
    destruct (Z.eqb_spec (fst (strtol a) mod 128) 0); simpl; [|discriminate].
    intros Hsome. inversion Hsome; subst. exists name, a. auto.
  - intros (name & a & -> & Hnul & Hpos & Hmod & ->). simpl.
    rewrite stringToPositiveInt_unfold, Hnul. simpl.
    destruct (Z.gtb_spec (fst (strtol a)) 0); [|lia].
    rewrite Hmod. reflexivity.
Qed.

(** A validated count is a multiple of 128 between 128 and [LONG_MAX]. *)
Lemma checkUsage_range (argv : list string) (n : Z) :
  checkUsage argv = Some n -> 128 <= n <= LONG_MAX /\ n mod 128 = 0.
Proof.
  intros H. apply checkUsage_Some in H.
  destruct H as (name & a & _ & _ & Hpos & Hmod & ->).
  pose proof (strtol_range a) as Hr.
  split; [split; [|lia] | exact Hmod].
  apply Z.mod_divide in Hmod; [|lia]. destruct Hmod as [k Hk]. lia.
Qed.

(** ** The whole program keeps to the protocol *)

Section Protocol.

Variable cfg : config.
Variable dev : driver.

Lemma try_block_shape (fuel : nat) (n : Z) :
  16 <= n ->
  follows Starting (try_block cfg dev fuel n)
          (fun r q => q = Reporting /\ r = EXIT_SUCCESS) /\
  (forall s, exists r t,
      trace (fst (try_block cfg dev fuel n s))
      = trace s ++ EvAfu (AfuOpen (AFU_ACCEL_UUID cfg)) r :: t).
Proof.
  intros Hn.
  assert (Hout : 0 < n / 16) by (apply Z.div_str_pos; lia).
  unfold try_block, cout.
  match goal with
  | |- context [bind (afu_call dev (AfuOpen _)) ?f] => set (rest := f)
  end.
  assert (Hrest : forall o, follows Preparing (rest o)
                                    (fun r q => q = Reporting /\ r = EXIT_SUCCESS)).
  { intros o. unfold rest.
    eapply follows_bind;
      [apply (follows_emit Preparing Preparing); [reflexivity | discriminate]|].
    intros _ q ->.
    eapply follows_bind;
      [apply (follows_afu_call dev Preparing Preparing); [reflexivity | discriminate]|].
    intros hz q ->.
    eapply follows_bind;
      [apply (follows_emit Preparing Preparing); [reflexivity | discriminate]|].
    intros _ q ->.
    eapply follows_bind;
      [apply (follows_afu_call dev Preparing Preparing); [reflexivity | discriminate]|].
    intros input q ->.
    eapply follows_bind;
      [apply (follows_afu_call dev Preparing Preparing); [reflexivity | discriminate]|].
    intros output q ->.
    eapply follows_bind; [apply follows_init_loop|]. intros _ q ->.
    eapply follows_bind; [apply follows_init_loop|]. intros _ q ->.
    eapply follows_bind;
      [apply (follows_afu_call dev Preparing Preparing); [reflexivity | discriminate]|].
    intros _ q ->.
    eapply follows_bind;
      [apply (follows_afu_call dev Preparing Preparing); [reflexivity | discriminate]|].
    intros _ q ->.
    eapply follows_bind;
      [apply (follows_afu_call dev Preparing Preparing); [reflexivity | discriminate]|].
    intros _ q ->.
    eapply follows_bind;
      [apply (follows_afu_call dev Preparing Waiting); [reflexivity | discriminate]|].
    intros _ q ->.
    eapply follows_bind; [apply follows_wait_done|]. intros _ q ->.
    eapply follows_bind; [apply follows_print_first; exact Hout|]. intros _ q ->.
    eapply follows_bind;
      [apply (follows_afu_call dev Reporting Reporting); [reflexivity | discriminate]|].
    intros _ q ->.
    eapply follows_bind;
      [apply (follows_afu_call dev Reporting Reporting); [reflexivity | discriminate]|].
    intros _ q ->.
    eapply follows_bind;
      [apply (follows_emit Reporting Reporting); [reflexivity | discriminate]|].
    intros _ q ->.
    apply follows_ret; [discriminate | split; reflexivity]. }
  split.
  - eapply follows_bind;
      [apply (follows_afu_call dev Starting Preparing); [reflexivity | discriminate]|].
    intros o q ->. apply Hrest.
  - intros s. unfold bind at 1. rewrite afu_call_eq.
    destruct (respond dev (trace s) (AfuOpen (AFU_ACCEL_UUID cfg))) as [e|o].
    + exists (inl e), []. reflexivity.
    + destruct (Hrest o (st_call dev s (AfuOpen (AFU_ACCEL_UUID cfg)) (inr o)))
        as (evs & q & Ht & _).
      exists (inr o), evs. rewrite Ht. unfold st_call. cbn [trace].
      rewrite <- app_assoc. reflexivity.
Qed.

(** What [main] does with the outcome of the [try] block. *)
Lemma try_catch_eq (body : M Z) (s : state) :
  try_catch cfg dev body s =
  match snd (body s) with
  | Raise e =>
      match handler_message cfg dev e with
      | Some msg => (st_emit (fst (body s)) [EvCerr msg], Done EXIT_FAILURE)
      | None => body s
      end
  | _ => body s
  end.
Proof.
  unfold try_catch. destruct (body s) as [s1 [a|e|]]; reflexivity.
Qed.

(** The trace of every run, whatever the arguments, the environment and the
    number of iterations allowed, is accepted by the automaton. *)
Lemma run_protocol (fuel : nat) (name : string) (args : list string) :
  exists q, protocol Starting (trace (fst (run cfg dev fuel name args))) = Some q.
Proof.
  unfold run, main. destruct (checkUsage (name :: args)) as [n|] eqn:Hu.
  - apply checkUsage_range in Hu.
    destruct (proj1 (try_block_shape fuel n ltac:(lia)) initial)
      as (evs & q & Ht & Hp & Hq & _ & _).
    rewrite try_catch_eq.
    destruct (snd (try_block cfg dev fuel n initial)) as [a|e|].
    + exists q. rewrite Ht. exact Hp.
    + destruct (handler_message cfg dev e) as [msg|].
      * exists Ended. unfold st_emit. cbn [fst trace]. rewrite Ht.
        cbn [initial trace app]. rewrite protocol_app, Hp.
        destruct q; try reflexivity. congruence.
      * exists q. rewrite Ht. exact Hp.
    + exists q. rewrite Ht. exact Hp.
  - exists Ended. reflexivity.
Qed.

End Protocol.

(** ** Successful runs *)

Lemma init_loop_Done_inv (fuel : nat) (b : buffer) (bound v : Z) (s s' : state) (u : unit) :
  0 <= bound ->
  init_loop fuel b bound v 0 s = (s', Done u) ->
  bound < UINT_MOD /\ (Z.to_nat bound < fuel)%nat /\
  s' = st_stores s b (indices bound) v.
Proof.
  intros Hb H. destruct (Z.lt_ge_cases bound UINT_MOD) as [Hlt|Hge].
  - rewrite (init_loop_cases fuel b bound v Hlt 0 s) in H by lia.
    rewrite Z.sub_0_r in H.
    destruct (Nat.ltb_spec (Z.to_nat bound) fuel); [|discriminate H].
    inversion H. auto.
  - destruct (init_loop_diverges fuel b bound v Hge 0 s) as [idx [Heq _]];
      [unfold UINT_MOD; lia|].
    rewrite Heq in H. discriminate H.
Qed.

Lemma print_loop_Done_inv (fuel : nat) (bound : Z) (s s' : state) (u : unit) :
  0 <= bound < UINT_MOD ->
  print_loop fuel bound 0 s = (s', Done u) ->
  s' = st_emit s (print_events (mem s) (indices bound)).
Proof.
  intros Hb H.
  rewrite (print_loop_cases fuel bound (proj2 Hb) 0 s) in H by lia.
  rewrite Z.sub_0_r in H.
  destruct (Nat.ltb_spec (Z.to_nat bound) fuel); [|discriminate H].
  inversion H. reflexivity.
Qed.

Lemma wait_done_Done_inv (cfg : config) (dev : driver) (fuel : nat)
      (s s' : state) (u : unit) :
  wait_done cfg dev fuel s = (s', Done u) ->
  exists k v,
    v <> 0 /\
    respond dev (trace (polled cfg dev k s)) (AfuRead MMIO_DONE) = inr v /\
    s' = st_call dev (polled cfg dev k s) (AfuRead MMIO_DONE) (inr v).
Proof.
  intros H.
  destruct (wait_done_cases cfg dev fuel s)
    as [(k & v & Hk & Hv & Hz & Hn & Heq)
       |[(k & e & Hk & Hz & Hn & Heq)|(Hz & Heq)]];
    rewrite Heq in H; try discriminate H.
  inversion H; subst. exists k, v. rewrite trace_polled. auto.
Qed.

Lemma emit_Done_inv (e : event) (s s' : state) (u : unit) :
  emit e s = (s', Done u) -> s' = st_emit s [e].
Proof. unfold emit. intros H. inversion H. reflexivity. Qed.

Section Success.

Variable cfg : config.
Variable dev : driver.

(** A [try] block that completes went through the states above, for some
    replies of the environment; in particular the count was below 2^32 and
    the last read of [MMIO_DONE] was nonzero. *)
Lemma try_block_Done_replies (fuel : nat) (n : Z) (s s' : state) (r : Z) :
  0 <= n ->
  try_block cfg dev fuel n s = (s', Done r) ->
  exists rp,
    r = EXIT_SUCCESS /\ n < UINT_MOD /\ rp_done rp <> 0 /\
    respond dev (trace (st_last_poll cfg dev s n rp)) (AfuRead MMIO_DONE)
      = inr (rp_done rp) /\
    respond dev (trace (st_input cfg dev s n rp)) (AfuMalloc Output (n / 16))
      = inr (rp_output rp) /\
    s' = st_end cfg dev s n rp.
Proof.
  intros Hn H. unfold try_block, cout in H.
  assert (Hout : 0 <= n / 16) by (apply Z.div_pos; lia).
  apply bind_Done_inv in H. destruct H as (s1 & o & H1 & H).
  apply afu_call_Done_inv in H1. destruct H1 as [_ ->].
  apply bind_Done_inv in H. destruct H as (s1' & u1 & H1' & H).
  apply emit_Done_inv in H1'. subst s1'.
  apply bind_Done_inv in H. destruct H as (s2 & hz & H2 & H).
  apply afu_call_Done_inv in H2. destruct H2 as [_ ->].
  apply bind_Done_inv in H. destruct H as (s3 & u3 & H3 & H).
  apply emit_Done_inv in H3. subst s3.
  apply bind_Done_inv in H. destruct H as (s4 & a_in & H4 & H).
  apply afu_call_Done_inv in H4. destruct H4 as [_ ->].
  apply bind_Done_inv in H. destruct H as (s5 & a_out & H5 & H).
  apply afu_call_Done_inv in H5. destruct H5 as [Hout_addr ->].
  apply bind_Done_inv in H. destruct H as (s6 & u6 & H6 & H).
  apply init_loop_Done_inv in H6; [|exact Hn]. destruct H6 as (Hlt & _ & ->).
  apply bind_Done_inv in H. destruct H as (s7 & u7 & H7 & H).
  apply init_loop_Done_inv in H7; [|exact Hout]. destruct H7 as (Hlt' & _ & ->).
  apply bind_Done_inv in H. destruct H as (s8 & r1 & H8 & H).
  apply afu_call_Done_inv in H8. destruct H8 as [_ ->].
  apply bind_Done_inv in H. destruct H as (s9 & r2 & H9 & H).
  apply afu_call_Done_inv in H9. destruct H9 as [_ ->].
  apply bind_Done_inv in H. destruct H as (s10 & r3 & H10 & H).
  apply afu_call_Done_inv in H10. destruct H10 as [_ ->].
  apply bind_Done_inv in H. destruct H as (s11 & r4 & H11 & H).
  apply afu_call_Done_inv in H11. destruct H11 as [_ ->].
  apply bind_Done_inv in H. destruct H as (s12 & u12 & H12 & H).
  apply wait_done_Done_inv in H12. destruct H12 as (k & v & Hv & Hresp & ->).
  apply bind_Done_inv in H. destruct H as (s13 & u13 & H13 & H).
  apply print_loop_Done_inv in H13; [|lia]. subst s13.
  apply bind_Done_inv in H. destruct H as (s14 & f1 & H14 & H).
  apply afu_call_Done_inv in H14. destruct H14 as [_ ->].
  apply bind_Done_inv in H. destruct H as (s15 & f2 & H15 & H).
  apply afu_call_Done_inv in H15. destruct H15 as [_ ->].
  apply bind_Done_inv in H. destruct H as (s16 & u16 & H16 & H).
  apply emit_Done_inv in H16. subst s16.
  unfold ret in H. inversion H; subst.
  exists {| rp_open := o; rp_clock := hz; rp_input := a_in; rp_output := a_out;
            rp_rd := r1; rp_wr := r2; rp_size := r3; rp_go := r4;
            rp_polls := k; rp_done := v; rp_free_in := f1; rp_free_out := f2 |}.
  repeat split; auto.
Qed.

Lemma try_block_Done_inv (fuel : nat) (n : Z) (s s' : state) (r : Z) :
  0 <= n ->
  try_block cfg dev fuel n s = (s', Done r) ->
  exists rp,
    r = EXIT_SUCCESS /\ n < UINT_MOD /\ rp_done rp <> 0 /\
    respond dev (trace (st_last_poll cfg dev s n rp)) (AfuRead MMIO_DONE)
      = inr (rp_done rp) /\
    s' = st_end cfg dev s n rp.
Proof.
  intros Hn H.
  destruct (try_block_Done_replies fuel n s s' r Hn H)
    as (rp & Hr & Hlt & Hd & Hresp & _ & Heq).
  exists rp. auto.
Qed.

Lemma trace_st_go (s : state) (n : Z) (rp : replies) :
  trace (st_go cfg dev s n rp)
  = trace s ++ prepare_events cfg n rp ++ start_events cfg n rp.
Proof.
  unfold st_go, st_armed, st_ready, st_stores, st_call, st_emit, prepare_events,
    start_events.
  cbn [trace]. rewrite <- !app_assoc. reflexivity.
Qed.

Lemma trace_st_done (s : state) (n : Z) (rp : replies) :
  trace (st_done cfg dev s n rp)
  = trace s ++ prepare_events cfg n rp ++ start_events cfg n rp
            ++ wait_events cfg rp.
Proof.
  unfold st_done, st_last_poll, st_call, wait_events. cbn [trace].
  rewrite trace_polled, trace_st_go. rewrite <- !app_assoc. reflexivity.
Qed.

Lemma trace_st_end (s : state) (n : Z) (rp : replies) :
  trace (st_end cfg dev s n rp)
  = trace s ++ prepare_events cfg n rp ++ start_events cfg n rp
            ++ wait_events cfg rp
            ++ print_events (mem (st_done cfg dev s n rp)) (indices (n / 16))
            ++ finish_events rp.
Proof.
  unfold st_end, st_emit, st_call, finish_events. cbn [trace].
  rewrite trace_st_done. rewrite <- !app_assoc. reflexivity.
Qed.

End Success.

(** ** The program as a whole *)

Lemma run_success_inv (cfg : config) (dev : driver) (fuel : nat)
      (name : string) (args : list string) (s' : state) :
  run cfg dev fuel name args = (s', Done EXIT_SUCCESS) ->
  exists n rp,
    checkUsage (name :: args) = Some n /\
    128 <= n < UINT_MOD /\ n mod 128 = 0 /\ rp_done rp <> 0 /\
    respond dev (trace (st_last_poll cfg dev initial n rp)) (AfuRead MMIO_DONE)
      = inr (rp_done rp) /\
    s' = st_end cfg dev initial n rp.
Proof.
  unfold run, main. destruct (checkUsage (name :: args)) as [n|] eqn:Hu.
  - pose proof (checkUsage_range _ _ Hu) as [Hr Hm].
    rewrite try_catch_eq.
    destruct (try_block cfg dev fuel n initial) as [s1 o] eqn:E. cbn [fst snd].
    destruct o as [a|e|]; [|destruct (handler_message cfg dev e)|];
      intros H; inversion H; subst.
    apply try_block_Done_inv in E; [|lia].
    destruct E as (rp & _ & Hlt & Hd & Hresp & ->).
    exists n, rp. repeat split; auto; lia.
  - intros H. inversion H.
Qed.

Lemma decimal_value_nonneg (ds : string) :
  all_chars isdigit ds = true -> 0 <= decimal_value ds.
Proof.
  induction ds as [|c ds IH]; intros H; cbn [decimal_value]; [lia|].
  cbn [all_chars] in H. apply andb_true_iff in H. destruct H as [Hc Hds].
  specialize (IH Hds). unfold isdigit in Hc. apply andb_true_iff in Hc.
  destruct Hc as [Hc _]. apply Z.leb_le in Hc.
  assert (0 <= 10 ^ Z.of_nat (String.length ds)) by (apply Z.pow_nonneg; lia).
  nia.
Qed.

(** C1. The program goes past the argument check, that is, its first action
    is to open the accelerator, exactly when it is given one argument which
    [strtol] reads to its end as a number above zero that is a multiple of
    128; it then runs the [try] block on that number.  In every other case
    it prints the usage message and returns [EXIT_FAILURE], which is 1.
    For an argument written with decimal digits only this means: the
    number written is positive, at most [LONG_MAX] and a multiple of
    128. *)
Theorem main_argument_check (cfg : config) (dev : driver) (fuel : nat)
        (name : string) (args : list string) :
  let valid a :=
    at_nul (snd (strtol a)) = true /\ 0 < fst (strtol a) /\
    fst (strtol a) mod 128 = 0 in
  ((exists a, args = [a] /\ valid a) <->
   (exists r t, trace (fst (run cfg dev fuel name args))
                = EvAfu (AfuOpen (AFU_ACCEL_UUID cfg)) r :: t)) /\
  (forall a, args = [a] -> valid a ->
     run cfg dev fuel name args
     = try_catch cfg dev (try_block cfg dev fuel (fst (strtol a))) initial) /\
  (~ (exists a, args = [a] /\ valid a) ->
     run cfg dev fuel name args
     = (st_emit initial [EvCout (PrText (usage_message name))], Done EXIT_FAILURE)) /\
  EXIT_FAILURE = 1 /\
  (forall ds, all_chars isdigit ds = true -> ds <> EmptyString ->
     (valid ds <->
      0 < decimal_value ds <= LONG_MAX /\ decimal_value ds mod 128 = 0)).
Proof.
  intros valid.
  assert (Hyes : forall a, args = [a] -> valid a ->
                   checkUsage (name :: args) = Some (fst (strtol a))).
  { intros a -> (Hnul & Hpos & Hmod). apply checkUsage_Some.
    exists name, a. auto. }
  assert (Hno : ~ (exists a, args = [a] /\ valid a) ->
                checkUsage (name :: args) = None).
  { intros Hn. destruct (checkUsage (name :: args)) as [n|] eqn:Hu; [|reflexivity].
    exfalso. apply Hn. apply checkUsage_Some in Hu.
    destruct Hu as (name' & a & Heq & Hnul & Hpos & Hmod & _).
    inversion Heq; subst. exists a. split; [reflexivity|]. repeat split; auto. }
  split; [split|split; [|split; [|split]]].
  - intros (a & Ha & Hv). unfold run, main. rewrite (Hyes a Ha Hv).
    assert (Hr : 128 <= fst (strtol a))
      by (apply (checkUsage_range _ _ (Hyes a Ha Hv))).
    destruct (proj2 (try_block_shape cfg dev fuel (fst (strtol a)) ltac:(lia)) initial)
      as (r & t & Ht).
    rewrite try_catch_eq.
    destruct (snd (try_block cfg dev fuel (fst (strtol a)) initial)) as [x|e|].
    + exists r, t. exact Ht.
    + destruct (handler_message cfg dev e) as [msg|]; [|exists r, t; exact Ht].
      exists r, (t ++ [EvCerr msg]).
      unfold st_emit. cbn [fst trace]. rewrite Ht. reflexivity.
    + exists r, t. exact Ht.
  - intros (r & t & Ht).
    destruct (checkUsage (name :: args)) as [n|] eqn:Hu.
    + apply checkUsage_Some in Hu.
      destruct Hu as (name' & a & Heq & Hnul & Hpos & Hmod & _).
      inversion Heq; subst. exists a. split; [reflexivity|]. repeat split; auto.
    + unfold run, main in Ht. rewrite Hu in Ht. discriminate Ht.
  - intros a Ha Hv. unfold run, main. rewrite (Hyes a Ha Hv). reflexivity.
  - intros Hn. unfold run, main. rewrite (Hno Hn). reflexivity.
  - reflexivity.
  - intros ds Hall Hne. unfold valid. rewrite (strtol_digits ds Hall Hne).
    cbn [fst snd at_nul].
    pose proof (decimal_value_nonneg ds Hall) as H0.
    unfold clamp_long, LONG_MIN, LONG_MAX.
    destruct (Z.gtb_spec (decimal_value ds) (2 ^ 63 - 1)) as [Hbig|Hsmall].
    + change ((2 ^ 63 - 1) mod 128) with 127.
      split; [intros (_ & _ & H'); discriminate H' | intros [H' _]; lia].
    + destruct (Z.ltb_spec (decimal_value ds) (- 2 ^ 63)); [lia|].
      split; [intros (_ & Hp & Hm); auto with zarith
             | intros [[Hp _] Hm]; auto].
Qed.

Lemma main_argument_check_witness :
  run demo_config demo_driver 200 "prog" ["128"%string]
  = try_catch demo_config demo_driver (try_block demo_config demo_driver 200 128) initial /\
  run demo_config demo_driver 200 "prog" ["100"%string]
  = (st_emit initial [EvCout (PrText (usage_message "prog"))], Done EXIT_FAILURE).
Proof.
  split.
  - apply (proj1 (proj2 (main_argument_check demo_config demo_driver 200
                            "prog" ["128"%string])) "128"%string);
      [reflexivity | repeat split; reflexivity].
  - apply (proj1 (proj2 (proj2 (main_argument_check demo_config demo_driver 200
                                   "prog" ["100"%string])))).
    intros (a & Ha & _ & _ & Hmod). inversion Ha; subst. discriminate Hmod.
Defined.

(** ** Exceptions *)
















(** ** Consequences of the protocol *)

Lemma protocol_nonempty_Ended (t : list event) (q : phase) :
  protocol Ended t = Some q -> t = [].
Proof. destruct t as [|e t]; [reflexivity | discriminate]. Qed.

(** Accepted from [Waiting] and up to the first read of the output array,
    a trace holds only polls and sleeps. *)
Lemma protocol_waiting_until_load (mid t2 : list event) (e : event) (q : phase) :
  protocol Waiting (mid ++ e :: t2) = Some q ->
  is_output_load e ->
  (forall e', In e' mid -> ~ is_output_load e') ->
  Forall poll_or_sleep mid.
Proof.
  induction mid as [|a mid IH]; intros Hp He Hmid; [constructor|].
  cbn [app protocol] in Hp.
  destruct (protocol_step Waiting a) as [p'|] eqn:Hs; [|discriminate Hp].
  assert (Ha : ~ is_output_load a) by (apply Hmid; left; reflexivity).
  assert (Hcase : (poll_or_sleep a /\ p' = Waiting) \/ p' = Ended).
  { destruct a as [c r| | b i v | | |]; cbn in Hs; try discriminate Hs.
    - destruct c as [| | | |[] |]; try discriminate Hs.
      inversion Hs. left. split; [exact I | reflexivity].
    - destruct b; [discriminate Hs|]. exfalso. apply Ha. exact I.
    - inversion Hs. left. split; [exact I | reflexivity].
    - inversion Hs. right. reflexivity. }
  destruct Hcase as [[Hpoll ->] | ->].
  - constructor; [exact Hpoll|].
    apply IH; auto. intros e' He'. apply Hmid. right. exact He'.
  - apply protocol_nonempty_Ended in Hp. destruct mid; discriminate Hp.
Qed.

(** A write of [MMIO_GO] is accepted in the [Preparing] phase only. *)
Lemma protocol_go_write (p q : phase) (d : Z) (r : exn + Z) :
  protocol_step p (EvAfu (AfuWrite MMIO_GO d) r) = Some q ->
  p = Preparing /\ q = Waiting /\ d = 1.
Proof.
  destruct p; cbn; try discriminate.
  destruct d as [|[| |]|]; try discriminate. intros H. inversion H. auto.
Qed.

(** C10. In every run, between the write of the start trigger to [MMIO_GO]
    and the first read of the output array there are only reads of
    [MMIO_DONE] and sleeps: no register is written and no element of
    either array is stored to. *)
Theorem only_polls_between_go_and_output (cfg : config) (dev : driver) (fuel : nat)
        (name : string) (args : list string)
        (t1 mid t2 : list event) (d : Z) (r : exn + Z) (i v : Z) :
  trace (fst (run cfg dev fuel name args))
    = t1 ++ EvAfu (AfuWrite MMIO_GO d) r :: mid ++ EvLoad Output i v :: t2 ->
  (forall e, In e mid -> ~ is_output_load e) ->
  Forall poll_or_sleep mid /\
  (forall e, In e mid ->
             match e with
             | EvAfu (AfuWrite _ _) _ | EvStore _ _ _ => False
             | _ => True
             end).
Proof.
  intros Ht Hmid.
  destruct (run_protocol cfg dev fuel name args) as [q Hq].
  rewrite Ht, protocol_app in Hq.
  destruct (protocol Starting t1) as [p1|]; [|discriminate Hq].
  cbn [protocol] in Hq.
  destruct (protocol_step p1 (EvAfu (AfuWrite MMIO_GO d) r)) as [p2|] eqn:Hs;
    [|discriminate Hq].
  apply protocol_go_write in Hs. destruct Hs as (_ & -> & _).
  assert (Hall : Forall poll_or_sleep mid)
    by (apply (protocol_waiting_until_load mid t2 (EvLoad Output i v) q Hq I Hmid)).
  split; [exact Hall|].
  intros e He. rewrite Forall_forall in Hall. specialize (Hall e He).
  destruct e as [[] ?| | | | |]; try exact I; try contradiction.
Qed.

Lemma only_polls_between_go_and_output_witness :
  Forall poll_or_sleep
    [EvAfu (AfuRead MMIO_DONE) (inr 0); EvSleep 10;
     EvAfu (AfuRead MMIO_DONE) (inr 0); EvSleep 10;
     EvAfu (AfuRead MMIO_DONE) (inr 1)].
Proof.
  apply (only_polls_between_go_and_output demo_config demo_driver 200
           "prog" ["128"%string]
           (firstn 145 (trace (fst (run demo_config demo_driver 200
                                        "prog" ["128"%string]))))
           [EvAfu (AfuRead MMIO_DONE) (inr 0); EvSleep 10;
            EvAfu (AfuRead MMIO_DONE) (inr 0); EvSleep 10;
            EvAfu (AfuRead MMIO_DONE) (inr 1)]
           (skipn 152 (trace (fst (run demo_config demo_driver 200
                                       "prog" ["128"%string]))))
           1 (inr 0) 0 16).
  - vm_compute. reflexivity.
  - intros e He. simpl in He.
    destruct He as [<-|[<-|[<-|[<-|[<-|[]]]]]]; intros H; exact H.
Defined.

(** The done register is read only after [MMIO_GO] has been written. *)
Lemma protocol_read_after_go (t1 t2 : list event) (a : MmioAddr) (r : exn + Z)
      (p q : phase) :
  p = Starting \/ p = Preparing ->
  protocol p (t1 ++ EvAfu (AfuRead a) r :: t2) = Some q ->
  exists r', In (EvAfu (AfuWrite MMIO_GO 1) r') t1.
Proof.
  revert p. induction t1 as [|e t1 IH]; intros p Hp H.
  - cbn in H. destruct Hp as [-> | ->]; discriminate H.
  - cbn [app protocol] in H.
    destruct (protocol_step p e) as [p'|] eqn:Hs; [|discriminate H].
    destruct (match e with
              | EvAfu (AfuWrite MMIO_GO _) _ => true
              | _ => false
              end) eqn:Hgo.
    + destruct e as [[| | |[] d| |] r0| | | | |]; try discriminate Hgo.
      apply protocol_go_write in Hs. destruct Hs as (_ & _ & ->).
      exists r0. left. reflexivity.
    + assert (Hp' : p' = Starting \/ p' = Preparing \/ p' = Ended).
      { destruct Hp as [-> | ->];
          destruct e as [[| | |[] d| |] r0| | | | [] |]; cbn in Hs;
          try discriminate Hs; try discriminate Hgo;
          inversion Hs; auto. }
      destruct Hp' as [Hp'|[Hp'| ->]].
      * destruct (IH p' (or_introl Hp') H) as [r' Hin]. exists r'. right. exact Hin.
      * destruct (IH p' (or_intror Hp') H) as [r' Hin]. exists r'. right. exact Hin.
      * apply protocol_nonempty_Ended in H. destruct t1; discriminate H.
Qed.

(** ** The shape of a successful run *)

Lemma filter_control_stores (b : buffer) (v : Z) (idx : list Z) :
  filter is_control (map (fun i => EvStore b i v) idx) = [].
Proof. induction idx as [|i idx IH]; simpl; auto. Qed.

Lemma filter_control_polls (cfg : config) (k : nat) :
  filter is_control (zero_polls cfg k) = repeat (EvAfu (AfuRead MMIO_DONE) (inr 0)) k.
Proof.
  induction k as [|k IH]; [reflexivity|].
  cbn [zero_polls repeat]. rewrite filter_app, IH. unfold zero_poll.
  destruct (SLEEP_WHILE_WAITING cfg); reflexivity.
Qed.

Lemma filter_control_prints (m : memory) (idx : list Z) :
  filter is_control (print_events m idx) = map (fun j => EvLoad Output j (m Output j)) idx.
Proof.
  induction idx as [|j idx IH]; [reflexivity|].
  unfold print_events in *. cbn [flat_map app filter is_control map]. rewrite IH.
  reflexivity.
Qed.

Lemma filter_go_stores (b : buffer) (v : Z) (idx : list Z) :
  filter is_go_write (map (fun i => EvStore b i v) idx) = [].
Proof. induction idx as [|i idx IH]; simpl; auto. Qed.

Lemma filter_go_polls (cfg : config) (k : nat) :
  filter is_go_write (zero_polls cfg k) = [].
Proof.
  induction k as [|k IH]; [reflexivity|].
  cbn [zero_polls]. rewrite filter_app, IH. unfold zero_poll.
  destruct (SLEEP_WHILE_WAITING cfg); reflexivity.
Qed.

Lemma filter_go_prints (m : memory) (idx : list Z) :
  filter is_go_write (print_events m idx) = [].
Proof.
  induction idx as [|j idx IH]; [reflexivity|].
  unfold print_events in *. cbn [flat_map app filter is_go_write]. exact IH.
Qed.

(** C5. On every successful run the trace is: the preparation, the writes
    of the read-address, write-address, size and go registers, the wait,
    the printing of the output array, the release of both arrays.  Its
    control operations are therefore, in this order: write [MMIO_RD_ADDR],
    write [MMIO_WR_ADDR], write [MMIO_SIZE], write 1 to [MMIO_GO], reads of
    [MMIO_DONE] only (zero until the last), reads of the output array, free
    the input array, free the output array.  [MMIO_GO] is written exactly
    once, and every read of [MMIO_DONE] comes after that write. *)
Theorem control_operations_in_order (cfg : config) (dev : driver) (fuel : nat)
        (name : string) (args : list string) (s' : state) :
  run cfg dev fuel name args = (s', Done EXIT_SUCCESS) ->
  exists n rp m,
    checkUsage (name :: args) = Some n /\
    rp_done rp <> 0 /\
    trace s' = prepare_events cfg n rp ++ start_events cfg n rp
               ++ wait_events cfg rp
               ++ print_events m (indices (n / 16))
               ++ finish_events rp /\
    filter is_control (trace s')
    = [EvAfu (AfuWrite MMIO_RD_ADDR (rp_input rp)) (inr (rp_rd rp));
       EvAfu (AfuWrite MMIO_WR_ADDR (rp_output rp)) (inr (rp_wr rp));
       EvAfu (AfuWrite MMIO_SIZE (num_cls cfg n)) (inr (rp_size rp));
       EvAfu (AfuWrite MMIO_GO 1) (inr (rp_go rp))]
      ++ repeat (EvAfu (AfuRead MMIO_DONE) (inr 0)) (rp_polls rp)
      ++ [EvAfu (AfuRead MMIO_DONE) (inr (rp_done rp))]
      ++ map (fun j => EvLoad Output j (m Output j)) (indices (n / 16))
      ++ [EvAfu (AfuFree Input) (inr (rp_free_in rp));
          EvAfu (AfuFree Output) (inr (rp_free_out rp))] /\
    List.length (filter is_go_write (trace s')) = 1%nat /\
    (forall t1 r t2,
        trace s' = t1 ++ EvAfu (AfuRead MMIO_DONE) r :: t2 ->
        exists r', In (EvAfu (AfuWrite MMIO_GO 1) r') t1).
Proof.
  intros Hrun.
  destruct (run_success_inv _ _ _ _ _ _ Hrun)
    as (n & rp & Hu & Hn & Hmod & Hd & Hresp & ->).
  exists n, rp, (mem (st_done cfg dev initial n rp)).
  assert (Htrace := trace_st_end cfg dev initial n rp).
  cbn [initial trace app] in Htrace.
  split; [exact Hu|]. split; [exact Hd|]. split; [exact Htrace|].
  split; [|split].
  - rewrite Htrace. unfold prepare_events, wait_events.
    rewrite !filter_app, !filter_control_stores, filter_control_polls,
      filter_control_prints.
    unfold start_events, finish_events. cbn [filter is_control app].
    rewrite <- !app_assoc. reflexivity.
  - rewrite Htrace. unfold prepare_events, wait_events.
    rewrite !filter_app, !filter_go_stores, filter_go_polls, filter_go_prints.
    unfold start_events, finish_events. cbn [filter is_go_write app].
    reflexivity.
  - intros t1 r t2 Ht.
    destruct (run_protocol cfg dev fuel name args) as [q Hq].
    rewrite Hrun in Hq. cbn [fst] in Hq. rewrite Ht in Hq.
    apply (protocol_read_after_go t1 t2 MMIO_DONE r Starting q); auto.
Qed.

Lemma control_operations_in_order_witness :
  exists n rp m,
    checkUsage ["prog"; "128"]%string = Some n /\
    rp_done rp <> 0 /\
    trace (fst (run demo_config demo_driver 200 "prog" ["128"%string]))
    = prepare_events demo_config n rp ++ start_events demo_config n rp
      ++ wait_events demo_config rp
      ++ print_events m (indices (n / 16))
      ++ finish_events rp.
Proof.
  assert (Hs : snd (run demo_config demo_driver 200 "prog" ["128"%string])
               = Done EXIT_SUCCESS) by (vm_compute; reflexivity).
  destruct (control_operations_in_order demo_config demo_driver 200
              "prog" ["128"%string]
              (fst (run demo_config demo_driver 200 "prog" ["128"%string])))
    as (n & rp & m & Hu & Hd & Ht & _).
  - rewrite <- Hs. apply surjective_pairing.
  - exists n, rp, m. auto.
Defined.

(** ** Counts of 2^32 and more *)

Lemma stores_do_not_touch_output (v : Z) (idx : list Z) :
  Forall (fun e => ~ touches_output e) (map (fun i => EvStore Input i v) idx).
Proof.
  apply Forall_forall. intros e He. apply in_map_iff in He.
  destruct He as (i & <- & _). intros H. exact H.
Qed.

(** With 2^32 inputs or more the [try] block never gets past the first
    initialisation loop: it does not complete, and no output element is
    stored to, read or printed. *)
Lemma try_block_huge (cfg : config) (dev : driver) (fuel : nat) (n : Z) (s : state) :
  UINT_MOD <= n ->
  exists s' o,
    try_block cfg dev fuel n s = (s', o) /\
    (forall r, o <> Done r) /\
    exists evs,
      trace s' = trace s ++ evs /\
      Forall (fun e => ~ touches_output e) evs.
Proof.
  intros Hn. unfold try_block, cout.
  unfold bind at 1. rewrite afu_call_eq.
  destruct (respond dev (trace s) (AfuOpen (AFU_ACCEL_UUID cfg))) as [e|o].
  { eexists. eexists. split; [reflexivity|].
    split; [discriminate|]. eexists. split; [reflexivity|].
    repeat constructor. intros H. exact H. }
  unfold bind at 1. unfold emit at 1.
  unfold bind at 1. rewrite afu_call_eq.
  destruct (respond dev _ AfuMeasureClock) as [e|hz].
  { eexists. eexists. split; [reflexivity|].
    split; [discriminate|]. eexists. split.
    - unfold st_call. cbn [trace]. rewrite <- ?app_assoc. reflexivity.
    - repeat constructor; intros H; exact H. }
  unfold bind at 1. unfold emit at 1.
  unfold bind at 1. rewrite afu_call_eq.
  destruct (respond dev _ (AfuMalloc Input n)) as [e|a_in].
  { eexists. eexists. split; [reflexivity|].
    split; [discriminate|]. eexists. split.
    - unfold st_call. cbn [trace]. rewrite <- ?app_assoc. reflexivity.
    - repeat constructor; intros H; exact H. }
  unfold bind at 1. rewrite afu_call_eq.
  destruct (respond dev _ (AfuMalloc Output (n / 16))) as [e|a_out].
  { eexists. eexists. split; [reflexivity|].
    split; [discriminate|]. eexists. split.
    - unfold st_call. cbn [trace]. rewrite <- ?app_assoc. reflexivity.
    - repeat constructor; intros H; exact H. }
  unfold bind at 1.
  match goal with
  | |- context [init_loop fuel Input n 1 0 ?s0] =>
      destruct (init_loop_diverges fuel Input n 1 Hn 0 s0) as [idx [Heq _]];
      [unfold UINT_MOD; lia | rewrite Heq]
  end.
  eexists. eexists. split; [reflexivity|].
  split; [discriminate|]. eexists. split.
  - unfold st_stores, st_call. cbn [trace]. rewrite <- ?app_assoc. reflexivity.
  - repeat (constructor; [intros H; exact H|]).
    apply stores_do_not_touch_output.
Qed.

(** C3, at the count 4294967296 = 2^32, a multiple of 128 that passes the
    argument check: the output array should have 268435456 elements, but
    whatever the environment and however long the program is left to run
    it does not succeed and it neither initialises nor reads nor prints a
    single output element, because the 32-bit counter of the input loop
    never reaches the bound. *)
Theorem no_output_for_two_pow_32_inputs (cfg : config) (dev : driver) (fuel : nat) :
  checkUsage ["prog"; "4294967296"]%string = Some 4294967296 /\
  4294967296 / 16 = 268435456 /\
  snd (run cfg dev fuel "prog" ["4294967296"%string]) <> Done EXIT_SUCCESS /\
  (forall e, In e (trace (fst (run cfg dev fuel "prog" ["4294967296"%string]))) ->
             ~ touches_output e).
Proof.
  assert (Hu : checkUsage ["prog"; "4294967296"]%string = Some 4294967296)
    by (vm_compute; reflexivity).
  split; [exact Hu|]. split; [reflexivity|].
  unfold run, main. rewrite Hu, try_catch_eq.
  destruct (try_block_huge cfg dev fuel 4294967296 initial)
    as (s' & o & Heq & Hnd & evs & Ht & Hall); [unfold UINT_MOD; lia|].
  cbn [initial trace app] in Ht. rewrite Heq. cbn [fst snd].
  rewrite Forall_forall in Hall.
  destruct o as [r|e|].
  - exfalso. apply (Hnd r). reflexivity.
  - destruct (handler_message cfg dev e) as [msg|].
    + split; [discriminate|]. intros ev Hin.
      unfold st_emit in Hin. cbn [fst trace] in Hin. rewrite Ht in Hin.
      apply in_app_or in Hin. destruct Hin as [Hin|[<-|[]]].
      * apply Hall. exact Hin.
      * intros H. exact H.
    + split; [discriminate|]. intros ev Hin. cbn [fst] in Hin.
      rewrite Ht in Hin. apply Hall. exact Hin.
  - split; [discriminate|]. intros ev Hin. cbn [fst] in Hin. rewrite Ht in Hin.
    apply Hall. exact Hin.
Qed.

(** ** Runs that succeed exist *)

Lemma bind_Done {A B : Type} (m : M A) (f : A -> M B) (s s1 : state) (a : A) :
  m s = (s1, Done a) -> bind m f s = f a s1.
Proof. intros H. unfold bind. rewrite H. reflexivity. Qed.

Lemma afu_call_ok (dev : driver) (c : call) (s : state) (v : Z) :
  respond dev (trace s) c = inr v ->
  afu_call dev c s = (st_call dev s c (inr v), Done v).
Proof. intros H. rewrite afu_call_eq, H. reflexivity. Qed.

Lemma init_loop_ok (fuel : nat) (b : buffer) (bound v : Z) (s : state) :
  0 <= bound < UINT_MOD -> (Z.to_nat bound < fuel)%nat ->
  init_loop fuel b bound v 0 s = (st_stores s b (indices bound) v, Done tt).
Proof.
  intros Hb Hf. rewrite (init_loop_cases fuel b bound v (proj2 Hb) 0 s) by lia.
  rewrite Z.sub_0_r. destruct (Nat.ltb_spec (Z.to_nat bound) fuel); [reflexivity | lia].
Qed.

Lemma print_loop_ok (fuel : nat) (bound : Z) (s : state) :
  0 <= bound < UINT_MOD -> (Z.to_nat bound < fuel)%nat ->
  print_loop fuel bound 0 s = (st_emit s (print_events (mem s) (indices bound)), Done tt).
Proof.
  intros Hb Hf. rewrite (print_loop_cases fuel bound (proj2 Hb) 0 s) by lia.
  rewrite Z.sub_0_r. destruct (Nat.ltb_spec (Z.to_nat bound) fuel); [reflexivity | lia].
Qed.

Lemma wait_done_ok (cfg : config) (dev : driver) (K fuel : nat) (s : state) :
  done_within cfg dev K -> (K < fuel)%nat ->
  exists s', wait_done cfg dev fuel s = (s', Done tt).
Proof.
  intros Hd Hf. destruct (Hd (trace s)) as (k & v & Hk & Hv & Hn & Hz).
  destruct (wait_done_cases cfg dev fuel s)
    as [(k' & v' & Hk' & Hv' & Hz' & Hn' & Heq)
       |[(k' & e & Hk' & Hz' & Hn' & Heq)|(Hz' & Heq)]].
  - eexists. exact Heq.
  - exfalso. destruct (Nat.lt_trichotomy k' k) as [Hlt|[->|Hgt]].
    + rewrite Hz in Hn' by exact Hlt. discriminate Hn'.
    + rewrite Hn in Hn'. discriminate Hn'.
    + rewrite Hz' in Hn by exact Hgt. inversion Hn. congruence.
  - exfalso. rewrite Hz' in Hn by lia. inversion Hn. congruence.
Qed.

(** With an environment that never throws and signals completion within
    [K] polls, the [try] block completes for every count below 2^32 as
    soon as the loops are given enough iterations. *)
Lemma try_block_total (cfg : config) (dev : driver) (K fuel : nat) (n : Z) (s : state) :
  never_throws dev -> done_within cfg dev K ->
  0 <= n < UINT_MOD -> (Z.to_nat n < fuel)%nat -> (K < fuel)%nat ->
  snd (try_block cfg dev fuel n s) = Done EXIT_SUCCESS.
Proof.
  intros Hnt Hd Hn Hf HK.
  assert (Hout : 0 <= n / 16 <= n).
  { split; [apply Z.div_pos; lia|]. apply Z.div_le_upper_bound; lia. }
  unfold try_block, cout.
  repeat
    match goal with
    | |- snd (bind (afu_call dev ?c) ?f ?s0) = _ =>
        let v := fresh "v" in
        let Hv := fresh "Hv" in
        destruct (Hnt (trace s0) c) as [v Hv];
        rewrite (bind_Done (afu_call dev c) f s0 _ v (afu_call_ok dev c s0 v Hv));
        cbv beta
    | |- snd (bind (emit ?e) ?f ?s0) = _ =>
        rewrite (bind_Done (emit e) f s0 (st_emit s0 [e]) tt eq_refl); cbv beta
    | |- snd (bind (init_loop fuel ?b ?bound ?v 0) ?f ?s0) = _ =>
        rewrite (bind_Done _ f s0 _ tt (init_loop_ok fuel b bound v s0
                                          ltac:(lia) ltac:(lia)));
        cbv beta
    | |- snd (bind (print_loop fuel ?bound 0) ?f ?s0) = _ =>
        rewrite (bind_Done _ f s0 _ tt (print_loop_ok fuel bound s0
                                          ltac:(lia) ltac:(lia)));
        cbv beta
    | |- snd (bind (wait_done cfg dev fuel) ?f ?s0) = _ =>
        let s1 := fresh "s" in
        let Hw := fresh "Hw" in
        destruct (wait_done_ok cfg dev K fuel s0 Hd HK) as [s1 Hw];
        rewrite (bind_Done _ f s0 s1 tt Hw); cbv beta
    end.
  reflexivity.
Qed.

Lemma filter_done_polls (cfg : config) (k : nat) :
  List.length (filter is_done_read (zero_polls cfg k)) = k.
Proof.
  induction k as [|k IH]; [reflexivity|].
  cbn [zero_polls]. rewrite filter_app, length_app, IH. unfold zero_poll.
  destruct (SLEEP_WHILE_WAITING cfg); reflexivity.
Qed.

Lemma demo_driver_never_throws : never_throws demo_driver.
Proof.
  intros t c. destruct c as [| |[] | |[] |]; eexists; reflexivity.
Qed.

Lemma demo_driver_done_within (cfg : config) : done_within cfg demo_driver 2.
Proof.
  intros t.
  set (c0 := List.length (filter is_done_read t)).
  assert (Hcount : forall j,
             List.length (filter is_done_read (t ++ zero_polls cfg j))
             = (c0 + j)%nat).
  { intros j. rewrite filter_app, length_app, filter_done_polls. reflexivity. }
  exists (2 - c0)%nat, 1. split; [lia|]. split; [lia|]. split.
  - unfold demo_driver. cbn [respond]. rewrite Hcount.
    destruct (Nat.leb_spec 2 (c0 + (2 - c0))); [reflexivity | lia].
  - intros j Hj. unfold demo_driver. cbn [respond]. rewrite Hcount.
    destruct (Nat.leb_spec 2 (c0 + j)); [lia | reflexivity].
Qed.

(** ** The size in cache lines below the wrap-around

    For counts below 2^29 the byte count is a multiple of 1024 below 2^32.
    Such a number is a [float]: its conversion, the division by 64.0 and
    [ceil] are all exact. *)

Lemma iter_pos_eq {A : Type} (f : A -> A) (p : positive) (x : A) :
  iter_pos f p x = Pos.iter f x p.
Proof.
  revert x. induction p as [p IH|p IH|]; intros x; cbn [iter_pos Pos.iter].
  - rewrite !IH, !Pos.iter_swap. reflexivity.
  - rewrite !IH. reflexivity.
  - reflexivity.
Qed.

Lemma Zpos_iter_xO (m q : positive) :
  Z.pos (Pos.iter xO m q) = Z.pos m * 2 ^ Z.pos q.
Proof.
  induction q as [|q IH] using Pos.peano_ind.
  - cbn [Pos.iter]. lia.
  - rewrite Pos.iter_succ, Pos2Z.inj_succ, Z.pow_succ_r by lia.
    rewrite Pos2Z.inj_xO, IH. ring.
Qed.

Lemma digits_iter_xO (m q : positive) :
  digits2_pos (Pos.iter xO m q) = (digits2_pos m + q)%positive.
Proof.
  induction q as [|q IH] using Pos.peano_ind.
  - cbn [Pos.iter digits2_pos]. lia.
  - rewrite Pos.iter_succ. cbn [digits2_pos]. rewrite IH. lia.
Qed.

Lemma digits2_pos_bound (k : positive) :
  forall j, 0 <= j -> Z.pos k < 2 ^ j -> Z.pos (digits2_pos k) <= j.
Proof.
  induction k as [k IH|k IH|]; intros j Hj Hk; cbn [digits2_pos].
  - assert (Hj1 : 1 <= j) by (destruct (Z.eq_dec j 0); [subst; simpl in Hk; lia | lia]).
    replace j with (Z.succ (j - 1)) in Hk by lia. rewrite Z.pow_succ_r in Hk by lia.
    specialize (IH (j - 1) ltac:(lia) ltac:(lia)). lia.
  - assert (Hj1 : 1 <= j) by (destruct (Z.eq_dec j 0); [subst; simpl in Hk; lia | lia]).
    replace j with (Z.succ (j - 1)) in Hk by lia. rewrite Z.pow_succ_r in Hk by lia.
    specialize (IH (j - 1) ltac:(lia) ltac:(lia)). lia.
  - destruct (Z.eq_dec j 0); [subst; simpl in Hk; lia | lia].
Qed.

Lemma shr_iter_exact (q m : positive) :
  Pos.iter shr_1 {| shr_m := Z.pos (Pos.iter xO m q); shr_r := false; shr_s := false |} q
  = {| shr_m := Z.pos m; shr_r := false; shr_s := false |}.
Proof.
  induction q as [|q IH] using Pos.peano_ind.
  - reflexivity.
  - rewrite Pos.iter_succ_r, Pos.iter_succ. exact IH.
Qed.

(** A 24-bit mantissa with an exponent in range is left as it is. *)
Lemma binary_round_aux_canonical (s : bool) (m : positive) (e : Z) :
  digits2_pos m = 24%positive -> -149 <= e <= 104 ->
  binary_round_aux 24 128 s (Z.pos m) e loc_Exact = S754_finite s m e.
Proof.
  intros Hm He.
  assert (Hshift : fexp 24 128 (Z.pos (digits2_pos m) + e) - e = 0)
    by (rewrite Hm; unfold fexp, emin; lia).
  unfold binary_round_aux, shr_fexp. cbn [Zdigits2 shr_record_of_loc].
  rewrite Hshift. cbn [shr shr_m loc_of_shr_record round_nearest_even Zdigits2
                       shr_record_of_loc].
  rewrite Hshift. cbn [shr shr_m].
  destruct (Z.leb_spec e (128 - 24)); [reflexivity | lia].
Qed.

(** A 24-bit mantissa followed by [q] zero bits is shifted back exactly. *)
Lemma binary_round_aux_shifted (s : bool) (m q : positive) (e : Z) :
  digits2_pos m = 24%positive -> -149 <= e -> e + Z.pos q <= 104 ->
  binary_round_aux 24 128 s (Z.pos (Pos.iter xO m q)) e loc_Exact
  = S754_finite s m (e + Z.pos q).
Proof.
  intros Hm He Hq.
  assert (Hshift : fexp 24 128 (Z.pos (digits2_pos (Pos.iter xO m q)) + e) - e = Z.pos q)
    by (rewrite digits_iter_xO, Hm; unfold fexp, emin; lia).
  assert (Hshift' : fexp 24 128 (Z.pos (digits2_pos m) + (e + Z.pos q)) - (e + Z.pos q) = 0)
    by (rewrite Hm; unfold fexp, emin; lia).
  unfold binary_round_aux, shr_fexp. cbn [Zdigits2 shr_record_of_loc].
  rewrite Hshift. cbn [shr]. rewrite iter_pos_eq, shr_iter_exact.
  cbn [shr_m loc_of_shr_record round_nearest_even Zdigits2 shr_record_of_loc].
  rewrite Hshift'. cbn [shr shr_m].
  destruct (Z.leb_spec (e + Z.pos q) (128 - 24)); [reflexivity | lia].
Qed.

(** The conversion to [float] of a multiple of 1024 below 2^32 is exact. *)
Lemma float_of_Z_kilo (k : positive) :
  Z.pos k < 2 ^ 22 ->
  exists M e,
    float_of_Z (Z.pos k * 1024) = S754_finite false M e /\
    digits2_pos M = 24%positive /\ -13 <= e <= 8 /\
    Z.pos M * 2 ^ (e + 13) = Z.pos k * 2 ^ 23.
Proof.
  intros Hk.
  pose proof (digits2_pos_bound k 22 ltac:(lia) Hk) as Hd.
  assert (HP : Z.pos k * 1024 = Z.pos (Pos.iter xO k 10))
    by (rewrite Zpos_iter_xO; reflexivity).
  assert (HdP : Z.pos (digits2_pos (Pos.iter xO k 10)) = Z.pos (digits2_pos k) + 10)
    by (rewrite digits_iter_xO; lia).
  rewrite HP. unfold float_of_Z, binary_normalize, binary_round, shl_align.
  assert (Hf : fexp 24 128 (Z.pos (digits2_pos (Pos.iter xO k 10)) + 0)
               = Z.pos (digits2_pos k) - 14)
    by (rewrite HdP; unfold fexp, emin; lia).
  rewrite Hf.
  destruct (Z.pos (digits2_pos k) - 14 - 0) as [|q|q] eqn:Hx.
  - exists (Pos.iter xO k 10), 0.
    rewrite binary_round_aux_canonical by lia.
    repeat split; lia.
  - assert (Hq : (q < 10)%positive) by lia.
    assert (Hsplit : Pos.iter xO k 10 = Pos.iter xO (Pos.iter xO k (10 - q)) q).
    { rewrite <- Pos.iter_add. f_equal. lia. }
    rewrite Hsplit.
    exists (Pos.iter xO k (10 - q)), (0 + Z.pos q).
    assert (Hm : digits2_pos (Pos.iter xO k (10 - q)) = 24%positive)
      by (rewrite digits_iter_xO; lia).
    rewrite binary_round_aux_shifted by (try exact Hm; lia).
    repeat split; try lia; try exact Hm.
    rewrite Zpos_iter_xO, <- Z.mul_assoc, <- Z.pow_add_r by lia.
    f_equal. f_equal. lia.
  - exists (Pos.iter xO (Pos.iter xO k 10) q), (Z.pos (digits2_pos k) - 14).
    assert (Hm : digits2_pos (Pos.iter xO (Pos.iter xO k 10) q) = 24%positive)
      by (rewrite !digits_iter_xO; lia).
    rewrite binary_round_aux_canonical by (try exact Hm; lia).
    repeat split; try lia; try exact Hm.
    rewrite !Zpos_iter_xO, <- !Z.mul_assoc, <- !Z.pow_add_r by lia.
    f_equal. f_equal. lia.
Qed.

Lemma div_eucl_exact (a b q : Z) :
  0 < b -> a = q * b -> Z.div_eucl a b = (q, 0).
Proof.
  intros Hb Ha.
  pose proof (Z_div_mod a b ltac:(lia)) as H.
  destruct (Z.div_eucl a b) as [q' r]. destruct H as [H1 H2].
  assert (q' = q) by nia. subst q'. f_equal. nia.
Qed.

(** Dividing a [float] by 64.0 lowers its exponent by 6. *)
Lemma float_div_64 (M : positive) (e : Z) :
  digits2_pos M = 24%positive -> -13 <= e <= 8 ->
  float_div (S754_finite false M e) (float_of_Z 64) = S754_finite false M (e - 6).
Proof.
  intros Hm He.
  change (float_of_Z 64) with (S754_finite false 8388608 (-17)).
  unfold float_div, SFdiv, SFdiv_core_binary. cbn [Zdigits2 xorb].
  rewrite Hm. change (Z.pos (digits2_pos 8388608)) with 24.
  replace (Z.min (fexp 24 128 (24 + e - (24 + -17))) (e - -17)) with (e - 7)
    by (unfold fexp, emin; lia).
  replace (e - -17 - (e - 7)) with 24 by lia.
  rewrite (div_eucl_exact (Z.shiftl (Z.pos M) 24) 8388608 (Z.pos M~0)).
  - change (new_location 8388608 0) with loc_Exact.
    change (M~0)%positive with (Pos.iter xO M 1).
    rewrite binary_round_aux_shifted by (try exact Hm; lia).
    f_equal. lia.
  - lia.
  - rewrite Z.shiftl_mul_pow2 by lia. change (2 ^ 24) with 16777216. lia.
Qed.

(** Below 2^29 inputs, and with cache lines of 64 bytes, the value written
    to [MMIO_SIZE] is the exact number of cache lines of the input array:
    a validated count gives it as [n / 8]. *)
Lemma num_cls_exact_below_two_pow_29 (cfg : config) (n : Z) :
  CL_BYTES cfg = 64 ->
  0 < n < 2 ^ 29 -> n mod 128 = 0 ->
  num_cls cfg n = ceil_div (n * sizeof_unsigned_long) 64 /\
  num_cls cfg n = n / 8.
Proof.
  intros Hcl Hn Hmod.
  apply Z.mod_divide in Hmod; [|lia]. destruct Hmod as [k Hk].
  destruct k as [|k|k]; try lia.
  assert (Hklt : Z.pos k < 2 ^ 22) by lia.
  assert (Htb : total_bytes n = Z.pos k * 1024).
  { unfold total_bytes, to_unsigned, to_ulong, ULONG_MOD, UINT_MOD,
      sizeof_unsigned_long.
    rewrite (Z.mod_small (n * 8) (2 ^ 64)) by lia.
    rewrite Z.mod_small by lia. lia. }
  destruct (float_of_Z_kilo k Hklt) as (M & e & Hf & Hm & He & Hrel).
  assert (Hval : ceil_float (S754_finite false M (e - 6)) = Z.pos k * 16).
  { unfold ceil_float.
    assert (Hcases : e = -13 \/ e = -12 \/ e = -11 \/ e = -10 \/ e = -9 \/ e = -8 \/
                     e = -7 \/ e = -6 \/ e = -5 \/ e = -4 \/ e = -3 \/ e = -2 \/
                     e = -1 \/ e = 0 \/ e = 1 \/ e = 2 \/ e = 3 \/ e = 4 \/ e = 5 \/
                     e = 6 \/ e = 7 \/ e = 8) by lia.
    repeat (destruct Hcases as [->|Hcases]); try subst e;
      repeat (match type of Hrel with
              | context [2 ^ ?a] =>
                  let x := eval vm_compute in (2 ^ a) in
                  change (2 ^ a) with x in Hrel
              end);
      (match goal with
       | |- context [0 <=? ?c] =>
           let b := eval vm_compute in (0 <=? c) in change (0 <=? c) with b
       end);
      cbv iota;
      (match goal with
       | |- context [2 ^ ?a] =>
           let x := eval vm_compute in (2 ^ a) in change (2 ^ a) with x
       end);
      try (match goal with
           | |- context [- Z.pos M / ?D] =>
               replace (- Z.pos M) with ((- (Z.pos k * 16)) * D) by lia;
               rewrite Z.div_mul by lia
           end);
      lia. }
  split.
  - unfold num_cls. rewrite Htb, Hcl, Hf, float_div_64, Hval by assumption.
    unfold ceil_div, sizeof_unsigned_long, to_unsigned, UINT_MOD.
    rewrite Z.mod_small by lia. subst n.
    apply (Z.div_unique _ 64 _ 63); lia.
  - unfold num_cls. rewrite Htb, Hcl, Hf, float_div_64, Hval by assumption.
    unfold to_unsigned, UINT_MOD. rewrite Z.mod_small by lia. subst n.
    apply (Z.div_unique _ 8 _ 0); lia.
Qed.

(** ** The number of outputs on a successful run *)

Lemma filter_output_store_input (v : Z) (idx : list Z) :
  filter is_output_store (map (fun i => EvStore Input i v) idx) = [].
Proof. induction idx as [|i idx IH]; simpl; auto. Qed.

Lemma filter_output_store_output (v : Z) (idx : list Z) :
  filter is_output_store (map (fun i => EvStore Output i v) idx)
  = map (fun i => EvStore Output i v) idx.
Proof. induction idx as [|i idx IH]; simpl; [|rewrite IH]; auto. Qed.

Lemma filter_output_store_polls (cfg : config) (k : nat) :
  filter is_output_store (zero_polls cfg k) = [].
Proof.
  induction k as [|k IH]; [reflexivity|].
  cbn [zero_polls]. rewrite filter_app, IH. unfold zero_poll.
  destruct (SLEEP_WHILE_WAITING cfg); reflexivity.
Qed.

Lemma filter_output_store_prints (m : memory) (idx : list Z) :
  filter is_output_store (print_events m idx) = [].
Proof.
  induction idx as [|j idx IH]; [reflexivity|].
  unfold print_events in *. cbn [flat_map app filter is_output_store]. exact IH.
Qed.

Lemma filter_value_print_stores (b : buffer) (v : Z) (idx : list Z) :
  filter is_value_print (map (fun i => EvStore b i v) idx) = [].
Proof. induction idx as [|i idx IH]; simpl; auto. Qed.

Lemma filter_value_print_polls (cfg : config) (k : nat) :
  filter is_value_print (zero_polls cfg k) = [].
Proof.
  induction k as [|k IH]; [reflexivity|].
  cbn [zero_polls]. rewrite filter_app, IH. unfold zero_poll.
  destruct (SLEEP_WHILE_WAITING cfg); reflexivity.
Qed.

Lemma filter_value_print_prints (m : memory) (idx : list Z) :
  filter is_value_print (print_events m idx)
  = map (fun j => EvCout (PrValue (m Output j))) idx.
Proof.
  induction idx as [|j idx IH]; [reflexivity|].
  unfold print_events in *. cbn [flat_map app filter is_value_print map].
  rewrite IH. reflexivity.
Qed.

(** A successful run has a count below 2^32; it allocates [n / 16] output
    elements, stores 0 to each of them once and prints each of them once. *)
Lemma outputs_on_success (cfg : config) (dev : driver) (fuel : nat)
      (name : string) (args : list string) (s' : state) :
  run cfg dev fuel name args = (s', Done EXIT_SUCCESS) ->
  exists n rp m,
    checkUsage (name :: args) = Some n /\ n < 2 ^ 32 /\
    In (EvAfu (AfuMalloc Output (n / 16)) (inr (rp_output rp))) (trace s') /\
    filter is_output_store (trace s')
      = map (fun j => EvStore Output j 0) (indices (n / 16)) /\
    filter is_value_print (trace s')
      = map (fun j => EvCout (PrValue (m Output j))) (indices (n / 16)) /\
    List.length (indices (n / 16)) = Z.to_nat (n / 16).
Proof.
  intros Hrun.
  destruct (run_success_inv _ _ _ _ _ _ Hrun)
    as (n & rp & Hu & Hn & Hmod & Hd & Hresp & ->).
  exists n, rp, (mem (st_done cfg dev initial n rp)).
  assert (Htrace := trace_st_end cfg dev initial n rp).
  cbn [initial trace app] in Htrace. rewrite Htrace.
  split; [exact Hu|]. split; [exact (proj2 Hn)|].
  split; [|split; [|split]].
  - apply in_or_app. left. unfold prepare_events.
    do 5 right. left. reflexivity.
  - unfold prepare_events, wait_events.
    rewrite !filter_app, filter_output_store_input, filter_output_store_output,
      filter_output_store_polls, filter_output_store_prints.
    unfold start_events, finish_events. cbn [filter is_output_store app].
    rewrite !app_nil_r. reflexivity.
  - unfold prepare_events, wait_events.
    rewrite !filter_app, !filter_value_print_stores, filter_value_print_polls,
      filter_value_print_prints.
    unfold start_events, finish_events. cbn [filter is_value_print app].
    rewrite !app_nil_r. reflexivity.
  - apply zrange_length.
Qed.

(** With an environment that never throws and signals completion within
    [K] polls, every validated count below 2^32 gives a successful run once
    the loops are allowed enough iterations. *)
Lemma run_total (cfg : config) (dev : driver) (K fuel : nat)
      (name : string) (args : list string) (n : Z) :
  never_throws dev -> done_within cfg dev K ->
  checkUsage (name :: args) = Some n -> n < 2 ^ 32 ->
  (Z.to_nat n < fuel)%nat -> (K < fuel)%nat ->
  snd (run cfg dev fuel name args) = Done EXIT_SUCCESS.
Proof.
  intros Hnt Hd Hu Hn Hf HK.
  pose proof (checkUsage_range _ _ Hu) as [Hr _].
  assert (Hs : snd (try_block cfg dev fuel n initial) = Done EXIT_SUCCESS)
    by (apply (try_block_total cfg dev K); auto; unfold UINT_MOD; lia).
  unfold run, main. rewrite Hu, try_catch_eq, Hs. exact Hs.
Qed.

(** ** The size register *)

Lemma In_size_write (cfg : config) (dev : driver) (n : Z) (rp : replies) :
  In (EvAfu (AfuWrite MMIO_SIZE (num_cls cfg n)) (inr (rp_size rp)))
     (trace (st_end cfg dev initial n rp)).
Proof.
  rewrite trace_st_end. cbn [initial trace app].
  apply in_or_app. right. apply in_or_app. left.
  unfold start_events. right. right. left. reflexivity.
Qed.

(** On every successful run the value written to [MMIO_SIZE] is
    [num_cls] of the validated count. *)
Lemma size_register_on_success (cfg : config) (dev : driver) (fuel : nat)
      (name : string) (args : list string) (s' : state) :
  run cfg dev fuel name args = (s', Done EXIT_SUCCESS) ->
  exists n r,
    checkUsage (name :: args) = Some n /\
    In (EvAfu (AfuWrite MMIO_SIZE (num_cls cfg n)) r) (trace s').
Proof.
  intros Hrun.
  destruct (run_success_inv _ _ _ _ _ _ Hrun)
    as (n & rp & Hu & _ & _ & _ & _ & ->).
  exists n, (inr (rp_size rp)). split; [exact Hu | apply In_size_write].
Qed.

Lemma num_cls_of_zero_bytes (cfg : config) (n : Z) :
  total_bytes n = 0 -> num_cls cfg n = 0.
Proof.
  intros H. unfold num_cls. rewrite H.
  change (float_of_Z 0) with (S754_zero false).
  destruct (float_of_Z (CL_BYTES cfg)); reflexivity.
Qed.

(** C2, at the count 536870912 = 2^29, a multiple of 128 that passes the
    argument check: the array takes 2^32 bytes, that is 67108864 cache
    lines of 64 bytes, but the byte count is kept in a 32-bit [unsigned],
    where it is 0, and the value written to [MMIO_SIZE] is 0, whatever the
    cache-line size.  The run shown is one in which every call succeeds. *)
Theorem size_register_wraps_at_two_pow_29 :
  checkUsage ["prog"; "536870912"]%string = Some 536870912 /\
  536870912 * sizeof_unsigned_long = 2 ^ 32 /\
  total_bytes 536870912 = 0 /\
  (forall cfg, num_cls cfg 536870912 = 0) /\
  ceil_div (536870912 * sizeof_unsigned_long) (CL_BYTES demo_config) = 67108864 /\
  exists fuel s' r,
    run demo_config demo_driver fuel "prog" ["536870912"%string]
      = (s', Done EXIT_SUCCESS) /\
    In (EvAfu (AfuWrite MMIO_SIZE 0) r) (trace s').
Proof.
  assert (Hu : checkUsage ["prog"; "536870912"]%string = Some 536870912)
    by (vm_compute; reflexivity).
  assert (Htb : total_bytes 536870912 = 0) by reflexivity.
  split; [exact Hu|]. split; [reflexivity|]. split; [exact Htb|].
  split; [intros cfg; apply num_cls_of_zero_bytes; exact Htb|].
  split; [reflexivity|].
  set (fuel := S (Z.to_nat 536870912)).
  assert (Hs : snd (run demo_config demo_driver fuel "prog" ["536870912"%string])
               = Done EXIT_SUCCESS).
  { apply (run_total demo_config demo_driver 2 fuel "prog" ["536870912"%string]
             536870912).
    - exact demo_driver_never_throws.
    - exact (demo_driver_done_within demo_config).
    - exact Hu.
    - lia.
    - unfold fuel. lia.
    - unfold fuel. lia. }
  assert (Hrun : run demo_config demo_driver fuel "prog" ["536870912"%string]
                 = (fst (run demo_config demo_driver fuel "prog" ["536870912"%string]),
                    Done EXIT_SUCCESS))
    by (rewrite <- Hs; apply surjective_pairing).
  destruct (size_register_on_success _ _ _ _ _ _ Hrun) as (n & r & Hn & Hin).
  rewrite Hu in Hn. inversion Hn; subst n.
  rewrite (num_cls_of_zero_bytes demo_config 536870912 Htb) in Hin.
  exists fuel, (fst (run demo_config demo_driver fuel "prog" ["536870912"%string])), r.
  split; [exact Hrun | exact Hin].
Qed.

(** * Further properties *)

(** ** Which arguments [stringToPositiveInt] takes *)

Lemma scan_digits_app (ds r : string) :
  all_chars isdigit ds = true ->
  forall acc,
    scan_digits acc (ds ++ r)
    = scan_digits (acc * 10 ^ Z.of_nat (String.length ds) + decimal_value ds) r.
Proof.
  induction ds as [|c ds IH]; intros H acc.
  - simpl. f_equal. lia.
  - cbn [all_chars] in H. apply andb_true_iff in H. destruct H as [Hc Hds].
    cbn [append scan_digits]. rewrite Hc, (IH Hds).
    f_equal. cbn [String.length decimal_value].
    rewrite Nat2Z.inj_succ, Z.pow_succ_r by lia. ring.
Qed.

Lemma all_chars_app (p : ascii -> bool) (a b : string) :
  all_chars p (a ++ b) = all_chars p a && all_chars p b.
Proof.
  induction a as [|c a IH]; [reflexivity|].
  cbn [append all_chars]. rewrite IH, andb_assoc. reflexivity.
Qed.

(** X1. A number returned by [stringToPositiveInt] lies between 1 and
    [LONG_MAX]: the conversion of the [long] to [unsigned long] never
    wraps, and no value of 2^63 or more can come out of the parser. *)
Theorem stringToPositiveInt_range (str : string) (v : Z) :
  stringToPositiveInt str = inr v ->
  1 <= v <= 2 ^ 63 - 1 /\ v = fst (strtol str).
Proof.
  rewrite stringToPositiveInt_unfold.
  pose proof (strtol_range str) as Hr. unfold LONG_MAX in Hr.
  destruct (at_nul (snd (strtol str))); simpl; [|discriminate].
  destruct (Z.gtb_spec (fst (strtol str)) 0); [|discriminate].
  intros Heq. inversion Heq. subst. split; [lia | reflexivity].
Qed.

Lemma stringToPositiveInt_range_witness :
  1 <= 128 <= 2 ^ 63 - 1 /\ 128 = fst (strtol "128").
Proof.
  apply (stringToPositiveInt_range "128" 128). reflexivity.
Defined.

(** X2. Anything after the digits makes the argument invalid: a digit
    string followed by a character that is neither a digit nor NUL (a
    trailing blank or newline, a decimal point, an exponent, a unit) is
    refused with the [runtime_error], although leading white space is
    accepted. *)
Theorem stringToPositiveInt_trailing (ds : string) (c : ascii) (rest : string) :
  all_chars isdigit ds = true -> ds <> EmptyString ->
  isdigit c = false -> code c <> 0 ->
  stringToPositiveInt (ds ++ String c rest)
  = inl (Exn_runtime_error not_positive_msg) /\
  snd (strtol (ds ++ String c rest)) = String c rest.
Proof.
  intros Hall Hne Hc Hnul.
  assert (Hs : snd (strtol (ds ++ String c rest)) = String c rest).
  { destruct ds as [|d ds']; [congruence|].
    pose proof Hall as Hall'. cbn [all_chars] in Hall'.
    apply andb_true_iff in Hall'. destruct Hall' as [Hd _].
    unfold strtol. cbn [append].
    destruct (digit_first d (ds' ++ String c rest) Hd) as [Hsk Hsg].
    rewrite Hsk, Hsg.
    change (starts_with_digit (String d (ds' ++ String c rest))) with (isdigit d).
    rewrite Hd.
    change (String d (ds' ++ String c rest)) with (String d ds' ++ String c rest)%string.
    rewrite (scan_digits_app _ _ Hall). cbn [scan_digits]. rewrite Hc.
    reflexivity. }
  split; [|exact Hs].
  rewrite stringToPositiveInt_unfold, Hs. cbn [at_nul].
  destruct (Z.eqb_spec (code c) 0); [contradiction | reflexivity].
Qed.

Lemma stringToPositiveInt_trailing_witness :
  stringToPositiveInt ("128" ++ String " " EmptyString)
  = inl (Exn_runtime_error not_positive_msg) /\
  snd (strtol ("128" ++ String " " EmptyString)) = String " " EmptyString.
Proof.
  apply (stringToPositiveInt_trailing "128" " " EmptyString);
    [reflexivity | discriminate | reflexivity | discriminate].
Defined.

(** X3. Numerals that are not positive are refused: a minus sign before
    any digit string, and any digit string whose value is zero, give the
    [runtime_error]. *)
Theorem stringToPositiveInt_not_positive (ds : string) :
  all_chars isdigit ds = true ->
  stringToPositiveInt (String "-" ds) = inl (Exn_runtime_error not_positive_msg) /\
  (decimal_value ds = 0 ->
   stringToPositiveInt ds = inl (Exn_runtime_error not_positive_msg)).
Proof.
  intros Hall. pose proof (decimal_value_nonneg ds Hall) as H0.
  assert (Hclamp : forall v, v <= 0 -> clamp_long v <= 0).
  { intros v Hv. pose proof (clamp_long_range v) as Hr.
    unfold clamp_long, LONG_MIN, LONG_MAX in *.
    destruct (Z.gtb_spec v (2 ^ 63 - 1)); [lia|].
    destruct (Z.ltb_spec v (- 2 ^ 63)); lia. }
  split.
  - rewrite stringToPositiveInt_unfold.
    assert (Hle : fst (strtol (String "-" ds)) <= 0).
    { unfold strtol.
      change (skip_space (String "-" ds)) with (String "-" ds). cbv iota beta.
      destruct (starts_with_digit ds); [|simpl; lia].
      rewrite (scan_digits_all ds Hall). cbn [fst].
      apply Hclamp. lia. }
    destruct (Z.gtb_spec (fst (strtol (String "-" ds))) 0); [lia|].
    rewrite andb_false_r. reflexivity.
  - intros Hz. rewrite stringToPositiveInt_unfold.
    assert (Hle : fst (strtol ds) <= 0).
    { destruct ds as [|c r]; [simpl; lia|].
      rewrite (strtol_digits _ Hall) by discriminate. cbn [fst].
      apply Hclamp. lia. }
    destruct (Z.gtb_spec (fst (strtol ds)) 0); [lia|].
    rewrite andb_false_r. reflexivity.
Qed.

Lemma stringToPositiveInt_not_positive_witness :
  stringToPositiveInt "-128" = inl (Exn_runtime_error not_positive_msg) /\
  stringToPositiveInt "000" = inl (Exn_runtime_error not_positive_msg).
Proof.
  split.
  - apply (proj1 (stringToPositiveInt_not_positive "128" eq_refl)).
  - apply (proj2 (stringToPositiveInt_not_positive "000" eq_refl)). reflexivity.
Defined.

(** X4. The argument is read in base 10 whatever its first digit: leading
    zeros change nothing, so a numeral such as 0200 is two hundred and is
    not taken as octal. *)
Theorem stringToPositiveInt_leading_zero (ds : string) :
  all_chars isdigit ds = true -> ds <> EmptyString ->
  stringToPositiveInt (String "0" ds) = stringToPositiveInt ds /\
  decimal_value (String "0" ds) = decimal_value ds.
Proof.
  intros Hall Hne.
  assert (Hv : decimal_value (String "0" ds) = decimal_value ds)
    by (cbn [decimal_value]; change (code "0" - 48) with 0; lia).
  split; [|exact Hv].
  rewrite !stringToPositiveInt_unfold.
  rewrite (strtol_digits (String "0" ds)), (strtol_digits ds Hall Hne), Hv.
  - reflexivity.
  - cbn [all_chars]. rewrite Hall. reflexivity.
  - discriminate.
Qed.

Lemma stringToPositiveInt_leading_zero_witness :
  stringToPositiveInt "0200" = stringToPositiveInt "200" /\
  decimal_value "0200" = decimal_value "200".
Proof.
  apply (stringToPositiveInt_leading_zero "200"); [reflexivity | discriminate].
Defined.

(** ** What a validated count is *)

(** X5. A count that passes [checkUsage] is a multiple of 128 between 128
    and 2^63 - 128.  The division by 16 that gives the number of outputs is
    therefore exact, and the number of outputs is a multiple of 8 and at
    least 8, so that the output array, eight bytes an element, is a whole
    number of 64-byte cache lines, like the input array. *)
Theorem checkUsage_count (argv : list string) (n : Z) :
  checkUsage argv = Some n ->
  128 <= n <= 2 ^ 63 - 128 /\ n mod 128 = 0 /\
  (n / 16) * 16 = n /\ 8 <= n / 16 /\ (n / 16) mod 8 = 0 /\
  (n * sizeof_unsigned_long) mod 64 = 0 /\
  ((n / 16) * 8) mod 64 = 0.
Proof.
  intros H. destruct (checkUsage_range _ _ H) as [Hr Hm].
  unfold LONG_MAX in Hr.
  apply Z.mod_divide in Hm; [|lia]. destruct Hm as [k Hk]. subst n.
  assert (Hq : k * 128 / 16 = k * 8)
    by (symmetry; apply (Z.div_unique _ 16 _ 0); lia).
  rewrite Hq. unfold sizeof_unsigned_long.
  repeat split; try lia.
  - apply Z.mod_divide; [lia|]. exists k. reflexivity.
  - apply Z.mod_divide; [lia|]. exists k. reflexivity.
  - apply Z.mod_divide; [lia|]. exists (k * 16). lia.
  - apply Z.mod_divide; [lia|]. exists k. lia.
Qed.

Lemma checkUsage_count_witness :
  128 <= 256 <= 2 ^ 63 - 128 /\ 256 mod 128 = 0 /\
  (256 / 16) * 16 = 256 /\ 8 <= 256 / 16 /\ (256 / 16) mod 8 = 0 /\
  (256 * sizeof_unsigned_long) mod 64 = 0 /\
  ((256 / 16) * 8) mod 64 = 0.
Proof.
  apply (checkUsage_count ["prog"; "256"]%string 256). reflexivity.
Defined.

(** ** The size register for every validated count *)

Lemma total_bytes_mod (n : Z) : total_bytes n = (n * 8) mod 2 ^ 32.
Proof.
  unfold total_bytes, to_unsigned, to_ulong, ULONG_MOD, UINT_MOD,
    sizeof_unsigned_long.
  apply Z.mod_mod_divide. exists (2 ^ 32). reflexivity.
Qed.

Lemma num_cls_of_kilo (cfg : config) (n : Z) (k : positive) :
  CL_BYTES cfg = 64 -> total_bytes n = Z.pos k * 1024 -> Z.pos k < 2 ^ 22 ->
  num_cls cfg n = Z.pos k * 16.
Proof.
  intros Hcl Htb Hk.
  destruct (float_of_Z_kilo k Hk) as (M & e & Hf & Hm & He & Hrel).
  unfold num_cls. rewrite Htb, Hcl, Hf, float_div_64 by assumption.
  assert (Hval : ceil_float (S754_finite false M (e - 6)) = Z.pos k * 16).
  { unfold ceil_float.
    assert (Hcases : e = -13 \/ e = -12 \/ e = -11 \/ e = -10 \/ e = -9 \/ e = -8 \/
                     e = -7 \/ e = -6 \/ e = -5 \/ e = -4 \/ e = -3 \/ e = -2 \/
                     e = -1 \/ e = 0 \/ e = 1 \/ e = 2 \/ e = 3 \/ e = 4 \/ e = 5 \/
                     e = 6 \/ e = 7 \/ e = 8) by lia.
    repeat (destruct Hcases as [->|Hcases]); try subst e;
      repeat (match type of Hrel with
              | context [2 ^ ?a] =>
                  let x := eval vm_compute in (2 ^ a) in
                  change (2 ^ a) with x in Hrel
              end);
      (match goal with
       | |- context [0 <=? ?c] =>
           let b := eval vm_compute in (0 <=? c) in change (0 <=? c) with b
       end);
      cbv iota;
      (match goal with
       | |- context [2 ^ ?a] =>
           let x := eval vm_compute in (2 ^ a) in change (2 ^ a) with x
       end);
      try (match goal with
           | |- context [- Z.pos M / ?D] =>
               replace (- Z.pos M) with ((- (Z.pos k * 16)) * D) by lia;
               rewrite Z.div_mul by lia
           end);
      lia. }
  rewrite Hval. unfold to_unsigned, UINT_MOD. apply Z.mod_small. lia.
Qed.

(** X6. With cache lines of 64 bytes, the value written to [MMIO_SIZE] for
    a count that passed [checkUsage] is [(n mod 2^29) / 8]: the number of
    cache lines of the input array taken modulo 2^26, since the byte count
    is kept in 32 bits.  It is the true number of cache lines exactly when
    the count is below 2^29, and counts that differ by 2^29 give the same
    value. *)
Theorem num_cls_of_validated_count (cfg : config) (argv : list string) (n : Z) :
  CL_BYTES cfg = 64 ->
  checkUsage argv = Some n ->
  num_cls cfg n = (n mod 2 ^ 29) / 8 /\
  (num_cls cfg n = ceil_div (n * sizeof_unsigned_long) 64 <-> n < 2 ^ 29) /\
  num_cls cfg (n + 2 ^ 29) = num_cls cfg n.
Proof.
  intros Hcl Hu. destruct (checkUsage_range _ _ Hu) as [Hr Hm].
  apply Z.mod_divide in Hm; [|lia]. destruct Hm as [k Hk]. subst n.
  assert (Hkpos : 1 <= k) by lia.
  assert (Hmod29 : (k * 128) mod 2 ^ 29 = (k mod 2 ^ 22) * 128).
  { change (2 ^ 29) with (2 ^ 22 * 128).
    rewrite Z.mul_mod_distr_r by lia. reflexivity. }
  assert (Htb : forall j, total_bytes ((k + j * 2 ^ 22) * 128) = (k mod 2 ^ 22) * 1024).
  { intros j. rewrite total_bytes_mod.
    replace ((k + j * 2 ^ 22) * 128 * 8) with ((k + j * 2 ^ 22) * 1024) by lia.
    change (2 ^ 32) with (2 ^ 22 * 1024).
    rewrite Z.mul_mod_distr_r by lia. rewrite Z.mod_add by lia. reflexivity. }
  assert (Hval : forall j, num_cls cfg ((k + j * 2 ^ 22) * 128) = (k mod 2 ^ 22) * 16).
  { intros j. pose proof (Z.mod_pos_bound k (2 ^ 22) ltac:(lia)) as Hb.
    destruct (k mod 2 ^ 22) as [|k'|k'] eqn:Hk'; try lia.
    - apply num_cls_of_zero_bytes. rewrite Htb. reflexivity.
    - apply num_cls_of_kilo; [exact Hcl | rewrite Htb; reflexivity | lia]. }
  assert (Hval0 : num_cls cfg (k * 128) = (k mod 2 ^ 22) * 16).
  { rewrite <- (Hval 0). f_equal. lia. }
  assert (Hexact : ceil_div (k * 128 * sizeof_unsigned_long) 64 = k * 16).
  { unfold ceil_div, sizeof_unsigned_long. symmetry.
    apply (Z.div_unique _ 64 _ 63); lia. }
  split; [|split].
  - rewrite Hval0, Hmod29. apply (Z.div_unique _ 8 _ 0); lia.
  - rewrite Hval0, Hexact. split.
    + intros Heq. assert (Hsmall : k mod 2 ^ 22 = k) by lia.
      pose proof (Z.mod_pos_bound k (2 ^ 22) ltac:(lia)). lia.
    + intros Hlt. rewrite Z.mod_small by lia. reflexivity.
  - rewrite Hval0, <- (Hval 1). f_equal. lia.
Qed.

Lemma num_cls_of_validated_count_witness :
  num_cls demo_config 256 = (256 mod 2 ^ 29) / 8 /\
  (num_cls demo_config 256 = ceil_div (256 * sizeof_unsigned_long) 64 <-> 256 < 2 ^ 29) /\
  num_cls demo_config (256 + 2 ^ 29) = num_cls demo_config 256.
Proof.
  apply (num_cls_of_validated_count demo_config ["prog"; "256"]%string 256);
    reflexivity.
Defined.

(** ** The arrays around the transfer *)

Lemma hw_run_app (t1 t2 : list event) :
  hw_run (t1 ++ t2) = fold_left hw_step t2 (hw_run t1).
Proof. unfold hw_run. apply fold_left_app. Qed.

Lemma hw_stores (h : hw) (b : buffer) (v : Z) (idx : list Z) :
  fold_left hw_step (map (fun i => EvStore b i v) idx) h = h.
Proof. induction idx as [|i idx IH]; [reflexivity | exact IH]. Qed.

Lemma hw_zero_polls (cfg : config) (k : nat) (h : hw) :
  fold_left hw_step (zero_polls cfg k) h = h.
Proof.
  induction k as [|k IH]; cbn [zero_polls]; [reflexivity|].
  rewrite fold_left_app. unfold zero_poll.
  destruct (SLEEP_WHILE_WAITING cfg); exact IH.
Qed.

Lemma hw_run_st_go (cfg : config) (dev : driver) (n : Z) (rp : replies) :
  hw_run (trace (st_go cfg dev initial n rp)) = hw_started cfg n rp.
Proof.
  rewrite trace_st_go. cbn [initial trace app].
  unfold prepare_events, start_events, hw_run.
  rewrite !fold_left_app, !hw_stores. reflexivity.
Qed.

Lemma hw_run_st_input (cfg : config) (dev : driver) (n : Z) (rp : replies) :
  hw_input (hw_run (trace (st_input cfg dev initial n rp))) = Some (rp_input rp).
Proof. reflexivity. Qed.

Lemma num_cls_mod_two_pow_29 (cfg : config) (n : Z) :
  CL_BYTES cfg = 64 -> 0 <= n -> n mod 128 = 0 ->
  num_cls cfg n = (n mod 2 ^ 29) / 8 /\
  outputs_of cfg (num_cls cfg n) = (n mod 2 ^ 29) / 16.
Proof.
  intros Hcl Hn Hm.
  apply Z.mod_divide in Hm; [|lia]. destruct Hm as [k Hk]. subst n.
  assert (Hmod29 : (k * 128) mod 2 ^ 29 = (k mod 2 ^ 22) * 128).
  { change (2 ^ 29) with (2 ^ 22 * 128).
    rewrite Z.mul_mod_distr_r by lia. reflexivity. }
  assert (Htb : total_bytes (k * 128) = (k mod 2 ^ 22) * 1024).
  { rewrite total_bytes_mod.
    replace (k * 128 * 8) with (k * 1024) by lia.
    change (2 ^ 32) with (2 ^ 22 * 1024).
    rewrite Z.mul_mod_distr_r by lia. reflexivity. }
  assert (Hval : num_cls cfg (k * 128) = (k mod 2 ^ 22) * 16).
  { pose proof (Z.mod_pos_bound k (2 ^ 22) ltac:(lia)) as Hb.
    destruct (k mod 2 ^ 22) as [|k'|k'] eqn:Hk'; try lia.
    - apply num_cls_of_zero_bytes. rewrite Htb. reflexivity.
    - apply num_cls_of_kilo; [exact Hcl | rewrite Htb; reflexivity | lia]. }
  rewrite Hmod29. split.
  - rewrite Hval. apply (Z.div_unique _ 8 _ 0); lia.
  - unfold outputs_of, sizeof_unsigned_long. rewrite Hval, Hcl.
    change (64 / 8) with 8.
    transitivity (k mod 2 ^ 22 * 8);
      [symmetry|]; apply (Z.div_unique _ 16 _ 0); lia.
Qed.

Section Pipeline.

Variable aggregate : list Z -> Z.
Variable cfg : config.
Variable dev : driver.
Hypothesis Hdev : pipeline_accelerator cfg aggregate dev.

Variable n : Z.
Variable rp : replies.
Hypothesis Hdistinct : rp_input rp <> rp_output rp.

Lemma touch_idle (t : list event) (c : call) (m : memory) (b : buffer) (i : Z) :
  c <> AfuRead MMIO_DONE -> touch dev t c m b i = m b i.
Proof. intros Hc. apply (proj1 Hdev). exact Hc. Qed.

(** The started transfer reads the input array and writes the first
    elements of the output array. *)
Lemma source_started : source (hw_started cfg n rp) = Some Input.
Proof.
  unfold source, hw_started, array_at. cbn [hw_job hw_input lives_at].
  rewrite Z.eqb_refl. reflexivity.
Qed.

Lemma destination_started (b : buffer) (j : Z) :
  destination cfg (hw_started cfg n rp) b j
  = buffer_eqb Output b && (0 <=? j) && (j <? outputs_of cfg (num_cls cfg n)).
Proof.
  unfold destination, hw_started, array_at.
  cbn [hw_job hw_input hw_output lives_at].
  destruct (Z.eqb_spec (rp_input rp) (rp_output rp)) as [Heq|_];
    [contradiction|].
  rewrite Z.eqb_refl. reflexivity.
Qed.

(** When the start trigger is written every input element is 1 and every
    output element is 0. *)
Lemma mem_st_armed_input (i : Z) :
  0 <= i < n -> mem (st_armed cfg dev initial n rp) Input i = 1.
Proof.
  intros Hi. unfold st_armed, st_call. cbn [mem].
  rewrite !touch_idle by discriminate.
  unfold st_ready, st_stores. cbn [mem].
  rewrite stores_mem_other by (left; discriminate).
  apply stores_mem_in. apply indices_In. exact Hi.
Qed.

Lemma mem_st_armed_output (j : Z) :
  0 <= j < n / 16 -> mem (st_armed cfg dev initial n rp) Output j = 0.
Proof.
  intros Hj. unfold st_armed, st_call. cbn [mem].
  rewrite !touch_idle by discriminate.
  unfold st_ready, st_stores. cbn [mem].
  apply stores_mem_in. apply indices_In. exact Hj.
Qed.

(** While the program polls, only the elements the transfer writes can
    change. *)
Lemma mem_polled_frame (b : buffer) (i : Z) (k : nat) :
  destination cfg (hw_started cfg n rp) b i = false ->
  forall s0,
    hw_run (trace s0) = hw_started cfg n rp ->
    mem (polled cfg dev k s0) b i = mem s0 b i.
Proof.
  intros Hd. induction k as [|k IH]; intros s0 Hs0; [reflexivity|].
  cbn [polled]. rewrite IH.
  - unfold st_emit, st_call. cbn [mem].
    apply (proj1 (proj2 Hdev)). rewrite Hs0. exact Hd.
  - unfold st_emit, st_call. cbn [trace].
    rewrite !hw_run_app, Hs0.
    destruct (SLEEP_WHILE_WAITING cfg); reflexivity.
Qed.

Lemma mem_st_last_poll (b : buffer) (i : Z) :
  destination cfg (hw_started cfg n rp) b i = false ->
  mem (st_last_poll cfg dev initial n rp) b i
  = mem (st_armed cfg dev initial n rp) b i.
Proof.
  intros Hd. unfold st_last_poll.
  rewrite (mem_polled_frame b i _ Hd) by apply hw_run_st_go.
  unfold st_go, st_call. cbn [mem]. apply touch_idle. discriminate.
Qed.

Lemma hw_run_st_last_poll :
  hw_run (trace (st_last_poll cfg dev initial n rp)) = hw_started cfg n rp.
Proof.
  unfold st_last_poll. rewrite trace_polled, hw_run_app, hw_zero_polls.
  apply hw_run_st_go.
Qed.

(** Once [MMIO_DONE] has read nonzero, the output elements within the
    size written to [MMIO_SIZE] hold the aggregation of sixteen ones, and
    those beyond it still hold 0. *)
Lemma mem_st_done_output (j : Z) :
  respond dev (trace (st_last_poll cfg dev initial n rp)) (AfuRead MMIO_DONE)
    = inr (rp_done rp) ->
  rp_done rp <> 0 ->
  0 <= n -> outputs_of cfg (num_cls cfg n) <= n / 16 ->
  0 <= j < n / 16 ->
  mem (st_done cfg dev initial n rp) Output j
  = if j <? outputs_of cfg (num_cls cfg n) then aggregate (repeat 1 16) else 0.
Proof.
  intros Hresp Hd Hn Houts Hj. unfold st_done, st_call. cbn [mem].
  assert (Hdest : destination cfg (hw_started cfg n rp) Output j
                  = (j <? outputs_of cfg (num_cls cfg n))).
  { rewrite destination_started. cbn [buffer_eqb andb].
    destruct (Z.leb_spec 0 j); [reflexivity | lia]. }
  destruct (Z.ltb_spec j (outputs_of cfg (num_cls cfg n))) as [Hin|Hout].
  - rewrite (proj2 (proj2 Hdev) _ _ _ Input Output j Hresp Hd).
    + f_equal. unfold group16.
      assert (Hbound : 16 * (n / 16) <= n) by (apply Z.mul_div_le; lia).
      assert (Hone : forall i, 0 <= i < n ->
                       mem (st_last_poll cfg dev initial n rp) Input i = 1).
      { intros i Hi. rewrite mem_st_last_poll.
        - apply mem_st_armed_input. exact Hi.
        - rewrite destination_started. reflexivity. }
      cbn [seq map repeat]. rewrite !Hone by lia. reflexivity.
    + rewrite hw_run_st_last_poll. apply source_started.
    + rewrite hw_run_st_last_poll. exact Hdest.
  - rewrite (proj1 (proj2 Hdev))
      by (rewrite hw_run_st_last_poll; exact Hdest).
    rewrite mem_st_last_poll by exact Hdest.
    apply mem_st_armed_output. exact Hj.
Qed.

End Pipeline.

Lemma demo_driver_pipeline : pipeline_accelerator demo_config sum_list demo_driver.
Proof.
  split; [|split].
  - intros t c m b i Hc.
    destruct c as [| | | |[] |]; try reflexivity. congruence.
  - intros t m b i Hd. unfold demo_driver. cbn [touch].
    destruct (2 <=? List.length (filter is_done_read t))%nat; [|reflexivity].
    rewrite Hd. reflexivity.
  - intros t m done src b j Hr Hd Hsrc Hdest.
    unfold demo_driver in *. cbn [touch respond] in *.
    destruct (2 <=? List.length (filter is_done_read t))%nat.
    + rewrite Hdest, Hsrc. reflexivity.
    + inversion Hr. congruence.
Qed.

Lemma demo_driver_fresh : fresh_addresses demo_driver.
Proof.
  intros t b n a Hr. unfold demo_driver in Hr. cbn [respond] in Hr.
  assert (Ha : 4096 + Z.max (address_or_0 (hw_input (hw_run t)))
                            (address_or_0 (hw_output (hw_run t))) = a)
    by congruence.
  clear Hr.
  destruct (hw_input (hw_run t)) as [x|], (hw_output (hw_run t)) as [y|];
    cbn [lives_at address_or_0] in *; split; try reflexivity;
    apply Z.eqb_neq; lia.
Qed.

(** A successful run, with the addresses of the two arrays. *)
Lemma run_success_addresses (cfg : config) (dev : driver) (fuel : nat)
      (name : string) (args : list string) (s' : state) :
  fresh_addresses dev ->
  run cfg dev fuel name args = (s', Done EXIT_SUCCESS) ->
  exists n rp,
    checkUsage (name :: args) = Some n /\
    128 <= n < UINT_MOD /\ n mod 128 = 0 /\ rp_done rp <> 0 /\
    respond dev (trace (st_last_poll cfg dev initial n rp)) (AfuRead MMIO_DONE)
      = inr (rp_done rp) /\
    rp_input rp <> rp_output rp /\
    s' = st_end cfg dev initial n rp.
Proof.
  intros Hfresh. unfold run, main.
  destruct (checkUsage (name :: args)) as [n|] eqn:Hu.
  - pose proof (checkUsage_range _ _ Hu) as [Hr Hm].
    rewrite try_catch_eq.
    destruct (try_block cfg dev fuel n initial) as [s1 o] eqn:E. cbn [fst snd].
    destruct o as [a|e|]; [|destruct (handler_message cfg dev e)|];
      intros H; inversion H; subst.
    apply try_block_Done_replies in E; [|lia].
    destruct E as (rp & _ & Hlt & Hd & Hresp & Hout & ->).
    exists n, rp. repeat split; auto; try lia.
    intros Heq. destruct (Hfresh _ _ _ _ Hout) as [Hin _].
    rewrite hw_run_st_input in Hin. cbn [lives_at] in Hin.
    rewrite Heq, Z.eqb_refl in Hin. discriminate Hin.
  - intros H. inversion H.
Qed.

(** C4.  With an accelerator that transfers what its registers say and
    aggregates sixteen ones to 16, and cache lines of 64 bytes: on every
    successful run all input elements hold 1 and all output elements 0 when
    the start trigger is written, and the values printed are, in order, 16
    for the outputs within the size written to [MMIO_SIZE], which are the
    first [(n mod 2^29) / 16], and 0 for the others.  For counts below
    2^29 every printed value is therefore 16.  From 2^29 on the size
    register holds the wrapped value and zeros are printed: the count
    536871040 = 2^29 + 128 passes the argument check, 16 cache lines are
    requested where 67108880 are needed, the run succeeds, and of the
    33554440 printed values the first 8 are 16 and all the others 0. *)
Theorem printed_outputs_follow_size_register :
  (forall (aggregate : list Z -> Z) (cfg : config) (dev : driver) (fuel : nat)
          (name : string) (args : list string) (s' : state),
      CL_BYTES cfg = 64 ->
      pipeline_accelerator cfg aggregate dev ->
      fresh_addresses dev ->
      aggregate (repeat 1 16) = 16 ->
      run cfg dev fuel name args = (s', Done EXIT_SUCCESS) ->
      exists n rp,
        checkUsage (name :: args) = Some n /\
        (forall i, 0 <= i < n -> mem (st_armed cfg dev initial n rp) Input i = 1) /\
        (forall j, 0 <= j < n / 16 ->
                   mem (st_armed cfg dev initial n rp) Output j = 0) /\
        In (EvAfu (AfuWrite MMIO_SIZE (num_cls cfg n)) (inr (rp_size rp)))
           (trace s') /\
        outputs_of cfg (num_cls cfg n) = (n mod 2 ^ 29) / 16 /\
        filter is_value_print (trace s')
        = map (fun j => EvCout (PrValue (printed_value cfg n j)))
              (indices (n / 16)) /\
        (n < 2 ^ 29 -> forall v, In (EvCout (PrValue v)) (trace s') -> v = 16) /\
        (2 ^ 29 <= n -> In (EvCout (PrValue 0)) (trace s'))) /\
  checkUsage ["prog"; "536871040"]%string = Some 536871040 /\
  num_cls demo_config 536871040 = 16 /\
  ceil_div (536871040 * sizeof_unsigned_long) (CL_BYTES demo_config) = 67108880 /\
  pipeline_accelerator demo_config sum_list demo_driver /\
  fresh_addresses demo_driver /\
  exists fuel s',
    run demo_config demo_driver fuel "prog" ["536871040"%string]
    = (s', Done EXIT_SUCCESS) /\
    filter is_value_print (trace s')
    = map (fun j => EvCout (PrValue (if j <? 8 then 16 else 0)))
          (indices 33554440) /\
    In (EvCout (PrValue 0)) (trace s').
Proof.
  assert (General :
    forall (aggregate : list Z -> Z) (cfg : config) (dev : driver) (fuel : nat)
           (name : string) (args : list string) (s' : state),
      CL_BYTES cfg = 64 ->
      pipeline_accelerator cfg aggregate dev ->
      fresh_addresses dev ->
      aggregate (repeat 1 16) = 16 ->
      run cfg dev fuel name args = (s', Done EXIT_SUCCESS) ->
      exists n rp,
        checkUsage (name :: args) = Some n /\
        (forall i, 0 <= i < n -> mem (st_armed cfg dev initial n rp) Input i = 1) /\
        (forall j, 0 <= j < n / 16 ->
                   mem (st_armed cfg dev initial n rp) Output j = 0) /\
        In (EvAfu (AfuWrite MMIO_SIZE (num_cls cfg n)) (inr (rp_size rp)))
           (trace s') /\
        outputs_of cfg (num_cls cfg n) = (n mod 2 ^ 29) / 16 /\
        filter is_value_print (trace s')
        = map (fun j => EvCout (PrValue (printed_value cfg n j)))
              (indices (n / 16)) /\
        (n < 2 ^ 29 -> forall v, In (EvCout (PrValue v)) (trace s') -> v = 16) /\
        (2 ^ 29 <= n -> In (EvCout (PrValue 0)) (trace s'))).
  { intros aggregate cfg dev fuel name args s' Hcl Hdev Hfresh Hagg Hrun.
    destruct (run_success_addresses _ _ _ _ _ _ Hfresh Hrun)
      as (n & rp & Hu & Hn & Hmod & Hd & Hresp & Hdist & ->).
    exists n, rp.
    destruct (num_cls_mod_two_pow_29 cfg n Hcl ltac:(lia) Hmod) as [_ Houts].
    assert (Hle : outputs_of cfg (num_cls cfg n) <= n / 16).
    { rewrite Houts. apply Z.div_le_mono; [lia|]. apply Z.mod_le; lia. }
    assert (Htrace := trace_st_end cfg dev initial n rp).
    cbn [initial trace app] in Htrace.
    assert (Hfilter :
      filter is_value_print (trace (st_end cfg dev initial n rp))
      = map (fun j => EvCout (PrValue (printed_value cfg n j))) (indices (n / 16))).
    { rewrite Htrace. unfold prepare_events, wait_events.
      rewrite !filter_app, !filter_value_print_stores, filter_value_print_polls,
        filter_value_print_prints.
      unfold start_events, finish_events. cbn [filter is_value_print app].
      rewrite !app_nil_r. apply map_ext_in. intros j Hj.
      apply indices_In in Hj.
      rewrite (mem_st_done_output aggregate cfg dev Hdev n rp Hdist j Hresp Hd)
        by lia.
      unfold printed_value. rewrite Hagg. reflexivity. }
    split; [exact Hu|].
    split; [intros i Hi; apply (mem_st_armed_input aggregate cfg dev Hdev); exact Hi|].
    split; [intros j Hj; apply (mem_st_armed_output aggregate cfg dev Hdev); exact Hj|].
    split.
    { rewrite Htrace. apply in_or_app. right. apply in_or_app. left.
      unfold start_events. right. right. left. reflexivity. }
    split; [exact Houts|]. split; [exact Hfilter|]. split.
    - intros Hsmall v Hin.
      assert (Hin' : In (EvCout (PrValue v))
                        (filter is_value_print (trace (st_end cfg dev initial n rp))))
        by (apply filter_In; split; [exact Hin | reflexivity]).
      rewrite Hfilter in Hin'. apply in_map_iff in Hin'.
      destruct Hin' as (j & Hj & Hjin). apply indices_In in Hjin.
      inversion Hj as [Hv]. unfold printed_value.
      rewrite Houts, Z.mod_small by lia.
      destruct (Z.ltb_spec j (n / 16)); [reflexivity | lia].
    - intros Hbig.
      assert (Hin' : In (EvCout (PrValue 0))
                        (filter is_value_print (trace (st_end cfg dev initial n rp)))).
      { rewrite Hfilter. apply in_map_iff. exists (n / 16 - 1). split.
        - unfold printed_value. rewrite Houts.
          assert (Hm : n mod 2 ^ 29 <= n - 2 ^ 29).
          { rewrite (Z.mod_eq n (2 ^ 29)) by lia.
            assert (1 <= n / 2 ^ 29) by (apply Z.div_le_lower_bound; lia).
            nia. }
          assert (Hq : (n mod 2 ^ 29) / 16 <= (n - 2 ^ 29) / 16)
            by (apply Z.div_le_mono; lia).
          assert (Hs : (n - 2 ^ 29) / 16 = n / 16 - 2 ^ 25).
          { replace (n - 2 ^ 29) with (n + (- 2 ^ 25) * 16) by lia.
            rewrite Z.div_add by lia. lia. }
          destruct (Z.ltb_spec (n / 16 - 1) (n mod 2 ^ 29 / 16));
            [lia | reflexivity].
        - apply indices_In.
          assert (1 <= n / 16) by (apply Z.div_le_lower_bound; lia). lia. }
      apply filter_In in Hin'. exact (proj1 Hin'). }
  split; [exact General|].
  assert (Hu : checkUsage ["prog"; "536871040"]%string = Some 536871040)
    by (vm_compute; reflexivity).
  assert (Hsize : num_cls demo_config 536871040 = 16).
  { rewrite (proj1 (num_cls_mod_two_pow_29 demo_config 536871040
                      eq_refl ltac:(lia) eq_refl)).
    reflexivity. }
  split; [exact Hu|]. split; [exact Hsize|]. split; [reflexivity|].
  split; [exact demo_driver_pipeline|]. split; [exact demo_driver_fresh|].
  set (fuel := S (Z.to_nat 536871040)).
  assert (Hs : snd (run demo_config demo_driver fuel "prog" ["536871040"%string])
               = Done EXIT_SUCCESS).
  { apply (run_total demo_config demo_driver 2 fuel "prog" ["536871040"%string]
             536871040).
    - exact demo_driver_never_throws.
    - exact (demo_driver_done_within demo_config).
    - exact Hu.
    - lia.
    - unfold fuel. lia.
    - unfold fuel. lia. }
  assert (Hrun : run demo_config demo_driver fuel "prog" ["536871040"%string]
                 = (fst (run demo_config demo_driver fuel "prog"
                             ["536871040"%string]),
                    Done EXIT_SUCCESS))
    by (rewrite <- Hs; apply surjective_pairing).
  destruct (General sum_list demo_config demo_driver fuel "prog"%string
              ["536871040"%string] _ eq_refl demo_driver_pipeline
              demo_driver_fresh eq_refl Hrun)
    as (n & rp & Hu' & _ & _ & _ & Houts & Hfilter & _ & Hzero).
  rewrite Hu in Hu'. inversion Hu'. subst n.
  exists fuel, (fst (run demo_config demo_driver fuel "prog" ["536871040"%string])).
  split; [exact Hrun|]. split.
  - rewrite Hfilter.
    replace (536871040 / 16) with 33554440 by reflexivity.
    apply map_ext. intros j. unfold printed_value. rewrite Houts.
    replace (536871040 mod 2 ^ 29 / 16) with 8 by reflexivity.
    reflexivity.
  - apply Hzero. lia.
Qed.

Lemma printed_outputs_follow_size_register_witness :
  exists n rp,
    checkUsage ["prog"; "128"]%string = Some n /\
    In (EvAfu (AfuWrite MMIO_SIZE (num_cls demo_config n)) (inr (rp_size rp)))
       (trace (fst (run demo_config demo_driver 200 "prog" ["128"%string]))) /\
    filter is_value_print
           (trace (fst (run demo_config demo_driver 200 "prog" ["128"%string])))
    = map (fun j => EvCout (PrValue (printed_value demo_config n j)))
          (indices (n / 16)).
Proof.
  assert (Hs : snd (run demo_config demo_driver 200 "prog" ["128"%string])
               = Done EXIT_SUCCESS) by (vm_compute; reflexivity).
  destruct (proj1 printed_outputs_follow_size_register
              sum_list demo_config demo_driver 200%nat "prog"%string ["128"%string]
              (fst (run demo_config demo_driver 200 "prog" ["128"%string])))
    as (n & rp & Hu & _ & _ & Hsz & _ & Hf & _).
  - reflexivity.
  - exact demo_driver_pipeline.
  - exact demo_driver_fresh.
  - reflexivity.
  - rewrite <- Hs. apply surjective_pairing.
  - exists n, rp. split; [exact Hu|]. split; [exact Hsz | exact Hf].
Defined.

(** ** The loops of [main] together *)

(** X7. The two initialisation loops, one after the other as in [main]:
    for counts below 2^32 they complete, first storing 1 to the input
    elements in ascending order and then 0 to the output elements in
    ascending order, and afterwards exactly the elements within the two
    counts have changed: nothing is written beyond either array, and the
    output loop leaves the input array as the input loop made it. *)
Theorem init_loops_compose (fuel : nat) (n m : Z) (s : state) :
  0 <= n < 2 ^ 32 -> 0 <= m < 2 ^ 32 ->
  (Z.to_nat n < fuel)%nat -> (Z.to_nat m < fuel)%nat ->
  exists s',
    (init_loop fuel Input n 1 0 ;; init_loop fuel Output m 0 0) s = (s', Done tt) /\
    trace s' = trace s ++ map (fun i => EvStore Input i 1) (indices n)
                       ++ map (fun j => EvStore Output j 0) (indices m) /\
    (forall i, mem s' Input i = if (0 <=? i) && (i <? n) then 1 else mem s Input i) /\
    (forall j, mem s' Output j = if (0 <=? j) && (j <? m) then 0 else mem s Output j).
Proof.
  intros Hn Hm Hfn Hfm.
  exists (st_stores (st_stores s Input (indices n) 1) Output (indices m) 0).
  split; [|split; [|split]].
  - rewrite (bind_Done _ _ s _ tt (init_loop_ok fuel Input n 1 s Hn Hfn)).
    apply init_loop_ok; assumption.
  - unfold st_stores. cbn [trace]. rewrite <- app_assoc. reflexivity.
  - intros i. unfold st_stores. cbn [mem].
    rewrite stores_mem_other by (left; discriminate).
    destruct (Z.leb_spec 0 i); destruct (Z.ltb_spec i n); cbn [andb].
    + apply stores_mem_in. apply indices_In. lia.
    + apply stores_mem_other. right. rewrite indices_In. lia.
    + apply stores_mem_other. right. rewrite indices_In. lia.
    + apply stores_mem_other. right. rewrite indices_In. lia.
  - intros j. unfold st_stores. cbn [mem].
    destruct (Z.leb_spec 0 j); destruct (Z.ltb_spec j m); cbn [andb].
    + apply stores_mem_in. apply indices_In. lia.
    + rewrite stores_mem_other by (right; rewrite indices_In; lia).
      apply stores_mem_other. left. discriminate.
    + rewrite stores_mem_other by (right; rewrite indices_In; lia).
      apply stores_mem_other. left. discriminate.
    + rewrite stores_mem_other by (right; rewrite indices_In; lia).
      apply stores_mem_other. left. discriminate.
Qed.

Lemma init_loops_compose_witness :
  exists s',
    (init_loop 5 Input 4 1 0 ;; init_loop 5 Output 2 0 0) initial = (s', Done tt) /\
    trace s' = trace initial ++ map (fun i => EvStore Input i 1) (indices 4)
                             ++ map (fun j => EvStore Output j 0) (indices 2) /\
    (forall i, mem s' Input i = if (0 <=? i) && (i <? 4) then 1 else mem initial Input i) /\
    (forall j, mem s' Output j = if (0 <=? j) && (j <? 2) then 0 else mem initial Output j).
Proof.
  apply (init_loops_compose 5 4 2 initial); simpl; lia.
Defined.

Lemma print_loop_mem (fuel : nat) (bound : Z) :
  forall i s, mem (fst (print_loop fuel bound i s)) = mem s.
Proof.
  induction fuel as [|fuel IH]; intros i s; cbn [print_loop]; [reflexivity|].
  destruct (i <? bound); [|reflexivity].
  unfold bind at 1. unfold load at 1. unfold bind at 1. unfold cout, emit at 1.
  rewrite IH. reflexivity.
Qed.

Lemma print_loop_diverges (fuel : nat) (bound : Z) :
  UINT_MOD <= bound ->
  forall i s, 0 <= i < UINT_MOD ->
    snd (print_loop fuel bound i s) = OutOfFuel /\
    exists evs, trace (fst (print_loop fuel bound i s)) = trace s ++ evs /\
                List.length evs = (2 * fuel)%nat.
Proof.
  intros Hb. induction fuel as [|fuel IH]; intros i s Hi.
  - split; [reflexivity|]. exists []. simpl. rewrite app_nil_r. auto.
  - cbn [print_loop]. destruct (Z.ltb_spec i bound) as [Hlt|Hge]; [|lia].
    unfold bind at 1 3. unfold load at 1 2. unfold bind at 1 2.
    unfold cout, emit at 1 2.
    match goal with
    | |- context [print_loop fuel bound ?j ?s0] =>
        destruct (IH j s0 (to_unsigned_range _)) as (Ho & evs & Ht & Hl)
    end.
    split; [exact Ho|].
    exists (EvLoad Output i (mem s Output i) :: EvCout (PrValue (mem s Output i)) :: evs).
    rewrite Ht. cbn [trace]. rewrite <- !app_assoc. split; [reflexivity|].
    cbn [List.length]. lia.
Qed.

(** X8. The print loop only reads: it never changes the arrays.  For a
    count below 2^32 it ends after exactly that many iterations, having
    read and printed the output elements once each in ascending order; for
    a count of 2^32 or more its 32-bit counter wraps and it never ends,
    printing on for as long as it is left to run. *)
Theorem print_loop_behaviour (bound : Z) (s : state) :
  (forall fuel, mem (fst (print_loop fuel bound 0 s)) = mem s) /\
  (0 <= bound < 2 ^ 32 ->
   (forall fuel, (Z.to_nat bound < fuel)%nat ->
      print_loop fuel bound 0 s
      = (st_emit s (print_events (mem s) (indices bound)), Done tt)) /\
   (forall fuel, (fuel <= Z.to_nat bound)%nat ->
      snd (print_loop fuel bound 0 s) = OutOfFuel)) /\
  (2 ^ 32 <= bound ->
   forall fuel,
     snd (print_loop fuel bound 0 s) = OutOfFuel /\
     exists evs, trace (fst (print_loop fuel bound 0 s)) = trace s ++ evs /\
                 List.length evs = (2 * fuel)%nat).
Proof.
  split; [intros fuel; apply print_loop_mem|]. split.
  - intros Hb. split.
    + intros fuel Hf. apply print_loop_ok; assumption.
    + intros fuel Hf.
      rewrite (print_loop_cases fuel bound (proj2 Hb) 0 s) by lia.
      rewrite Z.sub_0_r.
      destruct (Nat.ltb_spec (Z.to_nat bound) fuel); [lia | reflexivity].
  - intros Hb fuel. apply print_loop_diverges; [exact Hb | unfold UINT_MOD; lia].
Qed.

Lemma print_loop_behaviour_witness :
  print_loop 3 2 0 initial
  = (st_emit initial (print_events (mem initial) (indices 2)), Done tt) /\
  snd (print_loop 50 (2 ^ 32) 0 initial) = OutOfFuel.
Proof.
  split.
  - apply (proj1 (proj1 (proj2 (print_loop_behaviour 2 initial)) ltac:(lia))).
    simpl. lia.
  - apply (proj2 (proj2 (print_loop_behaviour (2 ^ 32) initial)) ltac:(lia) 50%nat).
Defined.

(** ** The life cycle of the arrays *)

Lemma life_run_app (q : life) (t1 t2 : list event) :
  life_run q (t1 ++ t2) =
  match life_run q t1 with
  | Some q1 => life_run q1 t2
  | None => None
  end.
Proof.
  revert q. induction t1 as [|e t1 IH]; intros q; simpl; [reflexivity|].
  destruct (life_step q e); [apply IH | reflexivity].
Qed.

Lemma keeps_ret {A : Type} (a : A) (q0 : life) (Q : A -> life -> Prop) :
  Q a q0 -> keeps q0 (ret a) Q.
Proof.
  intros HQ s. exists [], q0. simpl. rewrite app_nil_r. auto.
Qed.

Lemma keeps_out_of_fuel {A : Type} (q0 : life) (Q : A -> life -> Prop) :
  l_over q0 = None -> l_output q0 <> Freed -> keeps q0 (@out_of_fuel A) Q.
Proof.
  intros Ho Hf s. exists [], q0. simpl. rewrite app_nil_r. auto.
Qed.

Lemma keeps_bind {A B : Type} (q0 : life) (m : M A) (f : A -> M B)
      (Q : A -> life -> Prop) (R : B -> life -> Prop) :
  keeps q0 m Q ->
  (forall a q, Q a q -> keeps q (f a) R) ->
  keeps q0 (bind m f) R.
Proof.
  intros Hm Hf s. destruct (Hm s) as (e1 & q1 & Ht & Hr & Ho).
  unfold bind. destruct (m s) as [s1 [a|e|]]; cbn [fst snd] in *.
  - destruct (Hf a q1 Ho s1) as (e2 & q2 & Ht2 & Hr2 & Ho2).
    exists (e1 ++ e2), q2. rewrite Ht2, Ht, app_assoc, life_run_app, Hr. auto.
  - exists e1, q1. auto.
  - exists e1, q1. auto.
Qed.

Lemma keeps_emit (q0 q1 : life) (e : event) (Q : unit -> life -> Prop) :
  life_step q0 e = Some q1 -> Q tt q1 -> keeps q0 (emit e) Q.
Proof.
  intros Hs HQ s. exists [e], q1. simpl. rewrite Hs. auto.
Qed.

Lemma keeps_store (q0 : life) (b : buffer) (i v : Z) :
  l_thrown q0 = false -> l_over q0 = None -> is_live (slot_of q0 b) = true ->
  keeps q0 (store b i v) (fun _ q => q = q0).
Proof.
  intros Ht Ho Hl s. exists [EvStore b i v], q0. simpl.
  unfold life_step. rewrite Ho, Ht, Hl. auto.
Qed.

Lemma keeps_load_output (q0 : life) (i : Z) :
  l_thrown q0 = false -> l_over q0 = None -> is_live (l_output q0) = true ->
  keeps q0 (load Output i) (fun _ q => q = q0).
Proof.
  intros Ht Ho Hl s. exists [EvLoad Output i (mem s Output i)], q0. simpl.
  unfold life_step. rewrite Ho, Ht. cbn [slot_of]. rewrite Hl. auto.
Qed.

Lemma keeps_afu_call (dev : driver) (q0 : life) (c : call) (Q : Z -> life -> Prop) :
  l_thrown q0 = false -> l_over q0 = None ->
  (forall r, exists q1,
      after_call q0 c r = Some q1 /\
      match r with
      | inr v => Q v q1
      | inl _ => l_over q1 = None /\ l_output q1 <> Freed
      end) ->
  keeps q0 (afu_call dev c) Q.
Proof.
  intros Ht Ho H s. rewrite afu_call_eq. cbn [fst snd].
  destruct (H (respond dev (trace s) c)) as (q1 & Ha & Hr).
  exists [EvAfu c (respond dev (trace s) c)],
         (match respond dev (trace s) c with
          | inr _ => q1
          | inl _ => set_thrown q1
          end).
  split; [reflexivity|]. split.
  - simpl. unfold life_step. rewrite Ho, Ht, Ha. reflexivity.
  - destruct (respond dev (trace s) c); [|exact Hr].
    destruct Hr as [Hr1 Hr2]. split; assumption.
Qed.

Lemma keeps_init_loop (fuel : nat) (b : buffer) (bound v : Z) (q0 : life) :
  l_thrown q0 = false -> l_over q0 = None -> is_live (slot_of q0 b) = true ->
  l_output q0 <> Freed ->
  forall i, keeps q0 (init_loop fuel b bound v i) (fun _ q => q = q0).
Proof.
  intros Ht Ho Hl Hf.
  induction fuel as [|fuel IH]; intros i; cbn [init_loop].
  - apply keeps_out_of_fuel; assumption.
  - destruct (i <? bound).
    + eapply keeps_bind; [apply keeps_store; assumption|].
      intros _ q ->. apply IH.
    + apply keeps_ret. reflexivity.
Qed.

Lemma keeps_wait_done (cfg : config) (dev : driver) (fuel : nat) (q0 : life) :
  l_thrown q0 = false -> l_over q0 = None -> both_live q0 = true ->
  keeps q0 (wait_done cfg dev fuel) (fun _ q => q = q0).
Proof.
  intros Ht Ho Hl.
  assert (Hf : l_output q0 <> Freed).
  { unfold both_live in Hl. apply andb_true_iff in Hl. destruct Hl as [_ Hl].
    intros Heq. rewrite Heq in Hl. discriminate Hl. }
  induction fuel as [|fuel IH]; cbn [wait_done].
  - apply keeps_out_of_fuel; assumption.
  - apply keeps_bind with (Q := fun _ q => q = q0).
    + apply keeps_afu_call; try assumption.
      intros r. exists q0. cbn [after_call]. rewrite Hl.
      split; [reflexivity|]. destruct r; auto.
    + intros done q ->. destruct (done =? 0).
      * apply keeps_bind with (Q := fun _ q => q = q0); [|intros _ q ->; apply IH].
        destruct (SLEEP_WHILE_WAITING cfg).
        -- apply keeps_emit with (q1 := q0); [|reflexivity].
           unfold life_step. rewrite Ho, Ht, Hl. reflexivity.
        -- apply keeps_ret. reflexivity.
      * apply keeps_ret. reflexivity.
Qed.

Lemma keeps_print_loop (fuel : nat) (bound : Z) (q0 : life) :
  l_thrown q0 = false -> l_over q0 = None -> is_live (l_output q0) = true ->
  forall i, keeps q0 (print_loop fuel bound i) (fun _ q => q = q0).
Proof.
  intros Ht Ho Hl.
  assert (Hf : l_output q0 <> Freed)
    by (intros Heq; rewrite Heq in Hl; discriminate Hl).
  induction fuel as [|fuel IH]; intros i; cbn [print_loop].
  - apply keeps_out_of_fuel; assumption.
  - destruct (i <? bound).
    + eapply keeps_bind; [apply keeps_load_output; assumption|].
      intros v q ->.
      apply keeps_bind with (Q := fun _ q => q = q0); [|intros _ q ->; apply IH].
      apply keeps_emit with (q1 := q0); [|reflexivity].
      unfold cout, life_step. rewrite Ho, Ht, Hl. reflexivity.
    + apply keeps_ret. reflexivity.
Qed.

(** The states of the automaton along the [try] block. *)
Lemma keeps_try_block (cfg : config) (dev : driver) (fuel : nat) (n : Z) :
  keeps life_init (try_block cfg dev fuel n)
        (fun r q => r = EXIT_SUCCESS /\
                    q = {| l_input := Freed; l_output := Freed;
                           l_thrown := false; l_over := Some Success |}).
Proof.
  unfold try_block, cout.
  apply keeps_bind with (Q := fun _ q => q = life_init).
  { apply keeps_afu_call; try reflexivity.
    intros r. exists life_init. split; [reflexivity|].
    destruct r; [split; [reflexivity | discriminate] | reflexivity]. }
  intros _ q ->.
  apply keeps_bind with (Q := fun _ q => q = life_init).
  { apply keeps_emit with (q1 := life_init); reflexivity. }
  intros _ q ->.
  apply keeps_bind with (Q := fun _ q => q = life_init).
  { apply keeps_afu_call; try reflexivity.
    intros r. exists life_init. split; [reflexivity|].
    destruct r; [split; [reflexivity | discriminate] | reflexivity]. }
  intros hz q ->.
  apply keeps_bind with (Q := fun _ q => q = life_init).
  { apply keeps_emit with (q1 := life_init); reflexivity. }
  intros _ q ->.
  apply keeps_bind
    with (Q := fun a q => q = {| l_input := Live a; l_output := Unallocated;
                                 l_thrown := false; l_over := None |}).
  { apply keeps_afu_call; try reflexivity.
    intros [e|a]; eexists; (split; [reflexivity|]);
      [split; [reflexivity | discriminate] | reflexivity]. }
  intros input q ->.
  apply keeps_bind
    with (Q := fun a q => q = {| l_input := Live input; l_output := Live a;
                                 l_thrown := false; l_over := None |}).
  { apply keeps_afu_call; try reflexivity.
    intros [e|a]; eexists; (split; [reflexivity|]);
      [split; [reflexivity | discriminate] | reflexivity]. }
  intros output q ->.
  set (q2 := {| l_input := Live input; l_output := Live output;
                l_thrown := false; l_over := None |}).
  apply keeps_bind with (Q := fun _ q => q = q2).
  { apply keeps_init_loop; try reflexivity. discriminate. }
  intros _ q ->.
  apply keeps_bind with (Q := fun _ q => q = q2).
  { apply keeps_init_loop; try reflexivity. discriminate. }
  intros _ q ->.
  apply keeps_bind with (Q := fun _ q => q = q2).
  { apply keeps_afu_call; try reflexivity.
    intros r. exists q2. cbn [after_call q2 l_input l_output live_at is_live].
    rewrite Z.eqb_refl. split; [reflexivity|].
    destruct r; [split; [reflexivity | discriminate] | reflexivity]. }
  intros _ q ->.
  apply keeps_bind with (Q := fun _ q => q = q2).
  { apply keeps_afu_call; try reflexivity.
    intros r. exists q2. cbn [after_call q2 l_input l_output live_at is_live].
    rewrite Z.eqb_refl. split; [reflexivity|].
    destruct r; [split; [reflexivity | discriminate] | reflexivity]. }
  intros _ q ->.
  apply keeps_bind with (Q := fun _ q => q = q2).
  { apply keeps_afu_call; try reflexivity.
    intros r. exists q2. split; [reflexivity|].
    destruct r; [split; [reflexivity | discriminate] | reflexivity]. }
  intros _ q ->.
  apply keeps_bind with (Q := fun _ q => q = q2).
  { apply keeps_afu_call; try reflexivity.
    intros r. exists q2. split; [reflexivity|].
    destruct r; [split; [reflexivity | discriminate] | reflexivity]. }
  intros _ q ->.
  apply keeps_bind with (Q := fun _ q => q = q2).
  { apply keeps_wait_done; reflexivity. }
  intros _ q ->.
  apply keeps_bind with (Q := fun _ q => q = q2).
  { apply keeps_print_loop; reflexivity. }
  intros _ q ->.
  set (q3 := {| l_input := Freed; l_output := Live output;
                l_thrown := false; l_over := None |}).
  apply keeps_bind with (Q := fun _ q => q = q3).
  { apply keeps_afu_call; try reflexivity.
    intros [e|a]; eexists; (split; [reflexivity|]);
      [split; [reflexivity | discriminate] | reflexivity]. }
  intros _ q ->.
  set (q4 := {| l_input := Freed; l_output := Freed;
                l_thrown := false; l_over := None |}).
  apply keeps_bind with (Q := fun _ q => q = q4).
  { apply keeps_afu_call; try reflexivity.
    intros [e|a]; eexists; (split; [reflexivity|]);
      [split; [reflexivity | discriminate] | reflexivity]. }
  intros _ q ->.
  apply keeps_bind with (Q := fun _ q => q = set_over q4 Success).
  { apply keeps_emit with (q1 := set_over q4 Success); reflexivity. }
  intros _ q ->.
  apply keeps_ret. split; reflexivity.
Qed.

Lemma run_life (cfg : config) (dev : driver) (fuel : nat)
      (name : string) (args : list string) :
  exists q,
    life_run life_init (trace (fst (run cfg dev fuel name args))) = Some q /\
    match snd (run cfg dev fuel name args) with
    | Done code =>
        (code = EXIT_SUCCESS /\ l_over q = Some Success /\
         l_input q = Freed /\ l_output q = Freed) \/
        (code = EXIT_FAILURE /\
         (l_over q = Some Usage \/ l_over q = Some Failure) /\
         l_output q <> Freed)
    | _ => l_over q = None /\ l_output q <> Freed
    end.
Proof.
  unfold run, main. destruct (checkUsage (name :: args)) as [n|].
  - destruct (keeps_try_block cfg dev fuel n initial) as (evs & q & Ht & Hr & Ho).
    cbn [initial trace app] in Ht. rewrite try_catch_eq.
    destruct (snd (try_block cfg dev fuel n initial)) as [r|e|] eqn:Hout;
      rewrite ?Hout.
    + exists q. rewrite Ht. split; [exact Hr|].
      destruct Ho as [-> ->]. left. auto.
    + destruct (handler_message cfg dev e) as [msg|].
      * destruct Ho as [Hov Hf].
        exists (set_over q Failure). unfold st_emit. cbn [fst snd trace].
        rewrite Ht, life_run_app, Hr. split.
        -- cbn [life_run]. unfold life_step. rewrite Hov. reflexivity.
        -- right. split; [reflexivity|]. split; [right; reflexivity | exact Hf].
      * exists q. rewrite Ht, Hout. split; [exact Hr | exact Ho].
    + exists q. rewrite Ht. split; [exact Hr | exact Ho].
  - exists (set_over life_init Usage). split; [reflexivity|].
    right. split; [reflexivity|]. split; [left; reflexivity | discriminate].
Qed.

(** *** What acceptance by the automaton implies *)

Lemma life_step_running (q q' : life) (e : event) :
  life_step q e = Some q' -> l_over q = None.
Proof.
  unfold life_step. destruct (l_over q); [discriminate | reflexivity].
Qed.

Lemma life_run_over (q q' : life) (t : list event) :
  life_run q t = Some q' -> l_over q <> None -> t = [] /\ q' = q.
Proof.
  destruct t as [|e t]; cbn [life_run]; intros H Ho.
  - inversion H. auto.
  - destruct (life_step q e) eqn:Hs; [|discriminate H].
    apply life_step_running in Hs. contradiction.
Qed.

Lemma set_slot_other (q : life) (b b' : buffer) (x : slot) :
  b' <> b -> slot_of (set_slot q b' x) b = slot_of q b.
Proof. destruct b, b'; intros H; try reflexivity; congruence. Qed.

Lemma set_slot_same (q : life) (b : buffer) (x : slot) :
  slot_of (set_slot q b x) b = x.
Proof. destruct b; reflexivity. Qed.

(** How one accepted event changes the slot of an array. *)
Lemma life_step_slot (q q' : life) (e : event) (b : buffer) :
  life_step q e = Some q' ->
  slot_of q' b = slot_of q b \/
  (exists n a, e = EvAfu (AfuMalloc b n) (inr a) /\
               slot_of q b = Unallocated /\ slot_of q' b = Live a) \/
  (exists v a, e = EvAfu (AfuFree b) (inr v) /\
               slot_of q b = Live a /\ slot_of q' b = Freed).
Proof.
  unfold life_step. destruct (l_over q); [discriminate|].
  destruct e as [c r|b0 i v|b0 i v|ms|p|msg];
    try (destruct (l_thrown q); [discriminate|]).
  - destruct (after_call q c r) as [q1|] eqn:Ha; [|discriminate].
    intros H.
    assert (Hq : slot_of q' b = slot_of q1 b)
      by (destruct r; inversion H; subst; destruct b; reflexivity).
    rewrite Hq. clear H Hq. revert Ha. unfold after_call.
    destruct c as [u| |b1 n|a d|a|b1].
    + destruct (both_unallocated q); intros H; inversion H; auto.
    + destruct (both_unallocated q); intros H; inversion H; auto.
    + destruct (slot_of q b1) eqn:Hb1; try discriminate.
      intros H; inversion H; subst.
      destruct r as [e|a]; [left; reflexivity|].
      destruct (buffer_eqb b1 b) eqn:Hbb.
      * assert (b1 = b) by (destruct b1, b; try discriminate; reflexivity).
        subst b1. right. left. exists n, a. rewrite set_slot_same. auto.
      * left. apply set_slot_other. intros ->. destruct b; discriminate.
    + destruct a;
        match goal with
        | |- (if ?c then _ else _) = _ -> _ =>
            destruct c; intros H; inversion H; auto
        end.
    + destruct (both_live q); intros H; inversion H; auto.
    + destruct (slot_of q b1) as [|a1|] eqn:Hb1; try discriminate.
      intros H; inversion H; subst.
      destruct r as [e|v]; [left; reflexivity|].
      destruct (buffer_eqb b1 b) eqn:Hbb.
      * assert (b1 = b) by (destruct b1, b; try discriminate; reflexivity).
        subst b1. right. right. exists v, a1. rewrite set_slot_same. auto.
      * left. apply set_slot_other. intros ->. destruct b; discriminate.
  - destruct (is_live (slot_of q b0)); intros H; inversion H; auto.
  - destruct (is_live (slot_of q b0)); intros H; inversion H; auto.
  - destruct (both_live q); intros H; inversion H; auto.
  - destruct p as [|hz|v|s].
    + destruct (both_unallocated q); intros H; inversion H; auto.
    + destruct (both_unallocated q); intros H; inversion H; auto.
    + destruct (is_live (l_output q)); intros H; inversion H; auto.
    + destruct (both_unallocated q);
        [|destruct (both_freed q)]; intros H; inversion H; subst;
        left; destruct b; reflexivity.
  - intros H. inversion H. left. destruct b; reflexivity.
Qed.

Lemma life_run_freed (b : buffer) (t : list event) :
  forall q q', life_run q t = Some q' -> slot_of q b = Freed -> slot_of q' b = Freed.
Proof.
  induction t as [|e t IH]; intros q q' H Hf; cbn [life_run] in H.
  - inversion H. subst. exact Hf.
  - destruct (life_step q e) as [q1|] eqn:Hs; [|discriminate H].
    apply (IH q1 q' H).
    destruct (life_step_slot q q1 e b Hs) as [Heq|[(n & a & _ & Hu & _)|(v & a & _ & _ & Hfr)]].
    + rewrite Heq. exact Hf.
    + rewrite Hu in Hf. discriminate Hf.
    + exact Hfr.
Qed.

Lemma life_run_live (b : buffer) (a : Z) (t : list event) :
  forall q q',
    life_run q t = Some q' -> slot_of q' b = Live a ->
    slot_of q b = Live a \/ exists n, In (EvAfu (AfuMalloc b n) (inr a)) t.
Proof.
  induction t as [|e t IH]; intros q q' H Hl; cbn [life_run] in H.
  - inversion H. subst. left. exact Hl.
  - destruct (life_step q e) as [q1|] eqn:Hs; [|discriminate H].
    destruct (IH q1 q' H Hl) as [Hq1|[n Hin]].
    + destruct (life_step_slot q q1 e b Hs)
        as [Heq|[(n & a' & He & _ & Hla)|(v & a' & _ & _ & Hfr)]].
      * left. rewrite <- Heq. exact Hq1.
      * rewrite Hla in Hq1. inversion Hq1. subst a'.
        right. exists n. left. exact He.
      * rewrite Hfr in Hq1. discriminate Hq1.
    + right. exists n. right. exact Hin.
Qed.

(** What an accepted event needs of the arrays. *)
Lemma life_step_needs (q q' : life) (e : event) :
  life_step q e = Some q' ->
  l_thrown q = false \/ (exists msg, e = EvCerr msg).
Proof.
  unfold life_step. destruct (l_over q); [discriminate|].
  destruct e; try (destruct (l_thrown q); [discriminate | auto]).
  intros _. right. eexists. reflexivity.
Qed.

Lemma life_step_requires (q q' : life) (e : event) :
  life_step q e = Some q' ->
  match e with
  | EvStore b _ _ | EvLoad b _ _ => exists a, slot_of q b = Live a
  | EvAfu (AfuWrite MMIO_RD_ADDR d) _ =>
      l_input q = Live d /\ exists a, l_output q = Live a
  | EvAfu (AfuWrite MMIO_WR_ADDR d) _ =>
      (exists a, l_input q = Live a) /\ l_output q = Live d
  | EvAfu (AfuWrite _ _) _ | EvAfu (AfuRead _) _ =>
      (exists a, l_input q = Live a) /\ (exists a, l_output q = Live a)
  | EvAfu (AfuFree b) _ => exists a, slot_of q b = Live a
  | EvAfu (AfuMalloc b _) _ => slot_of q b = Unallocated
  | _ => True
  end.
Proof.
  unfold life_step. destruct (l_over q); [discriminate|].
  destruct e as [c r|b0 i v|b0 i v|ms|p|msg]; try exact (fun _ => I);
    try (destruct (l_thrown q); [discriminate|]).
  - destruct (after_call q c r) as [q1|] eqn:Ha; [|discriminate].
    intros _. revert Ha. unfold after_call, both_live, live_at, is_live.
    destruct c as [u| |b1 n|a d|a|b1]; try exact (fun _ => I).
    + destruct (slot_of q b1); try discriminate. reflexivity.
    + destruct a; destruct (l_input q) as [|ai|]; destruct (l_output q) as [|ao|];
        cbv beta iota delta [andb];
        try (match goal with
             | |- context [?x =? d] => destruct (Z.eqb_spec x d)
             end);
        intros H; try discriminate H; subst;
        (split; [try reflexivity; eexists; reflexivity
                | try reflexivity; eexists; reflexivity]).
    + destruct (l_input q) as [|ai|]; destruct (l_output q) as [|ao|];
        cbv beta iota delta [andb]; intros H; try discriminate H;
        split; eexists; reflexivity.
    + destruct (slot_of q b1); try discriminate. intros _. eexists. reflexivity.
  - destruct (slot_of q b0); cbn; try discriminate. intros _. eexists. reflexivity.
  - destruct (slot_of q b0); cbn; try discriminate. intros _. eexists. reflexivity.
Qed.

Lemma life_step_free (q q' : life) (b : buffer) (r : exn + Z) :
  life_step q (EvAfu (AfuFree b) r) = Some q' ->
  match r with
  | inr _ => slot_of q' b = Freed
  | inl _ => l_thrown q' = true
  end.
Proof.
  unfold life_step. destruct (l_over q); [discriminate|].
  destruct (l_thrown q); [discriminate|]. cbn [after_call].
  destruct (slot_of q b); try discriminate.
  destruct r; intros H; inversion H; [reflexivity | apply set_slot_same].
Qed.

Lemma life_step_needs_live (q q' : life) (b : buffer) (e : event) :
  life_step q e = Some q' -> needs b e -> slot_of q b <> Freed.
Proof.
  intros Hs Hn Hf.
  pose proof (life_step_requires q q' e Hs) as Hreq.
  assert (Hlive : forall a, slot_of q b = Live a -> False)
    by (intros a Ha; rewrite Hf in Ha; discriminate Ha).
  assert (Hboth : (exists a, l_input q = Live a) /\ (exists a, l_output q = Live a)
                  -> False).
  { intros [[ai Hi] [ao Ho]]. destruct b; [apply (Hlive ai Hi) | apply (Hlive ao Ho)]. }
  destruct e as [[u| |b1 n|a d|a|b1] r|b0 i v|b0 i v|ms|p|msg];
    cbn [needs] in Hn; try contradiction; try subst b1; try subst b0.
  - rewrite Hf in Hreq. discriminate Hreq.
  - apply Hboth. destruct a; destruct Hreq as [Hi Ho];
      (split; [try exact Hi; eexists; exact Hi | try exact Ho; eexists; exact Ho]).
  - destruct Hreq as [a Ha]. apply (Hlive a Ha).
  - destruct Hreq as [a Ha]. apply (Hlive a Ha).
  - destruct Hreq as [a Ha]. apply (Hlive a Ha).
Qed.

(** Once an array is freed, or a call has thrown, no accepted event needs
    the array. *)
Lemma life_step_dead (q q' : life) (b : buffer) (e : event) :
  slot_of q b = Freed \/ l_thrown q = true ->
  life_step q e = Some q' ->
  ~ needs b e /\ (slot_of q' b = Freed \/ l_thrown q' = true).
Proof.
  intros Hd Hs.
  destruct (life_step_needs q q' e Hs) as [Ht|[msg ->]].
  - destruct Hd as [Hf|Hth]; [|congruence].
    split.
    + intros Hn. apply (life_step_needs_live q q' b e Hs Hn Hf).
    + left.
      destruct (life_step_slot q q' e b Hs)
        as [Heq|[(n & a & _ & Hu & _)|(v & a & _ & _ & Hfr)]].
      * rewrite Heq. exact Hf.
      * rewrite Hu in Hf. discriminate Hf.
      * exact Hfr.
  - split; [intros Hn; exact Hn|].
    revert Hs. unfold life_step. destruct (l_over q); [discriminate|].
    intros H. inversion H. destruct Hd as [Hf|Hth]; [left | right; exact Hth].
    destruct b; exact Hf.
Qed.

Lemma life_run_dead (b : buffer) (t : list event) :
  forall q q',
    slot_of q b = Freed \/ l_thrown q = true ->
    life_run q t = Some q' ->
    Forall (fun e => ~ needs b e) t.
Proof.
  induction t as [|e t IH]; intros q q' Hd H; [constructor|].
  cbn [life_run] in H.
  destruct (life_step q e) as [q1|] eqn:Hs; [|discriminate H].
  destruct (life_step_dead q q1 b e Hd Hs) as [Hn Hd1].
  constructor; [exact Hn | apply (IH q1 q' Hd1 H)].
Qed.

Lemma life_run_free_output (t : list event) (v : Z) :
  forall q q',
    life_run q t = Some q' ->
    In (EvAfu (AfuFree Output) (inr v)) t ->
    l_output q' = Freed.
Proof.
  induction t as [|e t IH]; intros q q' H Hin; [contradiction|].
  cbn [life_run] in H.
  destruct (life_step q e) as [q1|] eqn:Hs; [|discriminate H].
  destruct Hin as [->|Hin].
  - apply life_step_free in Hs.
    apply (life_run_freed Output t q1 q' H Hs).
  - apply (IH q1 q' H Hin).
Qed.

Lemma life_run_no_text (t : list event) :
  forall q q',
    life_run q t = Some q' -> l_over q' = None ->
    forall s, ~ In (EvCout (PrText s)) t.
Proof.
  induction t as [|e t IH]; intros q q' H Ho s Hin; [contradiction|].
  cbn [life_run] in H.
  destruct (life_step q e) as [q1|] eqn:Hs; [|discriminate H].
  assert (Ho1 : l_over q1 = None).
  { destruct (l_over q1) eqn:Hq1; [|reflexivity].
    destruct (life_run_over q1 q' t H) as [_ ->]; [congruence|].
    congruence. }
  destruct Hin as [->|Hin].
  - revert Hs. unfold life_step. destruct (l_over q); [discriminate|].
    destruct (l_thrown q); [discriminate|].
    destruct (both_unallocated q); [|destruct (both_freed q)];
      intros H'; inversion H'; subst; discriminate Ho1.
  - apply (IH q1 q' H Ho s Hin).
Qed.

Lemma usage_is_not_success (name : string) : usage_message name <> success_msg.
Proof. unfold usage_message, success_msg. simpl. discriminate. Qed.

(** X9. The exit status and the success message agree: a run prints
    "All DMA Tests Successful!!!" exactly when [main] returns
    [EXIT_SUCCESS], and whenever [main] returns it returns [EXIT_SUCCESS]
    or [EXIT_FAILURE].  No failing, interrupted or still running execution
    ever prints the success message. *)
Theorem success_message_iff_exit_success (cfg : config) (dev : driver) (fuel : nat)
        (name : string) (args : list string) :
  (In (EvCout (PrText success_msg)) (trace (fst (run cfg dev fuel name args))) <->
   snd (run cfg dev fuel name args) = Done EXIT_SUCCESS) /\
  (forall code, snd (run cfg dev fuel name args) = Done code ->
                code = EXIT_SUCCESS \/ code = EXIT_FAILURE).
Proof.
  split; [split|].
  - unfold run, main. destruct (checkUsage (name :: args)) as [n|].
    + destruct (keeps_try_block cfg dev fuel n initial) as (evs & q & Ht & Hr & Ho).
      cbn [initial trace app] in Ht. rewrite try_catch_eq.
      destruct (snd (try_block cfg dev fuel n initial)) as [r|e|] eqn:Hout;
        rewrite ?Hout.
      * intros _. destruct Ho as [-> _]. reflexivity.
      * destruct (handler_message cfg dev e) as [msg|].
        -- unfold st_emit. cbn [fst trace]. rewrite Ht. intros Hin. exfalso.
           apply in_app_or in Hin.
           destruct Hin as [Hin|[Hin|[]]]; [|discriminate Hin].
           apply (life_run_no_text evs life_init q Hr (proj1 Ho) _ Hin).
        -- rewrite Ht. intros Hin. exfalso.
           apply (life_run_no_text evs life_init q Hr (proj1 Ho) _ Hin).
      * rewrite Ht. intros Hin. exfalso.
        apply (life_run_no_text evs life_init q Hr (proj1 Ho) _ Hin).
    + intros [Hin|[]]. exfalso.
      apply (usage_is_not_success name). congruence.
  - intros Hs.
    assert (Hrun : run cfg dev fuel name args
                   = (fst (run cfg dev fuel name args), Done EXIT_SUCCESS))
      by (rewrite <- Hs; apply surjective_pairing).
    destruct (run_success_inv _ _ _ _ _ _ Hrun) as (n & rp & _ & _ & _ & _ & _ & Heq).
    rewrite Heq, trace_st_end. cbn [initial trace app].
    repeat (apply in_or_app; right). unfold finish_events.
    right. right. left. reflexivity.
  - intros code Hc.
    destruct (run_life cfg dev fuel name args) as (q & _ & Hq).
    rewrite Hc in Hq. destruct Hq as [[-> _]|[-> _]]; auto.
Qed.

Lemma life_step_malloc (q q' : life) (b : buffer) (n : Z) (r : exn + Z) :
  life_step q (EvAfu (AfuMalloc b n) r) = Some q' ->
  slot_of q' b <> Unallocated \/ l_thrown q' = true.
Proof.
  unfold life_step. destruct (l_over q); [discriminate|].
  destruct (l_thrown q); [discriminate|]. cbn [after_call].
  destruct (slot_of q b); try discriminate.
  destruct r; intros H; inversion H; [right; reflexivity | left].
  rewrite set_slot_same. discriminate.
Qed.

Lemma life_step_allocated (q q' : life) (b : buffer) (e : event) :
  slot_of q b <> Unallocated \/ l_thrown q = true ->
  life_step q e = Some q' ->
  (forall n r, e <> EvAfu (AfuMalloc b n) r) /\
  (slot_of q' b <> Unallocated \/ l_thrown q' = true).
Proof.
  intros Hd Hs.
  destruct (life_step_needs q q' e Hs) as [Ht|[msg ->]].
  - destruct Hd as [Hf|Hth]; [|congruence].
    split.
    + intros n r ->. apply Hf. apply (life_step_requires _ _ _ Hs).
    + left.
      destruct (life_step_slot q q' e b Hs)
        as [Heq|[(n & a & _ & _ & Hl)|(v & a & _ & _ & Hfr)]].
      * rewrite Heq. exact Hf.
      * rewrite Hl. discriminate.
      * rewrite Hfr. discriminate.
  - split; [intros n r; discriminate|].
    revert Hs. unfold life_step. destruct (l_over q); [discriminate|].
    intros H. inversion H. destruct Hd as [Hf|Hth]; [left | right; exact Hth].
    destruct b; exact Hf.
Qed.

Lemma life_run_allocated (b : buffer) (t : list event) :
  forall q q',
    slot_of q b <> Unallocated \/ l_thrown q = true ->
    life_run q t = Some q' ->
    Forall (fun e => forall n r, e <> EvAfu (AfuMalloc b n) r) t.
Proof.
  induction t as [|e t IH]; intros q q' Hd H; [constructor|].
  cbn [life_run] in H.
  destruct (life_step q e) as [q1|] eqn:Hs; [|discriminate H].
  destruct (life_step_allocated q q1 b e Hd Hs) as [Hn Hd1].
  constructor; [exact Hn | apply (IH q1 q' Hd1 H)].
Qed.

(** X10. Every run, whatever the arguments, the environment and its
    outcome, keeps the arrays within their life cycle: each is allocated at
    most once, stored to, read and handed to the accelerator only while
    live, and freed at most once; nothing follows a call that threw except
    the handler's message.  A run that returns [EXIT_SUCCESS] has freed
    both arrays; in every other run the output array has not been freed.
    In particular no array is ever allocated a second time, whether the
    first [afu.malloc] returned or threw. *)
Theorem arrays_life_cycle (cfg : config) (dev : driver) (fuel : nat)
        (name : string) (args : list string) :
  (exists q,
     life_run life_init (trace (fst (run cfg dev fuel name args))) = Some q /\
     match snd (run cfg dev fuel name args) with
     | Done code =>
         (code = EXIT_SUCCESS /\ l_over q = Some Success /\
          l_input q = Freed /\ l_output q = Freed) \/
         (code = EXIT_FAILURE /\
          (l_over q = Some Usage \/ l_over q = Some Failure) /\
          l_output q <> Freed)
     | _ => l_over q = None /\ l_output q <> Freed
     end) /\
  (forall t1 t2 b n r,
     trace (fst (run cfg dev fuel name args))
     = t1 ++ EvAfu (AfuMalloc b n) r :: t2 ->
     Forall (fun e => forall n' r', e <> EvAfu (AfuMalloc b n') r') t2).
Proof.
  destruct (run_life cfg dev fuel name args) as (q & Hq & Hend).
  split; [exists q; split; [exact Hq | exact Hend]|].
  intros t1 t2 b n r Ht.
  rewrite Ht, life_run_app in Hq.
  destruct (life_run life_init t1) as [q1|]; [|discriminate Hq].
  cbn [life_run] in Hq.
  destruct (life_step q1 (EvAfu (AfuMalloc b n) r)) as [q2|] eqn:Hs;
    [|discriminate Hq].
  apply (life_run_allocated b t2 q2 q); [|exact Hq].
  apply (life_step_malloc _ _ _ _ _ Hs).
Qed.

(** X11. Nothing is done with an array after it has been handed to
    [afu.free], whether that call returned or threw: in no run is the array
    stored to, read, allocated or freed again, and no register of the
    accelerator is accessed any more. *)
Theorem no_use_after_free (cfg : config) (dev : driver) (fuel : nat)
        (name : string) (args : list string)
        (t1 t2 : list event) (b : buffer) (r : exn + Z) :
  trace (fst (run cfg dev fuel name args)) = t1 ++ EvAfu (AfuFree b) r :: t2 ->
  Forall (fun e => ~ needs b e) t2.
Proof.
  intros Ht. destruct (run_life cfg dev fuel name args) as (q & Hq & _).
  rewrite Ht, life_run_app in Hq.
  destruct (life_run life_init t1) as [q1|]; [|discriminate Hq].
  cbn [life_run] in Hq.
  destruct (life_step q1 (EvAfu (AfuFree b) r)) as [q2|] eqn:Hs; [|discriminate Hq].
  apply life_step_free in Hs.
  apply (life_run_dead b t2 q2 q); [|exact Hq].
  destruct r; [right | left]; exact Hs.
Qed.

Lemma no_use_after_free_witness :
  Forall (fun e => ~ needs Input e)
         [EvAfu (AfuFree Output) (inr 0); EvCout (PrText success_msg)].
Proof.
  apply (no_use_after_free demo_config demo_driver 200 "prog" ["128"%string]
           (firstn 167 (trace (fst (run demo_config demo_driver 200
                                        "prog" ["128"%string]))))
           [EvAfu (AfuFree Output) (inr 0); EvCout (PrText success_msg)]
           Input (inr 0)).
  vm_compute. reflexivity.
Defined.

(** X12. Arrays are used only after their allocation has succeeded, and the
    accelerator is given the right addresses: in every run a store or load
    comes after a successful [afu.malloc] of that array, the value written
    to [MMIO_RD_ADDR] is the address that [afu.malloc] returned for the
    input array and the value written to [MMIO_WR_ADDR] the one it returned
    for the output array, and any other register is accessed only after
    both arrays have been allocated. *)
Theorem use_follows_allocation (cfg : config) (dev : driver) (fuel : nat)
        (name : string) (args : list string) (t1 t2 : list event) (e : event) :
  trace (fst (run cfg dev fuel name args)) = t1 ++ e :: t2 ->
  match e with
  | EvStore b _ _ | EvLoad b _ _ =>
      exists n a, In (EvAfu (AfuMalloc b n) (inr a)) t1
  | EvAfu (AfuWrite MMIO_RD_ADDR d) _ =>
      exists n, In (EvAfu (AfuMalloc Input n) (inr d)) t1
  | EvAfu (AfuWrite MMIO_WR_ADDR d) _ =>
      exists n, In (EvAfu (AfuMalloc Output n) (inr d)) t1
  | EvAfu (AfuWrite _ _) _ | EvAfu (AfuRead _) _ =>
      (exists n a, In (EvAfu (AfuMalloc Input n) (inr a)) t1) /\
      (exists n a, In (EvAfu (AfuMalloc Output n) (inr a)) t1)
  | _ => True
  end.
Proof.
  intros Ht. destruct (run_life cfg dev fuel name args) as (q & Hq & _).
  rewrite Ht, life_run_app in Hq.
  destruct (life_run life_init t1) as [q1|] eqn:H1; [|discriminate Hq].
  cbn [life_run] in Hq.
  destruct (life_step q1 e) as [q2|] eqn:Hs; [|discriminate Hq].
  pose proof (life_step_requires q1 q2 e Hs) as Hreq.
  assert (Hfrom : forall b a, slot_of q1 b = Live a ->
                              exists n, In (EvAfu (AfuMalloc b n) (inr a)) t1).
  { intros b a Hl.
    destruct (life_run_live b a t1 life_init q1 H1 Hl) as [Hinit|Hin];
      [destruct b; discriminate Hinit | exact Hin]. }
  destruct e as [[u| |b1 n|a d|a|b1] r|b0 i v|b0 i v|ms|p|msg]; try exact I.
  - destruct a.
    + destruct Hreq as [[ai Hi] [ao Ho]].
      split; [(destruct (Hfrom Input ai Hi) as [n0 Hin]; exists n0, ai; exact Hin) | (destruct (Hfrom Output ao Ho) as [n0 Hin]; exists n0, ao; exact Hin)].
    + destruct Hreq as [Hi _]. apply (Hfrom Input d Hi).
    + destruct Hreq as [_ Ho]. apply (Hfrom Output d Ho).
    + destruct Hreq as [[ai Hi] [ao Ho]].
      split; [(destruct (Hfrom Input ai Hi) as [n0 Hin]; exists n0, ai; exact Hin) | (destruct (Hfrom Output ao Ho) as [n0 Hin]; exists n0, ao; exact Hin)].
    + destruct Hreq as [[ai Hi] [ao Ho]].
      split; [(destruct (Hfrom Input ai Hi) as [n0 Hin]; exists n0, ai; exact Hin) | (destruct (Hfrom Output ao Ho) as [n0 Hin]; exists n0, ao; exact Hin)].
  - destruct Hreq as [[ai Hi] [ao Ho]].
    split; [(destruct (Hfrom Input ai Hi) as [n0 Hin]; exists n0, ai; exact Hin) | (destruct (Hfrom Output ao Ho) as [n0 Hin]; exists n0, ao; exact Hin)].
  - destruct Hreq as [a Ha]. destruct (Hfrom b0 a Ha) as [n Hin]. exists n, a. exact Hin.
  - destruct Hreq as [a Ha]. destruct (Hfrom b0 a Ha) as [n Hin]. exists n, a. exact Hin.
Qed.

Lemma use_follows_allocation_witness :
  exists n, In (EvAfu (AfuMalloc Input n) (inr 4096))
               (firstn 142 (trace (fst (run demo_config demo_driver 200
                                            "prog" ["128"%string])))).
Proof.
  apply (use_follows_allocation demo_config demo_driver 200 "prog" ["128"%string]
           (firstn 142 (trace (fst (run demo_config demo_driver 200
                                        "prog" ["128"%string]))))
           (skipn 143 (trace (fst (run demo_config demo_driver 200
                                       "prog" ["128"%string]))))
           (EvAfu (AfuWrite MMIO_RD_ADDR 4096) (inr 0))).
  vm_compute. reflexivity.
Defined.

(** X13. The output array is released only on the way to success: a run in
    which [afu.free(output)] has returned is a run that returns
    [EXIT_SUCCESS], and every run that returns [EXIT_SUCCESS] has freed
    both arrays.  A run that fails or is still going has never completed
    [afu.free(output)], so an exception leaves the output array
    allocated. *)
Theorem output_freed_iff_success (cfg : config) (dev : driver) (fuel : nat)
        (name : string) (args : list string) :
  ((exists v, In (EvAfu (AfuFree Output) (inr v))
                 (trace (fst (run cfg dev fuel name args)))) <->
   snd (run cfg dev fuel name args) = Done EXIT_SUCCESS) /\
  (snd (run cfg dev fuel name args) = Done EXIT_SUCCESS ->
   exists v, In (EvAfu (AfuFree Input) (inr v))
                (trace (fst (run cfg dev fuel name args)))).
Proof.
  assert (Hfin : snd (run cfg dev fuel name args) = Done EXIT_SUCCESS ->
                 exists n rp, trace (fst (run cfg dev fuel name args))
                              = trace (st_end cfg dev initial n rp)).
  { intros Hs.
    assert (Hrun : run cfg dev fuel name args
                   = (fst (run cfg dev fuel name args), Done EXIT_SUCCESS))
      by (rewrite <- Hs; apply surjective_pairing).
    destruct (run_success_inv _ _ _ _ _ _ Hrun) as (n & rp & _ & _ & _ & _ & _ & Heq).
    exists n, rp. rewrite <- Heq. reflexivity. }
  split; [split|].
  - intros [v Hin].
    destruct (run_life cfg dev fuel name args) as (q & Hq & Hend).
    pose proof (life_run_free_output _ v life_init q Hq Hin) as Hfr.
    destruct (snd (run cfg dev fuel name args)) as [code|e|].
    + destruct Hend as [[-> _]|(_ & _ & Hno)]; [reflexivity | contradiction].
    + destruct Hend as [_ Hno]. contradiction.
    + destruct Hend as [_ Hno]. contradiction.
  - intros Hs. destruct (Hfin Hs) as (n & rp & ->).
    rewrite trace_st_end. eexists.
    repeat (apply in_or_app; right). unfold finish_events.
    right. left. reflexivity.
  - intros Hs. destruct (Hfin Hs) as (n & rp & ->).
    rewrite trace_st_end. eexists.
    repeat (apply in_or_app; right). unfold finish_events.
    left. reflexivity.
Qed.

(** X14. With an accelerator whose calls never throw and which reports
    completion after finitely many polls, the validated count alone decides
    the outcome: the program runs to [EXIT_SUCCESS] exactly when the count
    is below 2^32, the range of the [unsigned] loop counters.  For a larger
    count no amount of running time makes it return successfully. *)
Theorem run_succeeds_iff_count_fits (cfg : config) (dev : driver) (K : nat)
        (name : string) (args : list string) (n : Z) :
  never_throws dev -> done_within cfg dev K ->
  checkUsage (name :: args) = Some n ->
  ((exists fuel, snd (run cfg dev fuel name args) = Done EXIT_SUCCESS) <->
   n < 2 ^ 32).
Proof.
  intros Hnt Hd Hu. split.
  - intros [fuel Hs].
    assert (Hrun : run cfg dev fuel name args
                   = (fst (run cfg dev fuel name args), Done EXIT_SUCCESS))
      by (rewrite <- Hs; apply surjective_pairing).
    destruct (run_success_inv _ _ _ _ _ _ Hrun) as (n' & rp & Hu' & Hr & _).
    rewrite Hu in Hu'. inversion Hu'. subst n'.
    unfold UINT_MOD in Hr. lia.
  - intros Hn. exists (S (Nat.max (Z.to_nat n) K)).
    apply (run_total cfg dev K _ name args n Hnt Hd Hu Hn); lia.
Qed.

Lemma run_succeeds_iff_count_fits_witness :
  (exists fuel, snd (run demo_config demo_driver fuel "prog" ["128"%string])
                = Done EXIT_SUCCESS) <-> 128 < 2 ^ 32.
Proof.
  apply (run_succeeds_iff_count_fits demo_config demo_driver 2 "prog"
           ["128"%string] 128).
  - apply demo_driver_never_throws.
  - apply demo_driver_done_within.
  - vm_compute. reflexivity.
Defined.
